(** * WhatsApp Print Manager: the Electron main process, embedded in Rocq

    The development follows [main.js] (the current main process, with the
    stale-session timeout, auto-download and parallel chat listing) and, in
    [Module Legacy], the parts of the earlier main process that differ
    (sequential chat listing with the 24-hour filter, retry without
    timeout).

    Layout: JavaScript idioms the code relies on ([Module JS]); the external
    modules it consumes ([Class Externals]); the data returned by the
    messaging backend; the global state and the handler monad; the IPC
    handlers; the session supervisor as a step function over the callbacks
    of the event loop; a concrete installation ([Module Demo]); then the
    theorems, and the theorems at work on that installation. *)

From stdpp Require Import base gmap sets list strings numbers pretty sorting.
From Stdlib Require Import ZArith Lia Ascii.

Open Scope Z_scope.

(** ** JavaScript idioms *)

Module JS.

(** [a || b] on values that may be [undefined]: the empty string and the
    number 0 are falsy as well. *)
Definition truthyS (o : option string) : bool :=
  match o with
  | Some s => negb (String.eqb s "")
  | None => false
  end.

Definition orS (o : option string) (d : string) : string :=
  match o with
  | Some s => if String.eqb s "" then d else s
  | None => d
  end.

(** [a || b] where [b] may itself be missing; the result is [None] exactly
    when it is falsy. *)
Definition orO (o d : option string) : option string :=
  if truthyS o then o else if truthyS d then d else None.

Definition truthyZ (o : option Z) : bool :=
  match o with
  | Some z => negb (z =? 0)
  | None => false
  end.

Definition orZ (o : option Z) (d : Z) : Z :=
  match o with
  | Some z => if z =? 0 then d else z
  | None => d
  end.

(** [x > 0] on a number that may be [undefined] ([undefined > 0] is
    [false]). *)
Definition gtZ (o : option Z) (d : Z) : bool :=
  match o with
  | Some z => d <? z
  | None => false
  end.

(** Interpolation of a number inside a template literal. The numbers of
    the model are integers of absolute value below 10^21 (timestamps in
    seconds, sizes in bytes), which JavaScript prints with all their
    digits; from 10^21 on it switches to exponent notation, which is
    outside the model. *)
Definition showZ (o : option Z) : string :=
  match o with
  | Some z => pretty z
  | None => "undefined"
  end.

(** [arr.slice(start)]: a negative [start] counts from the end, and both
    ends are clamped to the array. *)
Definition slice_from {A} (start : Z) (l : list A) : list A :=
  let len := Z.of_nat (length l) in
  let k := if start <? 0 then Z.max (len + start) 0 else Z.min start len in
  drop (Z.to_nat k) l.

(** [arr.slice(0, n)]. *)
Definition slice_to {A} (n : Z) (l : list A) : list A :=
  let len := Z.of_nat (length l) in
  let k := if n <? 0 then Z.max (len + n) 0 else Z.min n len in
  take (Z.to_nat k) l.

(** [arr.sort(cmp)]: ECMAScript requires the sort to be stable, so with a
    consistent comparator the result is the one of a stable insertion:
    [x] goes in front of the first [y] with [cmp x y <= 0]. *)
Fixpoint sort_insert {A} (cmp : A -> A -> Z) (x : A) (l : list A) : list A :=
  match l with
  | [] => [x]
  | y :: l' =>
      if cmp x y <=? 0 then x :: y :: l' else y :: sort_insert cmp x l'
  end.

Definition sort {A} (cmp : A -> A -> Z) (l : list A) : list A :=
  foldr (sort_insert cmp) [] l.

(** [arr.find(p)]. *)
Fixpoint find {A} (p : A -> bool) (l : list A) : option A :=
  match l with
  | [] => None
  | x :: l' => if p x then Some x else find p l'
  end.

(** The character class [a-zA-Z0-9]. *)
Definition alnum (c : Ascii.ascii) : bool :=
  let n := Ascii.nat_of_ascii c in
  (((48 <=? n) && (n <=? 57)) || ((65 <=? n) && (n <=? 90))
   || ((97 <=? n) && (n <=? 122)))%nat.

(** [s.replace(/[^a-zA-Z0-9]/g, "_")]. *)
Fixpoint replace_non_alnum (s : string) : string :=
  match s with
  | EmptyString => EmptyString
  | String c s' =>
      String (if alnum c then c else "_"%char) (replace_non_alnum s')
  end.

(** [s.substring(0, n)]. A [string] stands for the sequence of the
    UTF-16 code units of the JavaScript string, one character per unit;
    the units of the model are those below 256, so that text outside
    Latin-1 is outside the model. *)
Definition prefix (n : nat) (s : string) : string := String.substring 0 n s.

End JS.

(** ** External modules

    [mime-types], [path], [Buffer], [qrcode] and the failure modes of [fs]
    are collaborators of the main process; the handlers are stated for any
    implementation of them. *)

Class Externals := {
  (** [mime.extension(type)]: [false] for an unknown type. *)
  mime_extension : string -> option string;
  (** [path.join(dir, name)]. *)
  path_join : string -> string -> string;
  (** [Buffer.from(data, "base64")], as the bytes written to disk. *)
  base64_decode : string -> string;
  (** [fs.writeFileSync(p, _)] throws with this message, if any. *)
  write_error : string -> option string;
  (** [fs.unlinkSync(p)] on an existing path throws with this message. *)
  unlink_error : string -> option string;
  (** [QRCode.toDataURL(qr, _)]: the data URL, or a rejection. *)
  qr_toDataURL : string -> option string;
  (** [getUserDataPath("downloads")], stored in the global [DOWNLOADS_DIR]
      by [ensureDownloadsDir] before any handler runs. *)
  DOWNLOADS_DIR : string;
}.

(** ** Results of asynchronous calls *)

Inductive Res (A : Type) : Type :=
| Ok (a : A)
| Err (message : string).
Arguments Ok {A} a.
Arguments Err {A} message.

(** A promise returned by the backend: how long it takes to settle and how
    it settles. An [await] sees only the outcome; [withTimeout] also sees
    the delay. *)
Record Promise (A : Type) : Type := {
  settles_after : Z;
  outcome : Res A;
}.
Arguments settles_after {A} p.
Arguments outcome {A} p.

Definition resolved {A} (a : A) : Promise A :=
  {| settles_after := 0; outcome := Ok a |}.
Definition rejected {A} (e : string) : Promise A :=
  {| settles_after := 0; outcome := Err e |}.

(** The promise [p] with its value seen through [f]. *)
Definition pmap {A B} (f : A -> B) (p : Promise A) : Promise B :=
  {| settles_after := settles_after p;
     outcome := match outcome p with Ok a => Ok (f a) | Err e => Err e end |}.

(** [withTimeout(promise, ms, fallback)]: [Promise.race] between the
    promise and a timer that resolves to [fallback]. The promise is the
    first of the two and exists before the timer is set: when it settles
    within [ms] milliseconds, at [ms] included, the race is its own, and
    the timer wins only when the promise takes longer. *)
Definition withTimeout {A} (p : Promise A) (ms : Z) (fallback : A) : Promise A :=
  if settles_after p <=? ms then p
  else {| settles_after := ms; outcome := Ok fallback |}.

(** ** What the messaging backend hands out

    The backend client (whatsapp-web.js) is an opaque collaborator: each of
    its objects is given by its data fields and by the promise each of its
    methods returns. *)

Record Contact := {
  contact_pushname : option string;
  contact_name : option string;
  contact_number : option string;
  contact_getProfilePicUrl : Promise (option string);
}.

Record Media := {
  media_filename : option string;
  media_mimetype : string;
  media_data : string;
}.

(** The fields of a chat object: [id._serialized], [id.user], [name],
    [isGroup], [unreadCount], [timestamp]. *)
Record ChatInfo := {
  chat_serialized : string;
  chat_user : option string;
  chat_name : option string;
  chat_isGroup : bool;
  chat_unreadCount : option Z;
  chat_timestamp : option Z;
}.

(** A message: [id._serialized], [timestamp], [hasMedia], [type], [body],
    [_data.fileName], [_data.mimetype], [_data.size] and its methods. *)
Record Message := {
  msg_id : string;
  msg_timestamp : option Z;
  msg_hasMedia : bool;
  msg_type : option string;
  msg_body : option string;
  msg_fileName : option string;
  msg_mimetype : option string;
  msg_size : option Z;
  msg_getChat : Promise ChatInfo;
  msg_getContact : Promise Contact;
  msg_downloadMedia : Promise (option Media);
  msg_delete : Promise unit;
}.

Record Chat := {
  chat_info : ChatInfo;
  chat_getContact : Promise Contact;
  chat_fetchMessages : nat -> Promise (list Message);
  chat_sendSeen : Promise unit;
}.

(** [whatsappClient.info]: [pushname] and [wid] ([user], [_serialized]). *)
Record ClientInfo := {
  info_pushname : option string;
  info_wid : option (string * string);
}.

Record Backend := {
  getChats : Promise (list Chat);
  getChatById : string -> Promise Chat;
  client_info : option ClientInfo;
  getProfilePicUrl : string -> Promise (option string);
}.

(** ** What the main process sends and returns *)

(** [messageData] of the incoming-message listener. *)
Record MessageData := {
  md_chatId : string;
  md_chatName : string;
  md_contactNumber : string;
  md_isGroup : bool;
  md_unreadCount : option Z;
  md_messageId : string;
  md_hasMedia : bool;
  md_type : option string;
  md_body : string;
  md_timestamp : option Z;
  md_sender : string;
  md_fileName : option string;
  md_mimeType : option string;
  md_fileSize : option Z;
  md_autoDownloaded : bool;
  md_localPath : option string;
}.

(** [mainWindow.webContents.send(channel, payload)], one constructor per
    channel: [whatsapp:qr], [whatsapp:status], [whatsapp:loading],
    [whatsapp:error], [download:progress], [download:bulk-progress],
    [whatsapp:new-message]. *)
Inductive Ipc :=
| IpcQr (dataUrl : string)
| IpcStatus (status : string)
| IpcLoading (percent : Z) (message : string)
| IpcError (message : string)
| IpcDownloadProgress (messageId status : string)
| IpcBulkProgress (current total : nat) (messageId : string)
| IpcNewMessage (data : MessageData).

(** Calls issued to a backend client or to one of its objects. *)
Inductive Call :=
| CNew (client : nat)
| CInitialize (client : nat)
| CDestroy (client : nat)
| CLogout (client : nat)
| CGetChats
| CGetChatById (chatId : string)
| CFetchMessages (chatId : string) (limit : nat)
| CChatGetContact (chatId : string)
| CContactPic (chatId : string)
| CSendSeen (chatId : string)
| CMsgGetChat (messageId : string)
| CMsgGetContact (messageId : string)
| CDownloadMedia (messageId : string)
| CDelete (messageId : string) (everyone : bool)
| CClientPic (wid : string).

(** Everything the main process does to the outside, in order. *)
Inductive Effect :=
| Send (m : Ipc)
| Backend_call (c : Call)
| SetInitTimer (client : nat) (ms : Z)
| ClearInitTimer (client : nat)
| SetReinitTimer (ms : Z)
| RmAuth
| CleanupStaleLockFiles.

(** The value an IPC handler resolves to: [{ error }] or a result object. *)
Inductive Reply (A : Type) : Type :=
| RError (error : string)
| RValue (a : A).
Arguments RError {A} error.
Arguments RValue {A} a.

(** ** Global state

    The globals of the main process ([whatsappClient], [isClientReady]),
    the closure variables of every [startClient] call still reachable from
    a listener, a timer or a suspended [await], the downloads directory
    and the trace of effects. *)

(** The closure of one [startClient(attempt)] call. A client is
    constructed by [initWhatsApp] right before the call, so closures and
    clients are numbered alike. *)
Record Attempt := {
  attempt : nat;
  eventReceived : bool;
  retryTriggered : bool;
  (** [initTimer] is set and has neither fired nor been cleared *)
  timer_armed : bool;
  (** [await whatsappClient.initialize()] has not settled *)
  init_pending : bool;
  (** [doRetry] is suspended at its awaits (destroy, then 2 s) *)
  retry_waiting : bool;
}.

(** Where a [logout-whatsapp] handler is suspended. *)
Inductive LogoutStage :=
| AwaitLogout         (* await whatsappClient.logout() *)
| AwaitDestroy        (* await whatsappClient.destroy() in the try block *)
| AwaitDestroyCatch   (* await whatsappClient.destroy() in the catch block *)
| AwaitReinit         (* setTimeout(() => initWhatsApp(), 1000) *)
| LogoutDone.

Record App := {
  whatsappClient : option nat;
  isClientReady : bool;
  attempts : list Attempt;
  (** clients constructed on which [destroy()] has not been called *)
  alive : list nat;
  (** [reconnect-whatsapp] handlers suspended at [await destroy()] *)
  reconnects_waiting : nat;
  (** suspended [logout-whatsapp] handlers *)
  logouts_waiting : list LogoutStage;
  (** regular files on disk, by path *)
  fs : gmap string string;
  log : list Effect;
}.

Definition set_client (c : option nat) (s : App) : App :=
  {| whatsappClient := c; isClientReady := isClientReady s;
     attempts := attempts s; alive := alive s;
     reconnects_waiting := reconnects_waiting s;
     logouts_waiting := logouts_waiting s; fs := fs s; log := log s |}.

Definition set_ready (b : bool) (s : App) : App :=
  {| whatsappClient := whatsappClient s; isClientReady := b;
     attempts := attempts s; alive := alive s;
     reconnects_waiting := reconnects_waiting s;
     logouts_waiting := logouts_waiting s; fs := fs s; log := log s |}.

Definition set_attempts (l : list Attempt) (s : App) : App :=
  {| whatsappClient := whatsappClient s; isClientReady := isClientReady s;
     attempts := l; alive := alive s;
     reconnects_waiting := reconnects_waiting s;
     logouts_waiting := logouts_waiting s; fs := fs s; log := log s |}.

Definition set_alive (l : list nat) (s : App) : App :=
  {| whatsappClient := whatsappClient s; isClientReady := isClientReady s;
     attempts := attempts s; alive := l;
     reconnects_waiting := reconnects_waiting s;
     logouts_waiting := logouts_waiting s; fs := fs s; log := log s |}.

Definition set_reconnects (n : nat) (s : App) : App :=
  {| whatsappClient := whatsappClient s; isClientReady := isClientReady s;
     attempts := attempts s; alive := alive s;
     reconnects_waiting := n;
     logouts_waiting := logouts_waiting s; fs := fs s; log := log s |}.

Definition set_logouts (l : list LogoutStage) (s : App) : App :=
  {| whatsappClient := whatsappClient s; isClientReady := isClientReady s;
     attempts := attempts s; alive := alive s;
     reconnects_waiting := reconnects_waiting s;
     logouts_waiting := l; fs := fs s; log := log s |}.

Definition set_fs (f : gmap string string) (s : App) : App :=
  {| whatsappClient := whatsappClient s; isClientReady := isClientReady s;
     attempts := attempts s; alive := alive s;
     reconnects_waiting := reconnects_waiting s;
     logouts_waiting := logouts_waiting s; fs := f; log := log s |}.

(** Append to the trace; nothing else changes. *)
Definition logged (es : list Effect) (s : App) : App :=
  {| whatsappClient := whatsappClient s; isClientReady := isClientReady s;
     attempts := attempts s; alive := alive s;
     reconnects_waiting := reconnects_waiting s;
     logouts_waiting := logouts_waiting s; fs := fs s; log := log s ++ es |}.

Definition emit (e : Effect) (s : App) : App := logged [e] s.

(** ** The handler monad: state, and exceptions carrying [err.message] *)

Definition M (A : Type) : Type := App -> Res A * App.

Definition ret {A} (a : A) : M A := fun s => (Ok a, s).

Definition bind {A B} (m : M A) (k : A -> M B) : M B :=
  fun s => match m s with
           | (Ok a, s') => k a s'
           | (Err e, s') => (Err e, s')
           end.

Definition throw {A} (e : string) : M A := fun s => (Err e, s).

(** [try { m } catch (err) { h err.message }]: what [m] did before it threw
    stays done. *)
Definition try_catch {A} (m : M A) (h : string -> M A) : M A :=
  fun s => match m s with
           | (Ok a, s') => (Ok a, s')
           | (Err e, s') => h e s'
           end.

Declare Scope handler_scope.
Delimit Scope handler_scope with M.
Notation "'let*' x ':=' m 'in' k" := (bind m (fun x => k))
  (at level 10, x name, m at level 100, k at level 200) : handler_scope.
Notation "m ';;' k" := (bind m (fun _ => k))
  (at level 100, k at level 200, right associativity) : handler_scope.

(** A computation that neither reads the state nor touches anything but the
    trace, and whose result satisfies [P]. *)
Definition yields {A} (P : Res A -> Prop) (m : M A) : Prop :=
  exists r es, P r /\ forall s, m s = (r, logged es s).

Definition oblivious {A} (m : M A) : Prop := yields (fun _ => True) m.

(** A computation that leaves the state as it is but for the disk and the
    trace. *)
Definition disk_only {A} (m : M A) : Prop :=
  forall s, exists es disk, snd (m s) = logged es (set_fs disk s).

(** The result is a value satisfying [P]. *)
Definition returns {A} (P : A -> Prop) (r : Res A) : Prop :=
  match r with Ok a => P a | Err _ => False end.

Definition gets {A} (f : App -> A) : M A := fun s => (Ok (f s), s).
Definition modify (f : App -> App) : M unit := fun s => (Ok tt, f s).

(** [mainWindow?.webContents.send(...)]; the window is created before the
    first client and is taken to exist. *)
Definition send (m : Ipc) : M unit := modify (emit (Send m)).

(** Issue a backend call and [await] its promise. *)
Definition await {A} (c : Call) (p : Promise A) : M A :=
  fun s => (outcome p, emit (Backend_call c) s).

Definition existsSync (p : string) : M bool :=
  gets (fun s => bool_decide (is_Some (fs s !! p))).

(** Vocabulary of the statements: the order a sort by [key] establishes,
    and the last [n] elements of an array. *)
Definition key_le {A} (key : A -> Z) (x y : A) : Prop := key x <= key y.

Definition last_n {A} (n : nat) (l : list A) : list A :=
  drop (length l - n) l.

Section Handlers.
Context `{Externals}.
Local Open Scope handler_scope.

Definition writeFileSync (p data : string) : M unit :=
  match write_error p with
  | Some e => throw e
  | None => modify (fun s => set_fs (<[p := data]> (fs s)) s)
  end.

Definition unlinkSync (p : string) : M unit :=
  let* present := existsSync p in
  if negb present then throw ("ENOENT: no such file or directory, unlink '" ++ p ++ "'")
  else match unlink_error p with
       | Some e => throw e
       | None => modify (fun s => set_fs (delete p (fs s)) s)
       end.

(** [for (const x of xs) { ... }] where each round may push one result. *)
Fixpoint for_each {A B} (body : A -> M (option B)) (xs : list A) : M (list B) :=
  match xs with
  | [] => ret []
  | x :: xs' =>
      let* r := body x in
      let* rs := for_each body xs' in
      ret (match r with Some b => b :: rs | None => rs end)
  end.

(** [contact.pushname || contact.name || contact.number || d] *)
Definition contact_display (c : Contact) (d : string) : string :=
  JS.orS (contact_pushname c) (JS.orS (contact_name c) (JS.orS (contact_number c) d)).

(** [msg.id._serialized.replace(/[^a-zA-Z0-9]/g, "_")] *)
Definition safeMsgId (messageId : string) : string :=
  JS.replace_non_alnum messageId.

(** [path.join(DOWNLOADS_DIR, `${safeMsgId}_${fileName}`)] *)
Definition download_path (messageId fileName : string) : string :=
  path_join DOWNLOADS_DIR (safeMsgId messageId ++ "_" ++ fileName).

(** [_data.mimetype] when truthy, else [null]. *)
Definition mimeType_of (msg : Message) : option string :=
  JS.orO (msg_mimetype msg) None.

(** The file name shown for a message: [_data.fileName] when truthy, else
    [`${type || "file"}_${timestamp}.${ext}`] with
    [ext = mime.extension(mimeType || "application/octet-stream") || "bin"]. *)
Definition fileName_of (msg : Message) : string :=
  if JS.truthyS (msg_fileName msg) then JS.orS (msg_fileName msg) ""
  else
    let ext := JS.orS (mime_extension (JS.orS (mimeType_of msg) "application/octet-stream")) "bin" in
    JS.orS (msg_type msg) "file" ++ "_" ++ JS.showZ (msg_timestamp msg) ++ "." ++ ext.

(** *** [get-chat-files] *)

Record MediaInfo := {
  mi_messageId : string;
  mi_chatId : string;
  mi_sender : string;
  mi_timestamp : option Z;
  mi_type : option string;
  mi_caption : string;
  mi_fileName : string;
  mi_mimeType : option string;
  mi_fileSize : option Z;
  mi_isDownloaded : bool;
  mi_localPath : option string;
  mi_isUnread : bool;
}.

(** [msg.timestamp || 0] *)
Definition ts (msg : Message) : Z := JS.orZ (msg_timestamp msg) 0.

Definition by_timestamp_asc (a b : Message) : Z := ts a - ts b.

Definition sortedMsgs (messages : list Message) : list Message :=
  JS.sort by_timestamp_asc messages.

(** The set [unreadMsgIds]: ids of [sortedMsgs.slice(-unreadCount)] when
    [unreadCount > 0]. *)
Definition unreadMsgIds (unreadCount : Z) (messages : list Message) : gset string :=
  if 0 <? unreadCount
  then list_to_set (msg_id <$> JS.slice_from (- unreadCount) (sortedMsgs messages))
  else ∅.

Definition files_newest_first (a b : MediaInfo) : Z :=
  JS.orZ (mi_timestamp b) 0 - JS.orZ (mi_timestamp a) 0.

Definition mediaInfo_of (chatId : string) (unread : gset string) (msg : Message)
    (senderName : string) (downloaded : bool) : MediaInfo :=
  let expectedPath := download_path (msg_id msg) (fileName_of msg) in
  {| mi_messageId := msg_id msg;
     mi_chatId := chatId;
     mi_sender := senderName;
     mi_timestamp := msg_timestamp msg;
     mi_type := msg_type msg;
     mi_caption := JS.orS (msg_body msg) "";
     mi_fileName := fileName_of msg;
     mi_mimeType := mimeType_of msg;
     mi_fileSize := if JS.truthyZ (msg_size msg) then msg_size msg else None;
     mi_isDownloaded := downloaded;
     mi_localPath := if downloaded then Some expectedPath else None;
     mi_isUnread := bool_decide (msg_id msg ∈ unread) |}.

(** [f] is the entry the loop pushes for [msg] when the disk holds
    [disk]. *)
Definition file_of (chatId : string) (unread : gset string) (disk : gmap string string)
    (f : MediaInfo) (msg : Message) : Prop :=
  exists sender,
    f = mediaInfo_of chatId unread msg sender
          (bool_decide (is_Some (disk !! download_path (msg_id msg) (fileName_of msg)))).

(** One round of the loop over [messages]. *)
Definition chat_file (chatId : string) (unread : gset string) (msg : Message)
  : M (option MediaInfo) :=
  if negb (msg_hasMedia msg) then ret None
  else
    let* senderName :=
      try_catch
        (let* contact := await (CMsgGetContact (msg_id msg)) (msg_getContact msg) in
         ret (contact_display contact "Unknown"))
        (fun _ => ret "Unknown") in
    let* downloaded := existsSync (download_path (msg_id msg) (fileName_of msg)) in
    ret (Some (mediaInfo_of chatId unread msg senderName downloaded)).

Definition get_chat_files (B : Backend) (chatId : string)
  : M (Reply (list MediaInfo * Z)) :=
  let* ready := gets isClientReady in
  if negb ready then ret (RError "WhatsApp not ready")
  else
    try_catch
      (let* chat := await (CGetChatById chatId) (getChatById B chatId) in
       let unreadCount := JS.orZ (chat_unreadCount (chat_info chat)) 0 in
       let* messages := await (CFetchMessages chatId 50) (chat_fetchMessages chat 50) in
       let unread := unreadMsgIds unreadCount messages in
       let* files := for_each (chat_file chatId unread) messages in
       ret (RValue (JS.sort files_newest_first files, unreadCount)))
      (fun e => ret (RError e)).

(** *** [get-unread-chats] and [get-all-chats] *)

(** An entry of a chat listing. [get-all-chats] leaves out the picture
    and the preview, and only the parallel listing reports
    [whatsappName]. *)
Record ChatSummary := {
  cs_id : string;
  cs_name : string;
  cs_number : string;
  cs_whatsappName : option string;
  cs_unreadCount : option Z;
  cs_isGroup : bool;
  cs_profilePicUrl : option string;
  cs_timestamp : option Z;
  cs_lastMessage : option string;
}.

(** The listing entry [r] was made from the chat [c]. *)
Definition summary_of (r : ChatSummary) (c : Chat) : Prop :=
  cs_id r = chat_serialized (chat_info c)
  /\ cs_unreadCount r = chat_unreadCount (chat_info c)
  /\ cs_timestamp r = chat_timestamp (chat_info c)
  /\ cs_isGroup r = chat_isGroup (chat_info c).

Definition not_broadcast (c : Chat) : bool :=
  negb (String.eqb (chat_serialized (chat_info c)) "status@broadcast").

(** [(a, b) => (b.timestamp || 0) - (a.timestamp || 0)] on chats and on
    listing entries. *)
Definition chat_ts (c : Chat) : Z := JS.orZ (chat_timestamp (chat_info c)) 0.
Definition chats_newest_first (a b : Chat) : Z := chat_ts b - chat_ts a.
Definition cs_ts (c : ChatSummary) : Z := JS.orZ (cs_timestamp c) 0.
Definition summaries_newest_first (a b : ChatSummary) : Z := cs_ts b - cs_ts a.

(** [chat.id.user || chat.id._serialized] *)
Definition contactNumber_of (c : ChatInfo) : string :=
  JS.orS (chat_user c) (chat_serialized c).

(** The preview of the latest message: [`[${type}]`] for media, else the
    first 50 characters of the body. *)
Definition preview (msgs : list Message) : string :=
  match msgs with
  | [] => ""
  | m :: _ =>
      if msg_hasMedia m
      then "[" ++ match msg_type m with Some t => t | None => "undefined" end ++ "]"
      else JS.prefix 50 (JS.orS (msg_body m) "")
  end.

(** The names and picture found for a chat by the parallel listing. The
    assignments made before [getProfilePicUrl] rejects are kept. *)
Definition enrich_contact (chat : Chat) : M (string * string * option string) :=
  let info := chat_info chat in
  let id := chat_serialized info in
  let contactNumber := contactNumber_of info in
  let savedName := JS.orS (chat_name info) "" in
  try_catch
    (let* contact := await (CChatGetContact id)
                       (withTimeout (pmap Some (chat_getContact chat)) 5000 None) in
     match contact with
     | None => ret (savedName, "", None)
     | Some contact =>
         let whatsappName := JS.orS (contact_pushname contact) "" in
         let savedName' :=
           if String.eqb savedName "" || String.eqb savedName contactNumber
           then JS.orS (contact_name contact) "" else savedName in
         try_catch
           (let* pic := await (CContactPic id)
                          (withTimeout (contact_getProfilePicUrl contact) 3000 None) in
            ret (savedName', whatsappName, pic))
           (fun _ => ret (savedName', whatsappName, None))
     end)
    (fun _ => ret (savedName, "", None)).

Definition last_message_preview (chat : Chat) (timeout : option Z) : M string :=
  let id := chat_serialized (chat_info chat) in
  try_catch
    (let* msgs := await (CFetchMessages id 1)
                    (match timeout with
                     | Some ms => withTimeout (chat_fetchMessages chat 1) ms []
                     | None => chat_fetchMessages chat 1
                     end) in
     ret (preview msgs))
    (fun _ => ret "").

(** The body of [allChats.map(async (chat) => ...)]. *)
Definition summarize (chat : Chat) : M ChatSummary :=
  let info := chat_info chat in
  let contactNumber := contactNumber_of info in
  let* names := enrich_contact chat in
  let '(savedName, whatsappName, profilePicUrl) := names in
  let* lastMessage := last_message_preview chat (Some 3000) in
  let displayName :=
    JS.orS (Some savedName) (JS.orS (Some whatsappName) contactNumber) in
  ret {| cs_id := chat_serialized info;
         cs_name := displayName;
         cs_number := contactNumber;
         cs_whatsappName := Some whatsappName;
         cs_unreadCount := chat_unreadCount info;
         cs_isGroup := chat_isGroup info;
         cs_profilePicUrl := JS.orO profilePicUrl None;
         cs_timestamp := chat_timestamp info;
         cs_lastMessage := Some lastMessage |}.

(** [Promise.all(xs.map(f))] and [for (const x of xs)] with a push per
    round: the results come in the order of [xs]. Under [Promise.all] the
    calls of different elements interleave; the trace lists them element
    by element. *)
Fixpoint map_all {A B} (f : A -> M B) (xs : list A) : M (list B) :=
  match xs with
  | [] => ret []
  | x :: xs' =>
      let* y := f x in
      let* ys := map_all f xs' in
      ret (y :: ys)
  end.

Definition get_unread_chats (B : Backend) : M (Reply (list ChatSummary)) :=
  let* ready := gets isClientReady in
  if negb ready then ret (RError "WhatsApp not ready")
  else
    try_catch
      (let* chats := await CGetChats (withTimeout (getChats B) 30000 []) in
       match chats with
       | [] => ret (RValue [])
       | _ =>
           let allChats := JS.sort chats_newest_first (filter not_broadcast chats) in
           let* result := map_all summarize allChats in
           ret (RValue (JS.sort summaries_newest_first result))
       end)
      (fun e => ret (RError e)).

(** The body of the loop of [get-all-chats]. *)
Definition summarize_brief (chat : Chat) : M ChatSummary :=
  let info := chat_info chat in
  let id := chat_serialized info in
  let contactName := JS.orS (chat_name info) "Unknown" in
  let* name :=
    try_catch
      (let* contact := await (CChatGetContact id) (chat_getContact chat) in
       ret (contact_display contact contactName))
      (fun _ => ret contactName) in
  ret {| cs_id := id;
         cs_name := name;
         cs_number := contactNumber_of info;
         cs_whatsappName := None;
         cs_unreadCount := chat_unreadCount info;
         cs_isGroup := chat_isGroup info;
         cs_profilePicUrl := None;
         cs_timestamp := chat_timestamp info;
         cs_lastMessage := None |}.

(** [{ limit = 30 } = {}]: the default applies when [limit] is absent. *)
Definition get_all_chats (B : Backend) (limit : option Z)
  : M (Reply (list ChatSummary)) :=
  let limit := default 30 limit in
  let* ready := gets isClientReady in
  if negb ready then ret (RError "WhatsApp not ready")
  else
    try_catch
      (let* chats := await CGetChats (getChats B) in
       let sorted :=
         JS.slice_to limit (JS.sort chats_newest_first (filter not_broadcast chats)) in
       let* result := map_all summarize_brief sorted in
       ret (RValue result))
      (fun e => ret (RError e)).

(** *** [download-file] and [download-all-files] *)

(** [{ success: true, localPath, fileName, size }] *)
Record Downloaded := {
  dl_localPath : string;
  dl_fileName : string;
  dl_size : nat;
}.

(** [fileName || media.filename], else [`file_${Date.now()}.${ext}`]. *)
Definition finalFileName_of (fileName : option string) (media : Media) (now : Z) : string :=
  match JS.orO fileName (media_filename media) with
  | Some f => f
  | None =>
      let ext := JS.orS (mime_extension (media_mimetype media)) "bin" in
      "file_" ++ pretty now ++ "." ++ ext
  end.

(** Write the decoded payload under the naming convention of the
    downloads directory. *)
Definition save_media (messageId finalFileName : string) (media : Media) : M Downloaded :=
  let localPath := download_path messageId finalFileName in
  let buffer := base64_decode (media_data media) in
  writeFileSync localPath buffer;;
  ret {| dl_localPath := localPath;
         dl_fileName := finalFileName;
         dl_size := String.length buffer |}.

Definition download_file (B : Backend) (now : Z)
    (messageId chatId : string) (fileName : option string) : M (Reply Downloaded) :=
  let* ready := gets isClientReady in
  if negb ready then ret (RError "WhatsApp not ready")
  else
    try_catch
      (let* chat := await (CGetChatById chatId) (getChatById B chatId) in
       let* messages := await (CFetchMessages chatId 100) (chat_fetchMessages chat 100) in
       match JS.find (fun m => String.eqb (msg_id m) messageId) messages with
       | None => ret (RError "Message not found")
       | Some msg =>
           if negb (msg_hasMedia msg) then ret (RError "Message has no media")
           else
             send (IpcDownloadProgress messageId "downloading");;
             let* media := await (CDownloadMedia (msg_id msg)) (msg_downloadMedia msg) in
             match media with
             | None => ret (RError "Failed to download media")
             | Some media =>
                 let* saved := save_media messageId
                                 (finalFileName_of fileName media now) media in
                 send (IpcDownloadProgress messageId "complete");;
                 ret (RValue saved)
             end
       end)
      (fun e =>
         send (IpcDownloadProgress messageId "error");;
         ret (RError e)).

(** An entry of [results]: [{ messageId, success: true, ... }] or
    [{ messageId, error }]. *)
Inductive BulkResult :=
| BulkOk (messageId : string) (d : Downloaded)
| BulkErr (messageId : string) (error : string).

(** [media.filename], else [_data.fileName], else
    [`${type || "file"}_${timestamp}.${ext}`] with the extension of the
    payload's MIME type. *)
Definition bulk_fileName (msg : Message) (media : Media) : string :=
  if JS.truthyS (media_filename media) then JS.orS (media_filename media) ""
  else if JS.truthyS (msg_fileName msg) then JS.orS (msg_fileName msg) ""
  else
    let ext := JS.orS (mime_extension (media_mimetype media)) "bin" in
    JS.orS (msg_type msg) "file" ++ "_" ++ JS.showZ (msg_timestamp msg) ++ "." ++ ext.

(** The loop of [download-all-files], from index [i]. *)
Fixpoint download_each (total : nat) (i : nat) (msgs : list Message) : M (list BulkResult) :=
  match msgs with
  | [] => ret []
  | msg :: msgs' =>
      send (IpcBulkProgress (i + 1) total (msg_id msg));;
      let* r :=
        try_catch
          (let* media := await (CDownloadMedia (msg_id msg)) (msg_downloadMedia msg) in
           match media with
           | None => ret (BulkErr (msg_id msg) "Failed to download")
           | Some media =>
               let* saved := save_media (msg_id msg) (bulk_fileName msg media) media in
               ret (BulkOk (msg_id msg) saved)
           end)
          (fun e => ret (BulkErr (msg_id msg) e)) in
      let* rs := download_each total (i + 1) msgs' in
      ret (r :: rs)
  end.

Definition download_all_files (B : Backend) (chatId : string)
  : M (Reply (list BulkResult)) :=
  let* ready := gets isClientReady in
  if negb ready then ret (RError "WhatsApp not ready")
  else
    try_catch
      (let* chat := await (CGetChatById chatId) (getChatById B chatId) in
       let* messages := await (CFetchMessages chatId 100) (chat_fetchMessages chat 100) in
       let mediaMessages := filter (fun m => msg_hasMedia m = true) messages in
       let* results := download_each (length mediaMessages) 0 mediaMessages in
       ret (RValue results))
      (fun e => ret (RError e)).

(** *** [mark-chat-read] and [get-profile-info] *)

Definition mark_chat_read (B : Backend) (chatId : string) : M (Reply unit) :=
  let* ready := gets isClientReady in
  if negb ready then ret (RError "WhatsApp not ready")
  else
    try_catch
      (let* chat := await (CGetChatById chatId) (getChatById B chatId) in
       await (CSendSeen chatId) (chat_sendSeen chat);;
       ret (RValue tt))
      (fun e => ret (RError e)).

(** [{ name, number, profilePicUrl }] *)
Record Profile := {
  pf_name : string;
  pf_number : string;
  pf_profilePicUrl : option string;
}.

Definition get_profile_info (B : Backend) : M (Reply Profile) :=
  let* ready := gets isClientReady in
  let* client := gets whatsappClient in
  if negb ready || negb (bool_decide (is_Some client))
  then ret (RError "WhatsApp not ready")
  else
    try_catch
      (match client_info B with
       | None => throw "Cannot read properties of undefined (reading 'pushname')"
       | Some info =>
           let pushname := JS.orS (info_pushname info) "Unknown" in
           let number := match info_wid info with Some (user, _) => user | None => "" end in
           let* pic :=
             try_catch
               (match info_wid info with
                | None => throw "Cannot read properties of undefined (reading '_serialized')"
                | Some (_, serialized) =>
                    await (CClientPic serialized) (getProfilePicUrl B serialized)
                end)
               (fun _ => ret None) in
           ret (RValue {| pf_name := pushname;
                          pf_number := number;
                          pf_profilePicUrl := JS.orO pic None |})
       end)
      (fun e => ret (RError e)).

(** *** [delete-files] *)

(** An entry of [results]: [{ filePath, success: true }] or
    [{ filePath, error }]. *)
Inductive LocalResult :=
| LocalOk (filePath : string)
| LocalErr (filePath : string) (error : string).

(** An entry of [waResults]: [{ messageId, success: true }],
    [{ messageId, error }], or [{ error }] when the chat could not be
    read. *)
Inductive WaResult :=
| WaOk (messageId : string)
| WaErr (messageId : string) (error : string)
| WaChatErr (error : string).

Definition local_failed (r : LocalResult) : bool :=
  match r with LocalOk _ => false | LocalErr _ _ => true end.

(** Pass 1, one file. *)
Definition delete_local (filePath : string) : M LocalResult :=
  try_catch
    (let* present := existsSync filePath in
     if present
     then unlinkSync filePath;; ret (LocalOk filePath)
     else ret (LocalErr filePath "File not found on disk"))
    (fun e => ret (LocalErr filePath e)).

(** Pass 2, one message: [delete(true)] asks for "delete for everyone". *)
Definition delete_remote (messages : list Message) (msgId : string) : M WaResult :=
  try_catch
    (match JS.find (fun m => String.eqb (msg_id m) msgId) messages with
     | Some msg =>
         await (CDelete (msg_id msg) true) (msg_delete msg);;
         ret (WaOk msgId)
     | None => ret (WaErr msgId "Message not found in chat")
     end)
    (fun e => ret (WaErr msgId e)).

(** Pass 2. The results pushed before a throw would be kept, but only
    the two reads of the chat can throw. *)
Definition delete_remote_pass (B : Backend) (chatId : option string)
    (messageIds : option (list string)) : M (list WaResult) :=
  let* ready := gets isClientReady in
  match chatId, messageIds with
  | Some chatId, Some (msgId :: msgIds) =>
      if ready && negb (String.eqb chatId "")
      then
        try_catch
          (let* chat := await (CGetChatById chatId) (getChatById B chatId) in
           let* messages := await (CFetchMessages chatId 100) (chat_fetchMessages chat 100) in
           map_all (delete_remote messages) (msgId :: msgIds))
          (fun e => ret [WaChatErr e])
      else ret []
  | _, _ => ret []
  end.

Definition delete_files (B : Backend) (filePaths : list string)
    (messageIds : option (list string)) (chatId : option string)
  : M (list LocalResult * list WaResult) :=
  let* results := map_all delete_local filePaths in
  let* waResults := delete_remote_pass B chatId messageIds in
  ret (results, waResults).

(** *** The listener of incoming messages *)

(** [_data.fileName || null], else the synthesized name, as the listener
    computes it. *)
Definition incoming_fileName (msg : Message) : string :=
  match JS.orO (msg_fileName msg) None with
  | Some f => f
  | None =>
      let mimeType := JS.orO (msg_mimetype msg) None in
      let ext := JS.orS (mime_extension (JS.orS mimeType "application/octet-stream")) "bin" in
      JS.orS (msg_type msg) "file" ++ "_" ++ JS.showZ (msg_timestamp msg) ++ "." ++ ext
  end.

Definition messageData_of (msg : Message) (chat : ChatInfo) (contact : Contact)
  : MessageData :=
  let contactName := contact_display contact "Unknown" in
  {| md_chatId := chat_serialized chat;
     md_chatName := JS.orS (chat_name chat) contactName;
     md_contactNumber := contactNumber_of chat;
     md_isGroup := chat_isGroup chat;
     md_unreadCount := chat_unreadCount chat;
     md_messageId := msg_id msg;
     md_hasMedia := msg_hasMedia msg;
     md_type := msg_type msg;
     md_body := JS.orS (msg_body msg) "";
     md_timestamp := msg_timestamp msg;
     md_sender := contactName;
     md_fileName := None;
     md_mimeType := None;
     md_fileSize := None;
     md_autoDownloaded := false;
     md_localPath := None |}.

(** The fields added for a message with media, before the download. *)
Definition with_file_info (msg : Message) (d : MessageData) : MessageData :=
  {| md_chatId := md_chatId d; md_chatName := md_chatName d;
     md_contactNumber := md_contactNumber d; md_isGroup := md_isGroup d;
     md_unreadCount := md_unreadCount d; md_messageId := md_messageId d;
     md_hasMedia := md_hasMedia d; md_type := md_type d; md_body := md_body d;
     md_timestamp := md_timestamp d; md_sender := md_sender d;
     md_fileName := Some (incoming_fileName msg);
     md_mimeType := JS.orO (msg_mimetype msg) None;
     md_fileSize := if JS.truthyZ (msg_size msg) then msg_size msg else None;
     md_autoDownloaded := md_autoDownloaded d;
     md_localPath := md_localPath d |}.

(** [messageData.autoDownloaded = true; messageData.localPath = localPath] *)
Definition with_download (localPath : string) (d : MessageData) : MessageData :=
  {| md_chatId := md_chatId d; md_chatName := md_chatName d;
     md_contactNumber := md_contactNumber d; md_isGroup := md_isGroup d;
     md_unreadCount := md_unreadCount d; md_messageId := md_messageId d;
     md_hasMedia := md_hasMedia d; md_type := md_type d; md_body := md_body d;
     md_timestamp := md_timestamp d; md_sender := md_sender d;
     md_fileName := md_fileName d; md_mimeType := md_mimeType d;
     md_fileSize := md_fileSize d;
     md_autoDownloaded := true;
     md_localPath := Some localPath |}.

(** The inner [try] of the listener: download the payload and write it;
    a failure is logged to the console and nothing else. *)
Definition auto_download (now : Z) (msg : Message) (d : MessageData) : M MessageData :=
  try_catch
    (let* media := await (CDownloadMedia (msg_id msg)) (msg_downloadMedia msg) in
     match media with
     | Some media =>
         let finalFileName := finalFileName_of (md_fileName d) media now in
         let localPath := download_path (msg_id msg) finalFileName in
         writeFileSync localPath (base64_decode (media_data media));;
         ret (with_download localPath d)
     | None => ret d
     end)
    (fun _ => ret d).

(** [whatsappClient.on("message", async (msg) => ...)] *)
Definition on_message (now : Z) (msg : Message) : M unit :=
  try_catch
    (let* chat := await (CMsgGetChat (msg_id msg)) (msg_getChat msg) in
     let* contact := await (CMsgGetContact (msg_id msg)) (msg_getContact msg) in
     let messageData := messageData_of msg chat contact in
     let* messageData :=
       if msg_hasMedia msg
       then auto_download now msg (with_file_info msg messageData)
       else ret messageData in
     send (IpcNewMessage messageData))
    (fun _ => ret tt).

End Handlers.

(** ** The earlier main process

    Its [get-unread-chats] keeps the chats with unread messages or recent
    activity and enriches them one after the other, without timeouts. *)

Module Legacy.
Section Handlers.
Context `{Externals}.
Local Open Scope handler_scope.

(** [chat.unreadCount > 0 || (chat.timestamp && chat.timestamp > oneDayAgo)] *)
Definition recent (oneDayAgo : Z) (c : Chat) : bool :=
  JS.gtZ (chat_unreadCount (chat_info c)) 0
  || (JS.truthyZ (chat_timestamp (chat_info c))
      && JS.gtZ (chat_timestamp (chat_info c)) oneDayAgo).

(** The name and picture found for a chat. *)
Definition enrich_contact (chat : Chat) : M (string * option string) :=
  let info := chat_info chat in
  let id := chat_serialized info in
  let contactName := JS.orS (chat_name info) "Unknown" in
  try_catch
    (let* contact := await (CChatGetContact id) (chat_getContact chat) in
     let contactName' := contact_display contact contactName in
     try_catch
       (let* pic := await (CContactPic id) (contact_getProfilePicUrl contact) in
        ret (contactName', pic))
       (fun _ => ret (contactName', None)))
    (fun _ => ret (contactName, None)).

Definition summarize (chat : Chat) : M ChatSummary :=
  let info := chat_info chat in
  let* names := enrich_contact chat in
  let '(contactName, profilePicUrl) := names in
  let* lastMessage := last_message_preview chat None in
  ret {| cs_id := chat_serialized info;
         cs_name := contactName;
         cs_number := contactNumber_of info;
         cs_whatsappName := None;
         cs_unreadCount := chat_unreadCount info;
         cs_isGroup := chat_isGroup info;
         cs_profilePicUrl := JS.orO profilePicUrl None;
         cs_timestamp := chat_timestamp info;
         cs_lastMessage := Some lastMessage |}.

(** [now] is [Date.now()], in milliseconds. *)
Definition get_unread_chats (B : Backend) (now : Z) : M (Reply (list ChatSummary)) :=
  let* ready := gets isClientReady in
  if negb ready then ret (RError "WhatsApp not ready")
  else
    try_catch
      (let* chats := await CGetChats (getChats B) in
       let oneDayAgo := now / 1000 - 86400 in
       let recentChats := filter (recent oneDayAgo) chats in
       let* result := map_all summarize recentChats in
       ret (RValue (JS.sort summaries_newest_first result)))
      (fun e => ret (RError e)).

End Handlers.
End Legacy.

(** ** The session supervisor: [initWhatsApp], [startClient], [doRetry],
    [reconnect-whatsapp], [logout-whatsapp]

    The event loop runs one callback at a time. Each input below is one
    callback, or the resumption of a suspended [await]; [step] runs it to
    its next suspension point. *)

Inductive ClientEvent :=
| EvQr (qr : string)
| EvAuthenticated
| EvReady
| EvLoadingScreen (percent : Z) (message : string)
| EvDisconnected (reason : string)
| EvAuthFailure (msg : string)
| EvMessage (now : Z) (msg : Message).

(** The chat/message operations the window can invoke. *)
Inductive Request :=
| GetUnreadChats
| GetAllChats (limit : option Z)
| GetChatFiles (chatId : string)
| DownloadFile (messageId chatId : string) (fileName : option string)
| DownloadAllFiles (chatId : string)
| MarkChatRead (chatId : string)
| GetProfileInfo
| DeleteFiles (filePaths : list string) (messageIds : option (list string))
    (chatId : option string).

Inductive Input :=
(** a live client emits a lifecycle event *)
| ClientEmits (client : nat) (e : ClientEvent)
(** [await whatsappClient.initialize()] of an attempt settles *)
| InitResolved (client : nat)
| InitRejected (client : nat) (message : string)
(** [initTimer] of an attempt fires *)
| TimerFired (client : nat)
(** [doRetry] of an attempt resumes: destroy has settled, resolved or not,
    and the 2 s have passed *)
| RetryResumed (client : nat)
(** [reconnect-whatsapp] is invoked; its [await destroy()] settles *)
| ReconnectInvoked
| ReconnectResumed (destroy : Res unit)
(** [logout-whatsapp] is invoked; the await (or the 1 s timer) of the
    [i]-th invocation settles *)
| LogoutInvoked
| LogoutResumed (i : nat) (r : Res unit)
(** the window invokes a chat/message operation at time [now], and the
    backend answers its calls as [B] says *)
| Invoked (B : Backend) (now : Z) (r : Request).

Definition INIT_TIMEOUT_MS : Z := 45000.

Definition new_attempt (n : nat) : Attempt :=
  {| attempt := n; eventReceived := false; retryTriggered := false;
     timer_armed := true; init_pending := true; retry_waiting := false |}.

(** [markEventReceived] *)
Definition markEventReceived (a : Attempt) : Attempt :=
  {| attempt := attempt a; eventReceived := true;
     retryTriggered := retryTriggered a; timer_armed := timer_armed a;
     init_pending := init_pending a; retry_waiting := retry_waiting a |}.

Definition retry_begun (a : Attempt) : Attempt :=
  {| attempt := attempt a; eventReceived := eventReceived a;
     retryTriggered := true; timer_armed := timer_armed a;
     init_pending := init_pending a; retry_waiting := true |}.

Definition retry_resumed (a : Attempt) : Attempt :=
  {| attempt := attempt a; eventReceived := eventReceived a;
     retryTriggered := retryTriggered a; timer_armed := timer_armed a;
     init_pending := init_pending a; retry_waiting := false |}.

Definition timer_gone (a : Attempt) : Attempt :=
  {| attempt := attempt a; eventReceived := eventReceived a;
     retryTriggered := retryTriggered a; timer_armed := false;
     init_pending := init_pending a; retry_waiting := retry_waiting a |}.

Definition init_settled (a : Attempt) : Attempt :=
  {| attempt := attempt a; eventReceived := eventReceived a;
     retryTriggered := retryTriggered a; timer_armed := false;
     init_pending := false; retry_waiting := retry_waiting a |}.

Definition on_attempt (c : nat) (f : Attempt -> Attempt) (s : App) : App :=
  set_attempts (alter f c (attempts s)) s.

Definition status (st : string) (s : App) : App := emit (Send (IpcStatus st)) s.

(** [whatsappClient.destroy()] on the client the global holds now. Once
    called, the client no longer counts as alive, whether the promise
    resolves or rejects. *)
Definition destroy_current (s : App) : App :=
  match whatsappClient s with
  | Some g =>
      set_alive (filter (fun c => c ≠ g) (alive s)) (emit (Backend_call (CDestroy g)) s)
  | None => s
  end.

Section Supervisor.
Context `{Externals}.

(** [initWhatsApp(retryAttempt)]: construct a client, store it in the
    global, register the listeners, and run [startClient] up to its
    [await whatsappClient.initialize()]. *)
Definition initWhatsApp (retryAttempt : nat) (s : App) : App :=
  let c := length (attempts s) in
  let s := emit (Backend_call (CNew c)) s in
  let s := set_client (Some c) s in
  let s := set_alive (alive s ++ [c]) s in
  let s := set_attempts (attempts s ++ [new_attempt retryAttempt]) s in
  let s := emit (SetInitTimer c INIT_TIMEOUT_MS) s in
  emit (Backend_call (CInitialize c)) s.

(** [doRetry(reason)], up to its first [await]. *)
Definition doRetry (c : nat) (s : App) : App :=
  match attempts s !! c with
  | Some a =>
      if retryTriggered a then s
      else destroy_current (on_attempt c retry_begun s)
  | None => s
  end.

(** [doRetry] after the grace period. *)
Definition doRetry_resume (c : nat) (s : App) : App :=
  match attempts s !! c with
  | Some a =>
      if retry_waiting a then
        let s := on_attempt c retry_resumed s in
        if (attempt a <? 3)%nat then
          let s := if eventReceived a then s else emit RmAuth s in
          let s := emit CleanupStaleLockFiles s in
          let s := status "retrying" s in
          initWhatsApp (attempt a + 1) s
        else
          let s := status "error" s in
          emit (Send (IpcError
            "Failed to start WhatsApp after multiple attempts. Please restart the app.")) s
      else s
  | None => s
  end.

(** The listeners registered by [initWhatsApp] ([on]) and by
    [startClient] ([once], for [qr], [authenticated], [ready] and
    [auth_failure]). The [on] listeners of the lifecycle events are the
    same in the earlier main process. *)
Definition on_event (c : nat) (e : ClientEvent) (s : App) : App :=
  match e with
  | EvQr qr =>
      let s := on_attempt c markEventReceived s in
      match qr_toDataURL qr with
      | Some url => emit (Send (IpcQr url)) s
      | None => s
      end
  | EvAuthenticated =>
      on_attempt c markEventReceived (status "authenticated" s)
  | EvReady =>
      on_attempt c markEventReceived (status "ready" (set_ready true s))
  | EvLoadingScreen percent message =>
      emit (Send (IpcLoading percent message)) s
  | EvDisconnected _ =>
      status "disconnected" (set_ready false s)
  | EvAuthFailure _ =>
      on_attempt c markEventReceived (status "auth_failure" s)
  | EvMessage now msg =>
      snd (on_message now msg s)
  end.

(** A chat/message operation, for what it does to the state. It reads
    [isClientReady] on entry and from there on touches only the disk and
    the trace, which no other callback reads, so it is run in one piece. *)
Definition handle (B : Backend) (now : Z) (r : Request) (s : App) : App :=
  match r with
  | GetUnreadChats => snd (get_unread_chats B s)
  | GetAllChats limit => snd (get_all_chats B limit s)
  | GetChatFiles chatId => snd (get_chat_files B chatId s)
  | DownloadFile messageId chatId fileName =>
      snd (download_file B now messageId chatId fileName s)
  | DownloadAllFiles chatId => snd (download_all_files B chatId s)
  | MarkChatRead chatId => snd (mark_chat_read B chatId s)
  | GetProfileInfo => snd (get_profile_info B s)
  | DeleteFiles filePaths messageIds chatId =>
      snd (delete_files B filePaths messageIds chatId s)
  end.

(** The tail of [logout-whatsapp], after the client is gone. *)
Definition logout_finish (s : App) : App :=
  let s := set_ready false s in
  let s := emit RmAuth s in
  let s := status "logged_out" s in
  emit (SetReinitTimer 1000) s.

Definition logout_resume (i : nat) (r : Res unit) (s : App) : App :=
  let stage (st : LogoutStage) (s : App) := set_logouts (<[i := st]> (logouts_waiting s)) s in
  match logouts_waiting s !! i with
  | Some AwaitLogout =>
      match r with
      | Ok _ => stage AwaitDestroy (destroy_current s)
      | Err _ => stage AwaitDestroyCatch (destroy_current s)
      end
  | Some AwaitDestroy =>
      match r with
      | Ok _ => stage AwaitReinit (logout_finish s)
      | Err _ => stage AwaitDestroyCatch (destroy_current s)
      end
  | Some AwaitDestroyCatch => stage AwaitReinit (logout_finish s)
  | Some AwaitReinit => initWhatsApp 1 (stage LogoutDone s)
  | Some LogoutDone | None => s
  end.

Definition step (s : App) (i : Input) : App :=
  match i with
  | ClientEmits c e =>
      if bool_decide (c ∈ alive s) then on_event c e s else s
  | InitResolved c =>
      match attempts s !! c with
      | Some a =>
          if init_pending a
          then emit (ClearInitTimer c) (on_attempt c init_settled s)
          else s
      | None => s
      end
  | InitRejected c _ =>
      match attempts s !! c with
      | Some a =>
          if init_pending a
          then doRetry c (emit (ClearInitTimer c) (on_attempt c init_settled s))
          else s
      | None => s
      end
  | TimerFired c =>
      match attempts s !! c with
      | Some a =>
          if timer_armed a then
            let s := on_attempt c timer_gone s in
            if eventReceived a then s else doRetry c s
          else s
      | None => s
      end
  | RetryResumed c => doRetry_resume c s
  | ReconnectInvoked =>
      match whatsappClient s with
      | Some _ => set_reconnects (S (reconnects_waiting s)) (destroy_current s)
      | None => initWhatsApp 1 (set_ready false s)
      end
  | ReconnectResumed r =>
      match reconnects_waiting s with
      | S n =>
          let s := set_reconnects n s in
          match r with
          | Ok _ => initWhatsApp 1 (set_ready false s)
          | Err _ => s
          end
      | O => s
      end
  | LogoutInvoked =>
      match whatsappClient s with
      | Some g =>
          set_logouts (logouts_waiting s ++ [AwaitLogout])
            (emit (Backend_call (CLogout g)) s)
      | None =>
          set_logouts (logouts_waiting s ++ [AwaitReinit]) (logout_finish s)
      end
  | LogoutResumed i r => logout_resume i r s
  | Invoked B now r => handle B now r s
  end.

Definition run (s : App) (inputs : list Input) : App := foldl step s inputs.

(** The state when [app.whenReady()] resolves: [cleanupStaleLockFiles()],
    then [initWhatsApp()] on a disk holding [disk]. *)
Definition boot (disk : gmap string string) : App :=
  initWhatsApp 1
    (emit CleanupStaleLockFiles
       {| whatsappClient := None; isClientReady := false; attempts := [];
          alive := []; reconnects_waiting := 0; logouts_waiting := [];
          fs := disk; log := [] |}).

End Supervisor.

(** ** Vocabulary of the statements about the supervisor *)

(** The four events [startClient] takes as signs of progress. *)
Definition marks (e : ClientEvent) : bool :=
  match e with
  | EvQr _ | EvAuthenticated | EvReady | EvAuthFailure _ => true
  | EvLoadingScreen _ _ | EvDisconnected _ | EvMessage _ _ => false
  end.

(** How an initialization attempt can fail without any of the four events:
    [initialize()] rejects, the 45 s pass, or the 45 s pass and the
    rejection arrives while [doRetry] waits. *)
Inductive Failure :=
| InitError (message : string)
| StaleTimeout
| StaleTimeoutThenInitError (message : string).

Definition fails (c : nat) (f : Failure) : list Input :=
  match f with
  | InitError e => [InitRejected c e; RetryResumed c]
  | StaleTimeout => [TimerFired c; RetryResumed c]
  | StaleTimeoutThenInitError e => [TimerFired c; InitRejected c e; RetryResumed c]
  end.

(** What one callback [i] can do to the closure of attempt [c]. *)
Inductive transition (s : App) (i : Input) (c : nat) : Attempt -> Attempt -> Prop :=
| tr_same a : transition s i c a a
| tr_mark a e :
    i = ClientEmits c e -> marks e = true -> c ∈ alive s ->
    transition s i c a (markEventReceived a)
| tr_resolved a :
    i = InitResolved c -> init_pending a = true ->
    transition s i c a (init_settled a)
| tr_rejected a e :
    i = InitRejected c e -> init_pending a = true -> retryTriggered a = true ->
    transition s i c a (init_settled a)
| tr_rejected_retry a e :
    i = InitRejected c e -> init_pending a = true -> retryTriggered a = false ->
    transition s i c a (retry_begun (init_settled a))
| tr_timer a :
    i = TimerFired c -> timer_armed a = true ->
    (eventReceived a = true \/ retryTriggered a = true) ->
    transition s i c a (timer_gone a)
| tr_timer_retry a :
    i = TimerFired c -> timer_armed a = true ->
    eventReceived a = false -> retryTriggered a = false ->
    transition s i c a (retry_begun (timer_gone a))
| tr_resumed a :
    i = RetryResumed c -> retry_waiting a = true ->
    transition s i c a (retry_resumed a).

(** [s'] comes from [s] by callbacks that construct no client: the trace
    has grown, the closures are as many, the global holds the same client
    and no client has come alive. *)
Definition quiet (s s' : App) : Prop :=
  (exists es, log s' = log s ++ es)
  /\ length (attempts s') = length (attempts s)
  /\ whatsappClient s' = whatsappClient s
  /\ alive s' ⊆ alive s.

(** What holds of every state the supervisor reaches: the global holds a
    client; a closure whose timer is still set has not retried; a closure
    suspended in [doRetry] has passed its guard; every closure set its
    timer to [INIT_TIMEOUT_MS]; and every client alive has its closure. *)
Definition sane (s : App) : Prop :=
  is_Some (whatsappClient s)
  /\ (forall c, c ∈ alive s -> (c < length (attempts s))%nat)
  /\ forall c a, attempts s !! c = Some a ->
       (timer_armed a = true -> retryTriggered a = false)
       /\ (retry_waiting a = true -> retryTriggered a = true)
       /\ SetInitTimer c INIT_TIMEOUT_MS ∈ log s.

(** How many more times the closure can enter [doRetry] past its guard,
    and how many more times it can resume there. *)
Definition teardowns_left (o : option Attempt) : nat :=
  match o with
  | Some a => if retryTriggered a then 0 else 1
  | None => 1
  end.

Definition resumes_left (o : option Attempt) : nat :=
  match o with
  | Some a => if retry_waiting a then 1 else if retryTriggered a then 0 else 1
  | None => 1
  end.

(** The callbacks that belong to the closure of attempt [c]. *)
Definition on_behalf (c : nat) (i : Input) : bool :=
  match i with
  | TimerFired c' | InitRejected c' _ | RetryResumed c' => bool_decide (c' = c)
  | _ => false
  end.

Definition is_retrying (e : Effect) : bool :=
  match e with
  | Send (IpcStatus st) => String.eqb st "retrying"
  | _ => false
  end.

Definition is_destroy (e : Effect) : bool :=
  match e with
  | Backend_call (CDestroy _) => true
  | _ => false
  end.

Definition is_rmAuth (e : Effect) : bool :=
  match e with RmAuth => true | _ => false end.

Definition is_new_client (e : Effect) : bool :=
  match e with Backend_call (CNew _) => true | _ => false end.

Definition is_status (e : Effect) : bool :=
  match e with Send (IpcStatus _) => true | _ => false end.

Section Counting.
Context `{Externals}.

(** What one callback adds to the trace. *)
Definition step_effects (s : App) (i : Input) : list Effect :=
  drop (length (log s)) (log (step s i)).

(** Along a run, the number of callbacks of attempt [c] that emit an
    effect satisfying [e]. *)
Fixpoint count_emitting (c : nat) (e : Effect -> bool) (s : App) (inputs : list Input)
  : nat :=
  match inputs with
  | [] => 0
  | i :: rest =>
      ((if on_behalf c i && existsb e (step_effects s i) then 1 else 0)
       + count_emitting c e (step s i) rest)%nat
  end.

End Counting.

(** ** A concrete installation, used by the examples *)

Module Demo.

Definition ext : Externals :=
  {| mime_extension := fun t =>
       if String.eqb t "application/pdf" then Some "pdf"
       else if String.eqb t "image/jpeg" then Some "jpeg"
       else if String.eqb t "application/octet-stream" then Some "bin"
       else None;
     path_join := fun dir name => (dir ++ "/" ++ name)%string;
     base64_decode := fun data => data;
     write_error := fun _ => None;
     unlink_error := fun _ => None;
     qr_toDataURL := fun qr => Some ("data:image/png;base64," ++ qr)%string;
     DOWNLOADS_DIR := "/userData/downloads" |}.

Definition alice : Contact :=
  {| contact_pushname := Some "Alice"; contact_name := None;
     contact_number := Some "15550001";
     contact_getProfilePicUrl := resolved None |}.

Definition c1_info : ChatInfo :=
  {| chat_serialized := "15550001@c.us"; chat_user := Some "15550001";
     chat_name := Some "Alice"; chat_isGroup := false;
     chat_unreadCount := Some 2; chat_timestamp := Some 300 |}.

Definition message (id : string) (t : Z) (type : string) (body : option string)
    (media : option Media) (fileName mimetype : option string) : Message :=
  {| msg_id := id; msg_timestamp := Some t;
     msg_hasMedia := bool_decide (is_Some media);
     msg_type := Some type; msg_body := body;
     msg_fileName := fileName; msg_mimetype := mimetype; msg_size := None;
     msg_getChat := resolved c1_info; msg_getContact := resolved alice;
     msg_downloadMedia := resolved media; msg_delete := resolved tt |}.

Definition photo : Media :=
  {| media_filename := None; media_mimetype := "image/jpeg"; media_data := "/9j/4AAQ" |}.

Definition pdf : Media :=
  {| media_filename := Some "invoice.pdf"; media_mimetype := "application/pdf";
     media_data := "JVBERi0x" |}.

(** The scenario of the specification: [m1] at 100 without media, [m2] at
    200 an image named [photo.jpg], [m3] at 300 a PDF without a name. *)
Definition m1 : Message := message "false_15550001@c.us_A1" 100 "chat" (Some "hello") None None None.
Definition m2 : Message :=
  message "false_15550001@c.us_A2" 200 "image" None (Some photo) (Some "photo.jpg") (Some "image/jpeg").
Definition m3 : Message :=
  message "false_15550001@c.us_A3" 300 "document" None (Some pdf) None (Some "application/pdf").

Definition c1 : Chat :=
  {| chat_info := c1_info; chat_getContact := resolved alice;
     chat_fetchMessages := fun _ => resolved [m1; m2; m3];
     chat_sendSeen := resolved tt |}.

Definition backend : Backend :=
  {| getChats := resolved [c1];
     getChatById := fun id =>
       if String.eqb id "15550001@c.us" then resolved c1
       else rejected "chat not found";
     client_info := Some {| info_pushname := Some "Shop";
                            info_wid := Some ("15559999", "15559999@c.us") |};
     getProfilePicUrl := fun _ => resolved None |}.

(** The same chat when the backend hands its messages out of order:
    [m3] first. *)
Definition c1_unordered : Chat :=
  {| chat_info := c1_info; chat_getContact := resolved alice;
     chat_fetchMessages := fun _ => resolved [m3; m1; m2];
     chat_sendSeen := resolved tt |}.

Definition backend_unordered : Backend :=
  {| getChats := resolved [c1_unordered];
     getChatById := fun _ => resolved c1_unordered;
     client_info := client_info backend;
     getProfilePicUrl := getProfilePicUrl backend |}.

(** The application right after start-up, and once its client is ready. *)
Definition started : App := boot ∅.
Definition ready : App := @run ext started [ClientEmits 0 EvReady; InitResolved 0].

(** The same installation where one file is held open by a viewer, so
    that [unlinkSync] throws on it. *)
Definition ext_locked : Externals :=
  {| mime_extension := @mime_extension ext;
     path_join := @path_join ext;
     base64_decode := @base64_decode ext;
     write_error := @write_error ext;
     unlink_error := fun p =>
       if String.eqb p "/userData/downloads/a.pdf"
       then Some "EBUSY: resource busy or locked, unlink '/userData/downloads/a.pdf'"
       else None;
     qr_toDataURL := @qr_toDataURL ext;
     DOWNLOADS_DIR := @DOWNLOADS_DIR ext |}.

(** Five downloaded files of which the third is no longer on disk. *)
Definition five_paths : list string :=
  ["/userData/downloads/a.pdf"; "/userData/downloads/b.pdf";
   "/userData/downloads/c.pdf"; "/userData/downloads/d.pdf";
   "/userData/downloads/e.pdf"].

Definition four_files : gmap string string :=
  <["/userData/downloads/a.pdf" := "A"]>
    (<["/userData/downloads/b.pdf" := "B"]>
       (<["/userData/downloads/d.pdf" := "D"]>
          (<["/userData/downloads/e.pdf" := "E"]> ∅))).

Definition ready_with (disk : gmap string string) : App := set_fs disk ready.

(** A chat read long ago, and the status pseudo-chat with an unread
    item. *)
Definition stale_chat : Chat :=
  {| chat_info := {| chat_serialized := "15550002@c.us"; chat_user := Some "15550002";
                     chat_name := Some "Bob"; chat_isGroup := false;
                     chat_unreadCount := Some 0; chat_timestamp := Some 300 |};
     chat_getContact := resolved alice;
     chat_fetchMessages := fun _ => resolved [];
     chat_sendSeen := resolved tt |}.

Definition broadcast_chat : Chat :=
  {| chat_info := {| chat_serialized := "status@broadcast"; chat_user := Some "status";
                     chat_name := None; chat_isGroup := false;
                     chat_unreadCount := Some 1; chat_timestamp := Some 1699999999 |};
     chat_getContact := resolved alice;
     chat_fetchMessages := fun _ => resolved [];
     chat_sendSeen := resolved tt |}.

Definition backend_of (chats : list Chat) : Backend :=
  {| getChats := resolved chats;
     getChatById := getChatById backend;
     client_info := client_info backend;
     getProfilePicUrl := getProfilePicUrl backend |}.

(** A chat with 51 scans, oldest first, of which the backend returns the
    most recent [limit]. *)
Definition scan (i : nat) : Message :=
  message ("false_15550004@c.us_S" ++ pretty i) (Z.of_nat i) "image" None
    (Some photo) (Some "scan.jpg") (Some "image/jpeg").

Definition long_chat : Chat :=
  {| chat_info := {| chat_serialized := "15550004@c.us"; chat_user := Some "15550004";
                     chat_name := Some "Carol"; chat_isGroup := false;
                     chat_unreadCount := Some 0; chat_timestamp := Some 51 |};
     chat_getContact := resolved alice;
     chat_fetchMessages := fun limit => resolved (last_n limit (scan <$> seq 1 51));
     chat_sendSeen := resolved tt |}.

Definition backend_long : Backend :=
  {| getChats := resolved [long_chat];
     getChatById := fun _ => resolved long_chat;
     client_info := client_info backend;
     getProfilePicUrl := getProfilePicUrl backend |}.

(** [Date.now()] on 2023-11-14. *)
Definition now : Z := 1700000000000.

(** An incoming PDF whose chat cannot be looked up. *)
Definition orphan : Message :=
  {| msg_id := "false_15550003@c.us_B1"; msg_timestamp := Some 400;
     msg_hasMedia := true; msg_type := Some "document"; msg_body := None;
     msg_fileName := Some "order.pdf"; msg_mimetype := Some "application/pdf";
     msg_size := Some 8;
     msg_getChat := rejected "Evaluation failed: chat not found";
     msg_getContact := resolved alice;
     msg_downloadMedia := resolved (Some pdf); msg_delete := resolved tt |}.

End Demo.

(** ** Vocabulary of the statements about the handlers *)

(** What a stretch of the trace sent to the window, in order. *)
Definition sent (es : list Effect) : list Ipc :=
  omap (fun e => match e with Send m => Some m | _ => None end) es.



Definition bulk_messageId (r : BulkResult) : string :=
  match r with BulkOk messageId _ | BulkErr messageId _ => messageId end.

Definition bulk_saved (r : BulkResult) : option Downloaded :=
  match r with BulkOk _ d => Some d | BulkErr _ _ => None end.


(** The download of [msg] by [download-all-files] can succeed: the
    payload arrives and the write of its file does not throw. *)
Definition bulk_downloadable `{Externals} (msg : Message) : Prop :=
  exists media,
    outcome (msg_downloadMedia msg) = Ok (Some media)
    /\ write_error (download_path (msg_id msg) (bulk_fileName msg media)) = None.

(** [r] answers for [msg], and for nothing but [msg]. *)
Definition bulk_entry `{Externals} (r : BulkResult) (msg : Message) : Prop :=
  bulk_messageId r = msg_id msg
  /\ (is_Some (bulk_saved r) <-> bulk_downloadable msg)
  /\ forall d, bulk_saved r = Some d ->
       dl_localPath d = download_path (msg_id msg) (dl_fileName d).

(** ** Vocabulary of the statements about the supervisor *)

(** The effects by which the session is managed: notices about the
    session, calls on the client itself, timers and the session's files.
    The others are calls on chats, messages and contacts, and notices
    about downloads and incoming messages. *)
Definition is_lifecycle (e : Effect) : bool :=
  match e with
  | Send (IpcQr _) | Send (IpcStatus _) | Send (IpcLoading _ _) | Send (IpcError _) => true
  | Send _ => false
  | Backend_call (CNew _) | Backend_call (CInitialize _)
  | Backend_call (CDestroy _) | Backend_call (CLogout _) => true
  | Backend_call _ => false
  | SetInitTimer _ _ | ClearInitTimer _ | SetReinitTimer _ | RmAuth
  | CleanupStaleLockFiles => true
  end.

(** A computation that leaves the state as it is but for the disk and
    the trace, and manages no session. *)
Definition operational {A} (m : M A) : Prop :=
  forall s, exists es disk,
    snd (m s) = logged es (set_fs disk s)
    /\ Forall (fun e => is_lifecycle e = false) es.

(** The window is told that the application has given up. *)
Definition is_fatal (e : Effect) : bool :=
  match e with
  | Send (IpcStatus st) => String.eqb st "error"
  | Send (IpcError _) => true
  | _ => false
  end.

(** An effect that neither removes the session nor gives up. *)
Definition calm (e : Effect) : Prop := is_rmAuth e = false /\ is_fatal e = false.

(** ** [cleanupStaleLockFiles]

    The session directory as [fs.readdirSync(dir, { withFileTypes: true })]
    shows it: an entry is a directory with its own entries, or anything
    else (a regular file, a socket, a symbolic link), for which
    [isDirectory()] is false. *)

Module Cleanup.

#[warnings="-register-all"]
Inductive Entry :=
| File (name : string)
| Dir (name : string) (entries : list Entry).

Definition lockNames : list string :=
  ["SingletonLock"; "SingletonCookie"; "SingletonSocket"].

(** [lockNames.includes(name)] *)
Definition is_lock (name : string) : bool := bool_decide (name ∈ lockNames).

Section Walk.
Context `{Externals}.
(** [fs.readdirSync(dir)] throws: the path is not a directory, or it
    cannot be read. *)
Variable readdir_fails : string -> bool.

(** One round of the loop of [walk(dir)]: what is left of [entry]. A
    failed [unlinkSync] is swallowed and leaves the file; a directory
    that cannot be listed is left as it is. *)
Fixpoint visit (dir : string) (entry : Entry) : list Entry :=
  match entry with
  | Dir name entries =>
      let fullPath := path_join dir name in
      [Dir name (if readdir_fails fullPath then entries
                 else flat_map (visit fullPath) entries)]
  | File name =>
      let fullPath := path_join dir name in
      if is_lock name
      then match unlink_error fullPath with
           | Some _ => [File name]
           | None => []
           end
      else [File name]
  end.

(** [walk(dir)] on a directory holding [entries]. *)
Definition walk (dir : string) (entries : list Entry) : list Entry :=
  if readdir_fails dir then entries else flat_map (visit dir) entries.

(** [cleanupStaleLockFiles()], where [auth] is what
    [userData/.wwebjs_auth] holds, if it exists. *)
Definition cleanupStaleLockFiles (userData : string) (auth : option (list Entry))
  : option (list Entry) :=
  let authPath := path_join userData ".wwebjs_auth" in
  match auth with
  | None => None
  | Some entries => Some (walk authPath entries)
  end.

End Walk.

(** Vocabulary: a tree with every file bearing one of the [names] taken
    out, and the paths of the files of a tree that bear one of them. *)
Fixpoint without (names : list string) (entry : Entry) : list Entry :=
  match entry with
  | Dir name entries => [Dir name (flat_map (without names) entries)]
  | File name => if bool_decide (name ∈ names) then [] else [File name]
  end.

Fixpoint files_named `{Externals} (names : list string) (dir : string) (entry : Entry)
  : list string :=
  match entry with
  | Dir name entries => flat_map (files_named names (path_join dir name)) entries
  | File name => if bool_decide (name ∈ names) then [path_join dir name] else []
  end.

(** Induction on trees. *)
Fixpoint Entry_induction (P : Entry -> Prop)
    (HFile : forall name, P (File name))
    (HDir : forall name entries, Forall P entries -> P (Dir name entries))
    (entry : Entry) : P entry :=
  match entry with
  | File name => HFile name
  | Dir name entries =>
      HDir name entries
        ((fix all (l : list Entry) : Forall P l :=
            match l with
            | [] => @List.Forall_nil _ P
            | x :: l' => @List.Forall_cons _ P x l' (Entry_induction P HFile HDir x) (all l')
            end) entries)
  end.

End Cleanup.

(** ** Thumbnails: [generate-thumbnail] and [processThumbQueue]

    The handler answers at once when it can and otherwise queues a job;
    [processThumbQueue] is the only worker. It is suspended while the
    hidden window loads and captures the document, and one callback of
    the event loop runs at a time, so the state changes by two inputs:
    an invocation of the handler, and the worker coming back from its
    awaits. The hidden window is taken to be constructible and the
    thumbnail directory to be creatable. *)

Module Thumbnails.

(** [{ thumbnailPath }] or [{ error }] *)
Inductive ThumbReply :=
| ThumbnailPath (thumbnailPath : string)
| ThumbError (error : string).

(** An element of [thumbQueue]. Its [resolve] settles the promise
    returned to the request numbered [job_request]. *)
Record Job := {
  job_filePath : string;
  job_thumbPath : string;
  job_request : nat;
}.

Record State := {
  thumbBusy : bool;
  thumbQueue : list Job;
  (** the job held by the suspended [processThumbQueue] *)
  rendering : option Job;
  (** the requests answered so far, in the order of the answers *)
  replies : list (nat * ThumbReply);
  (** how many requests have come in *)
  requests : nat;
  (** regular files on disk, by path *)
  disk : gmap string string;
}.

Definition init (files : gmap string string) : State :=
  {| thumbBusy := false; thumbQueue := []; rendering := None;
     replies := []; requests := 0; disk := files |}.

Definition reply (request : nat) (r : ThumbReply) (s : State) : State :=
  {| thumbBusy := thumbBusy s; thumbQueue := thumbQueue s; rendering := rendering s;
     replies := replies s ++ [(request, r)]; requests := requests s;
     disk := disk s |}.

(** A callback of the event loop. *)
Inductive Input :=
(** the window invokes [generate-thumbnail] with [filePath] *)
| Invoke (filePath : option string)
(** the awaits of [processThumbQueue] are over: the captured page as
    PNG, or the message of what was thrown *)
| Rendered (png : Res string).

(** What the handler asks of [path], [fs] and [crypto]. *)
Class Files := {
  (** [path.extname(p).toLowerCase()] *)
  extname_lower : string -> string;
  (** [fs.statSync(p)]: [size], and [mtimeMs] as a template literal
      prints it *)
  stat_size : string -> Z;
  stat_mtimeMs : string -> string;
  (** [crypto.createHash("md5").update(s).digest("hex")] *)
  md5_hex : string -> string;
  (** [getUserDataPath("thumbnails")] *)
  thumbDir : string;
}.

Section Worker.
Context `{Externals} `{Files}.

Definition thumbPath_of (filePath : string) : string :=
  let hash := md5_hex (filePath ++ "_" ++ pretty (stat_size filePath)
                       ++ "_" ++ stat_mtimeMs filePath) in
  path_join thumbDir (hash ++ ".png").

(** [processThumbQueue()], up to its first [await]. *)
Definition processThumbQueue (s : State) : State :=
  if thumbBusy s then s
  else match thumbQueue s with
       | [] => s
       | job :: rest =>
           {| thumbBusy := true; thumbQueue := rest; rendering := Some job;
              replies := replies s; requests := requests s; disk := disk s |}
       end.

Definition push (job : Job) (s : State) : State :=
  {| thumbBusy := thumbBusy s; thumbQueue := thumbQueue s ++ [job];
     rendering := rendering s; replies := replies s; requests := requests s;
     disk := disk s |}.

(** The handler of [generate-thumbnail], for the request numbered
    [request]. *)
Definition generate_thumbnail (request : nat) (filePath : option string) (s : State)
  : State :=
  let present p := bool_decide (is_Some (disk s !! p)) in
  if negb (JS.truthyS filePath) || negb (present (JS.orS filePath ""))
  then reply request (ThumbError "File not found") s
  else
    let filePath := JS.orS filePath "" in
    if negb (String.eqb (extname_lower filePath) ".pdf")
    then reply request (ThumbError "Unsupported file type") s
    else
      let thumbPath := thumbPath_of filePath in
      if present thumbPath then reply request (ThumbnailPath thumbPath) s
      else
        processThumbQueue
          (push {| job_filePath := filePath; job_thumbPath := thumbPath;
                   job_request := request |} s).

(** [processThumbQueue()] from its awaits on: write the thumbnail and
    resolve, or resolve with the error; then release the worker and look
    at the queue again. *)
Definition resume (png : Res string) (s : State) : State :=
  match rendering s with
  | None => s
  | Some job =>
      let answered :=
        match png with
        | Ok data =>
            match write_error (job_thumbPath job) with
            | None =>
                reply (job_request job) (ThumbnailPath (job_thumbPath job))
                  {| thumbBusy := thumbBusy s; thumbQueue := thumbQueue s;
                     rendering := rendering s; replies := replies s;
                     requests := requests s;
                     disk := <[job_thumbPath job := data]> (disk s) |}
            | Some e => reply (job_request job) (ThumbError e) s
            end
        | Err e => reply (job_request job) (ThumbError e) s
        end in
      processThumbQueue
        {| thumbBusy := false; thumbQueue := thumbQueue answered; rendering := None;
           replies := replies answered; requests := requests answered;
           disk := disk answered |}
  end.

Definition step (s : State) (i : Input) : State :=
  match i with
  | Invoke filePath =>
      generate_thumbnail (requests s) filePath
        {| thumbBusy := thumbBusy s; thumbQueue := thumbQueue s;
           rendering := rendering s; replies := replies s;
           requests := S (requests s); disk := disk s |}
  | Rendered png => resume png s
  end.

Definition run (s : State) (inputs : list Input) : State := foldl step s inputs.

(** A job as the handler makes them: for a PDF that is on disk, with the
    thumbnail path of that file. *)
Definition job_ok (files : gmap string string) (job : Job) : Prop :=
  JS.truthyS (Some (job_filePath job)) = true
  /\ is_Some (files !! job_filePath job)
  /\ extname_lower (job_filePath job) = ".pdf"
  /\ job_thumbPath job = thumbPath_of (job_filePath job).

(** The jobs waiting for the worker, oldest first: the one being
    rendered, then the queue; their requests; and the requests answered
    so far. *)
Definition waiting (s : State) : list Job :=
  option_list (rendering s) ++ thumbQueue s.

Definition pending (s : State) : list nat := job_request <$> waiting s.

Definition answered (s : State) : list nat := fst <$> replies s.

(** What holds of every state of the worker: it is busy exactly while
    it holds a job; the queue is empty while it is idle; every request
    is answered or waiting, not both and not twice; the jobs wait in the
    order of their requests; and they are jobs as the handler makes
    them. *)
Definition orderly (s : State) : Prop :=
  (thumbBusy s = true <-> is_Some (rendering s))
  /\ (thumbBusy s = false -> thumbQueue s = [])
  /\ answered s ++ pending s ≡ₚ seq 0 (requests s)
  /\ StronglySorted lt (pending s)
  /\ Forall (job_ok (disk s)) (waiting s).

End Worker.

End Thumbnails.

(** ** Text as the handlers of printing read and write it

    Characters are code units below 256. *)

Module Text.

(** The double quote. *)
Definition dquote : string := String "034"%char EmptyString.

(** White space and line terminators, as [String.prototype.trim] sees
    them: tab, line feed, vertical tab, form feed, carriage return,
    space and no-break space. *)
Definition is_space (c : Ascii.ascii) : bool :=
  let n := Ascii.nat_of_ascii c in
  ((9 <=? n) && (n <=? 13) || (n =? 32) || (n =? 160))%nat.

Fixpoint trim_start (s : string) : string :=
  match s with
  | EmptyString => EmptyString
  | String c s' => if is_space c then trim_start s' else s
  end.

Fixpoint trim_end (s : string) : string :=
  match s with
  | EmptyString => EmptyString
  | String c s' =>
      let t := trim_end s' in
      if is_space c && String.eqb t "" then EmptyString else String c t
  end.

(** [s.trim()] *)
Definition trim (s : string) : string := trim_end (trim_start s).

(** [s.split("\n")] *)
Fixpoint split_lines (s : string) : list string :=
  match s with
  | EmptyString => [EmptyString]
  | String c s' =>
      if Ascii.eqb c "010"%char then EmptyString :: split_lines s'
      else match split_lines s' with
           | line :: lines => String c line :: lines
           | [] => [String c EmptyString]
           end
  end.

(** [s.replace(/c/g, by)] for a single character [c]. *)
Fixpoint replace_all (c : Ascii.ascii) (by_ : string) (s : string) : string :=
  match s with
  | EmptyString => EmptyString
  | String x s' =>
      if Ascii.eqb x c then (by_ ++ replace_all c by_ s')%string
      else String x (replace_all c by_ s')
  end.

(** Vocabulary: no line feed inside; a line ending of Windows; a name
    as a listing prints it, with nothing to trim. *)
Fixpoint one_line (s : string) : bool :=
  match s with
  | EmptyString => true
  | String c s' => negb (Ascii.eqb c "010"%char) && one_line s'
  end.

Definition crlf : string := String "013"%char (String "010"%char EmptyString).

Definition clean (name : string) : Prop :=
  name <> EmptyString /\ trim name = name /\ one_line name = true.

(** One name per line, each line ended as Windows ends them. *)
Fixpoint listing (names : list string) : string :=
  match names with
  | [] => EmptyString
  | name :: rest => (name ++ crlf ++ listing rest)%string
  end.

End Text.

(** ** Printing: [print-with-setup] and [get-printers] *)

Module Printing.

(** An entry of [results]: [{ filePath, success: true, method }] or
    [{ filePath, error }]. *)
Inductive PrintResult :=
| Printed (filePath method : string)
| NotPrinted (filePath error : string).

Definition result_filePath (r : PrintResult) : string :=
  match r with Printed p _ | NotPrinted p _ => p end.

(** What the handlers do to the outside, in order. *)
Inductive Action :=
| Exec (cmd : string)
| PtpPrint (filePath printer : string)
| OpenPath (filePath : string).

(** What the handlers ask of [child_process], [pdf-to-printer] and
    [path]. *)
Class Shell := {
  (** [exec(cmd, callback)]: [stdout], or the error's message *)
  exec : string -> Res string;
  (** [ptp.print(filePath, { printer })] rejects with this message;
      a failure of [require("pdf-to-printer")] counts as one *)
  ptp_print : string -> string -> option string;
  (** [path.extname(p).toLowerCase()] *)
  extname_lower : string -> string;
}.

Definition imageExts : list string :=
  [".jpg"; ".jpeg"; ".png"; ".bmp"; ".gif"; ".tiff"; ".tif"; ".webp"].

Section Handlers.
Context `{Shell}.

Definition detect_default_printer : string :=
  ("powershell -Command " ++ Text.dquote
   ++ "(Get-CimInstance Win32_Printer | Where-Object Default -eq $true).Name"
   ++ Text.dquote)%string.

(** [`printui /e /n "${targetPrinter.replace(/"/g, '\\"')}"  `] *)
Definition preferences_cmd (targetPrinter : string) : string :=
  ("printui /e /n " ++ Text.dquote
   ++ Text.replace_all "034"%char (String "092"%char Text.dquote) targetPrinter
   ++ Text.dquote ++ "  ")%string.

(** The command that prints an image through Paint. *)
Definition mspaint_cmd (filePath targetPrinter : string) : string :=
  let escapedPath := Text.replace_all "'"%char "''" filePath in
  let escapedPrinter := Text.replace_all "'"%char "''" targetPrinter in
  ("powershell -Command " ++ Text.dquote
   ++ "Start-Process mspaint.exe -ArgumentList '/pt','" ++ escapedPath ++ "','"
   ++ escapedPrinter ++ "' -Wait" ++ Text.dquote)%string.

(** One round of the loop over [filePaths]: the entry pushed and what
    was done. *)
Definition print_one (files : gmap string string) (targetPrinter filePath : string)
  : PrintResult * list Action :=
  if negb (bool_decide (is_Some (files !! filePath)))
  then (NotPrinted filePath "File not found", [])
  else
    let ext := extname_lower filePath in
    if String.eqb ext ".pdf" then
      match ptp_print filePath targetPrinter with
      | None => (Printed filePath "pdf-to-printer", [PtpPrint filePath targetPrinter])
      | Some e => (NotPrinted filePath e, [PtpPrint filePath targetPrinter])
      end
    else if bool_decide (ext ∈ imageExts) then
      let cmd := mspaint_cmd filePath targetPrinter in
      match exec cmd with
      | Ok _ => (Printed filePath "mspaint-print", [Exec cmd])
      | Err e => (NotPrinted filePath e, [Exec cmd])
      end
    else (Printed filePath "default-app", [OpenPath filePath]).

Fixpoint print_each (files : gmap string string) (targetPrinter : string)
    (filePaths : list string) : list PrintResult * list Action :=
  match filePaths with
  | [] => ([], [])
  | filePath :: rest =>
      let '(r, done) := print_one files targetPrinter filePath in
      let '(rs, done') := print_each files targetPrinter rest in
      (r :: rs, done ++ done')
  end.

(** The handler of [print-with-setup]: the reply and what was done. *)
Definition print_with_setup (files : gmap string string) (filePaths : list string)
    (printerName : option string) : Reply (list PrintResult) * list Action :=
  let printing (targetPrinter : string) (before : list Action) :=
    if String.eqb targetPrinter "" then (RError "No printer available", before)
    else
      let '(results, done) := print_each files targetPrinter filePaths in
      (RValue results, before ++ [Exec (preferences_cmd targetPrinter)] ++ done) in
  if JS.truthyS printerName then printing (JS.orS printerName "") []
  else
    match exec detect_default_printer with
    | Err _ =>
        (RError "No printer selected and could not detect default printer",
         [Exec detect_default_printer])
    | Ok stdout => printing (Text.trim stdout) [Exec detect_default_printer]
    end.

Definition list_printers : string :=
  ("powershell -Command " ++ Text.dquote
   ++ "Get-CimInstance Win32_Printer | Select-Object -ExpandProperty Name"
   ++ Text.dquote)%string.

(** [stdout.split("\n").map((s) => s.trim()).filter(Boolean)] *)
Definition printer_names (stdout : string) : list string :=
  filter (fun name => name <> "") (Text.trim <$> Text.split_lines stdout).

(** The handler of [get-printers]: [{ printers }] with one [{ name }]
    per printer, or [{ error, printers: [] }]. *)
Definition get_printers : Reply (list string) :=
  match exec list_printers with
  | Ok stdout => RValue (printer_names stdout)
  | Err e => RError e
  end.

(** Vocabulary: [a] is how [filePath] is handed to [targetPrinter], by
    one of the three routes; and what an entry of [results] may say of
    a file given the disk. *)
Definition hands_over (targetPrinter : string) (a : Action) (filePath : string) : Prop :=
  a = PtpPrint filePath targetPrinter
  \/ a = Exec (mspaint_cmd filePath targetPrinter)
  \/ a = OpenPath filePath.

Definition truthful (files : gmap string string) (r : PrintResult) : Prop :=
  match r with
  | Printed filePath _ => is_Some (files !! filePath)
  | NotPrinted filePath error =>
      files !! filePath = None -> error = "File not found"
  end.

End Handlers.

End Printing.

(** ** The window: helpers of [renderer.js] and [deleteSelected] *)

Module Renderer.

(** The four passes of [replace] in [escapeHtml], [&] first. *)
Definition four_passes (s : string) : string :=
  Text.replace_all "034"%char "&quot;"
    (Text.replace_all ">"%char "&gt;"
       (Text.replace_all "<"%char "&lt;"
          (Text.replace_all "&"%char "&amp;" s))).

(** [escapeHtml(str)] *)
Definition escapeHtml (str : option string) : string :=
  if negb (JS.truthyS str) then EmptyString
  else four_passes (JS.orS str "").

(** Vocabulary: what stands for a character in HTML, and a string with
    every character replaced by what stands for it. *)
Definition entity (c : Ascii.ascii) : string :=
  if Ascii.eqb c "&"%char then "&amp;"
  else if Ascii.eqb c "<"%char then "&lt;"
  else if Ascii.eqb c ">"%char then "&gt;"
  else if Ascii.eqb c "034"%char then "&quot;"
  else String c EmptyString.

Fixpoint in_one_pass (s : string) : string :=
  match s with
  | EmptyString => EmptyString
  | String c s' => (entity c ++ in_one_pass s')%string
  end.

(** [s.includes(c)] for a single character. *)
Fixpoint includes (c : Ascii.ascii) (s : string) : bool :=
  match s with
  | EmptyString => false
  | String x s' => Ascii.eqb x c || includes c s'
  end.

Definition is_digit (c : Ascii.ascii) : bool :=
  let n := Ascii.nat_of_ascii c in ((48 <=? n) && (n <=? 57))%nat.

(** [s.replace(/\D/g, "")] *)
Fixpoint digits_of (s : string) : string :=
  match s with
  | EmptyString => EmptyString
  | String c s' => if is_digit c then String c (digits_of s') else digits_of s'
  end.

(** [formatPhoneNumber(number)] *)
Definition formatPhoneNumber (number : option string) : string :=
  if negb (JS.truthyS number) then EmptyString
  else
    let number := JS.orS number "" in
    if includes "@"%char number || includes "-"%char number then number
    else
      let digits := digits_of number in
      if (0 <? String.length digits)%nat then String "+"%char digits
      else number.

(** The globals of the window that [deleteSelected] reads and writes.
    [selectedFiles] is a [Set]: it iterates in insertion order and holds
    no id twice. *)
Record View := {
  currentChatId : option string;
  currentFiles : list MediaInfo;
  selectedFiles : list string;
}.

(** The loop over [selectedFiles] that fills [filePaths] and [msgIds]:
    the pair pushed for [msgId], if any. *)
Definition target (files : list MediaInfo) (msgId : string) : option (string * string) :=
  match JS.find (fun f => String.eqb (mi_messageId f) msgId) files with
  | Some file =>
      if JS.truthyS (mi_localPath file)
      then Some (JS.orS (mi_localPath file) "", msgId)
      else None
  | None => None
  end.

(** [currentFiles.splice(currentFiles.findIndex(p), 1)] when the index
    is not -1. *)
Fixpoint remove_first {A} (p : A -> bool) (l : list A) : list A :=
  match l with
  | [] => []
  | x :: l' => if p x then l' else x :: remove_first p l'
  end.

Definition at_path (filePath : string) (f : MediaInfo) : bool :=
  bool_decide (mi_localPath f = Some filePath).

(** One round of [result.results.forEach((r, i) => ...)]. *)
Definition settle (msgIds : list string) (v : View) (i : nat) (r : LocalResult) : View :=
  match r with
  | LocalOk filePath =>
      {| currentChatId := currentChatId v;
         currentFiles := remove_first (at_path filePath) (currentFiles v);
         selectedFiles :=
           match msgIds !! i with
           | Some msgId => filter (fun m => m <> msgId) (selectedFiles v)
           | None => selectedFiles v
           end |}
  | LocalErr _ _ => v
  end.

Fixpoint settle_all (msgIds : list string) (i : nat) (results : list LocalResult)
    (v : View) : View :=
  match results with
  | [] => v
  | r :: rest => settle_all msgIds (S i) rest (settle msgIds v i r)
  end.

(** [deleteSelected()], with the main process answering
    [window.api.deleteFiles], for what it does to the view and to the
    disk; nothing else touches the view while the call is in flight. *)
Definition deleteSelected `{Externals} (B : Backend) (v : View) : M View :=
  match selectedFiles v with
  | [] => ret v
  | _ =>
      let targets := omap (target (currentFiles v)) (selectedFiles v) in
      let filePaths := fst <$> targets in
      let msgIds := snd <$> targets in
      match filePaths with
      | [] => ret v
      | _ =>
          bind (delete_files B filePaths (Some msgIds) (currentChatId v))
            (fun result => ret (settle_all msgIds 0 (fst result) v))
      end
  end.

(** Vocabulary: [unlinkSync] would remove the file at [filePath]; and
    the listed file [f] is selected, has a local path, and the file at
    that path can be removed. *)
Definition removable `{Externals} (s : App) (filePath : string) : bool :=
  bool_decide (is_Some (fs s !! filePath))
  && bool_decide (unlink_error filePath = None).

(** The entry of [results] for [filePath] on the disk of [s]. *)
Definition local_outcome `{Externals} (s : App) (filePath : string) : LocalResult :=
  if bool_decide (is_Some (fs s !! filePath))
  then match unlink_error filePath with
       | None => LocalOk filePath
       | Some e => LocalErr filePath e
       end
  else LocalErr filePath "File not found on disk".

(** One round of the loop over [results], for the pair pushed for a
    selected file. *)
Definition forget `{Externals} (s : App) (v : View) (t : string * string) : View :=
  if removable s t.1
  then {| currentChatId := currentChatId v;
          currentFiles := remove_first (at_path t.1) (currentFiles v);
          selectedFiles := filter (fun m => m <> t.2) (selectedFiles v) |}
  else v.

Definition deleted_for `{Externals} (s : App) (v : View) (f : MediaInfo) : bool :=
  bool_decide (mi_messageId f ∈ selectedFiles v)
  && JS.truthyS (mi_localPath f)
  && removable s (JS.orS (mi_localPath f) "").

End Renderer.

(** ** An installation to run the handlers on *)

Module Cases.
Import Demo.

(** The chat list takes 31 s. *)
Definition backend_slow : Backend :=
  {| getChats := {| settles_after := 31000; outcome := Ok [c1] |};
     getChatById := getChatById backend;
     client_info := client_info backend;
     getProfilePicUrl := getProfilePicUrl backend |}.


(** A session directory with a lock file at each depth. *)
Definition session : list Cleanup.Entry :=
  [Cleanup.File "SingletonLock";
   Cleanup.Dir "session"
     [Cleanup.File "SingletonCookie"; Cleanup.File "DevToolsActivePort";
      Cleanup.Dir "Default" [Cleanup.File "SingletonSocket"; Cleanup.File "Preferences"]]].

Definition all_listable : string -> bool := fun _ => false.

(** The extension of a path whose extension has three letters. *)
Definition extname (p : string) : string :=
  let n := String.length p in
  if (4 <=? n)%nat then String.substring (n - 4) 4 p else "".

(** Files of 8 bytes; the digest is stood for by the text it is taken
    of, with its separators replaced. *)
Definition thumbs : Thumbnails.Files :=
  {| Thumbnails.extname_lower := extname;
     Thumbnails.stat_size := fun _ => 8;
     Thumbnails.stat_mtimeMs := fun _ => "1700000000000";
     Thumbnails.md5_hex := JS.replace_non_alnum;
     Thumbnails.thumbDir := "/userData/thumbnails" |}.

Definition first_job : Thumbnails.Job :=
  {| Thumbnails.job_filePath := "/userData/downloads/a.pdf";
     Thumbnails.job_thumbPath :=
       @Thumbnails.thumbPath_of ext thumbs "/userData/downloads/a.pdf";
     Thumbnails.job_request := 0 |}.

(** A machine whose default printer is the first of two, and one where
    PowerShell cannot be started. *)
Definition shell : Printing.Shell :=
  {| Printing.exec := fun cmd =>
       if String.eqb cmd Printing.detect_default_printer
       then Ok ("HP LaserJet" ++ Text.crlf)%string
       else if String.eqb cmd Printing.list_printers
       then Ok (Text.listing ["HP LaserJet"; "Canon"])
       else Ok "";
     Printing.ptp_print := fun _ _ => None;
     Printing.extname_lower := extname |}.

Definition shell_without_powershell : Printing.Shell :=
  {| Printing.exec := fun _ => Err "Command failed: powershell";
     Printing.ptp_print := fun _ _ => None;
     Printing.extname_lower := extname |}.

Definition with_photo : gmap string string :=
  <["/userData/downloads/photo.jpg" := "J"]> four_files.

(** The window on the chat of Alice: four files listed, of which the
    third is not downloaded and the fourth is no longer on disk; three
    of them selected. *)
Definition listed (messageId : string) (localPath : option string) : MediaInfo :=
  {| mi_messageId := messageId; mi_chatId := "15550001@c.us"; mi_sender := "Alice";
     mi_timestamp := Some 300; mi_type := Some "document"; mi_caption := "";
     mi_fileName := "invoice.pdf"; mi_mimeType := Some "application/pdf";
     mi_fileSize := Some 8; mi_isDownloaded := bool_decide (is_Some localPath);
     mi_localPath := localPath; mi_isUnread := false |}.

Definition view : Renderer.View :=
  {| Renderer.currentChatId := Some "15550001@c.us";
     Renderer.currentFiles :=
       [listed "false_15550001@c.us_A1" (Some "/userData/downloads/a.pdf");
        listed "false_15550001@c.us_A2" (Some "/userData/downloads/b.pdf");
        listed "false_15550001@c.us_A3" None;
        listed "false_15550001@c.us_A4" (Some "/userData/downloads/c.pdf")];
     Renderer.selectedFiles :=
       ["false_15550001@c.us_A2"; "false_15550001@c.us_A1"; "false_15550001@c.us_A4"] |}.

End Cases.

(** * Theorems *)

(** ** [Array.prototype.sort] with a comparator that subtracts keys *)

Section SortByKey.
(** The comparator is [(a, b) => key(a) - key(b)]; a descending sort
    takes the negated key. *)
Context {A : Type} (cmp : A -> A -> Z) (key : A -> Z).
Hypothesis cmp_key : forall x y, cmp x y = key x - key y.

Lemma sort_insert_perm x l : JS.sort_insert cmp x l ≡ₚ x :: l.
Proof.
  induction l as [|y l IH]; simpl; [done|].
  destruct (cmp x y <=? 0); [done|].
  rewrite IH. apply perm_swap.
Qed.

Lemma sort_perm l : JS.sort cmp l ≡ₚ l.
Proof.
  induction l as [|x l IH]; simpl; [done|].
  rewrite sort_insert_perm. by f_equiv.
Qed.

Lemma sort_length l : length (JS.sort cmp l) = length l.
Proof. by rewrite sort_perm. Qed.

Lemma sort_insert_sorted x l :
  StronglySorted (key_le key) l -> StronglySorted (key_le key) (JS.sort_insert cmp x l).
Proof.
  induction 1 as [|y l Hs IH Hall]; simpl.
  - repeat constructor.
  - destruct (Z.leb_spec (cmp x y) 0) as [Hle|Hgt];
      [rewrite cmp_key in Hle | rewrite cmp_key in Hgt].
    + constructor; [by constructor|].
      constructor; [unfold key_le; lia|].
      eapply Forall_impl; [exact Hall|]. unfold key_le. intros; lia.
    + constructor; [exact IH|].
      rewrite sort_insert_perm. constructor; [unfold key_le; lia | exact Hall].
Qed.

Lemma sort_sorted l : StronglySorted (key_le key) (JS.sort cmp l).
Proof.
  induction l as [|x l IH]; simpl; [constructor|].
  by apply sort_insert_sorted.
Qed.

(** Stability: elements with the same key keep their order. *)
Lemma sort_insert_stable x l k :
  StronglySorted (key_le key) l ->
  filter (fun y => key y = k) (JS.sort_insert cmp x l)
  = filter (fun y => key y = k) (x :: l).
Proof using cmp_key.
  induction 1 as [|y l Hs IH Hall]; simpl; [done|].
  destruct (Z.leb_spec (cmp x y) 0) as [Hle|Hgt]; [done|].
  rewrite cmp_key in Hgt.
  rewrite filter_cons. rewrite IH. rewrite !filter_cons.
  destruct (decide (key y = k)) as [Hy|Hy]; [|done].
  destruct (decide (key x = k)) as [Hx|Hx]; [lia|done].
Qed.

Lemma sort_stable l k :
  filter (fun y => key y = k) (JS.sort cmp l) = filter (fun y => key y = k) l.
Proof.
  induction l as [|x l IH]; simpl; [done|].
  rewrite sort_insert_stable by apply sort_sorted.
  rewrite !filter_cons. by rewrite IH.
Qed.

(** Sorting what is already in order changes nothing. *)
Lemma sort_sorted_id l : StronglySorted (key_le key) l -> JS.sort cmp l = l.
Proof.
  induction 1 as [|x l Hs IH Hall]; simpl; [done|].
  rewrite IH. destruct l as [|y l]; [done|]. simpl.
  apply Forall_cons in Hall as [Hxy _]. unfold key_le in Hxy.
  rewrite cmp_key. by rewrite (proj2 (Z.leb_le _ _)) by lia.
Qed.

End SortByKey.

(** ** The trace only grows *)

Lemma logged_nil s : logged [] s = s.
Proof. destruct s; unfold logged; simpl. by rewrite app_nil_r. Qed.

Lemma logged_logged es es' s : logged es' (logged es s) = logged (es ++ es') s.
Proof. unfold logged; simpl. by rewrite app_assoc. Qed.

Lemma last_n_all {A} (n : nat) (l : list A) :
  (length l <= n)%nat -> last_n n l = l.
Proof. intros Hn. unfold last_n. by replace (length l - n)%nat with 0%nat by lia. Qed.

Lemma last_n_0 {A} (l : list A) : last_n 0 l = [].
Proof. unfold last_n. rewrite Nat.sub_0_r. apply drop_all. Qed.

(** ** The chat/file indexer: [get-chat-files] *)

Section Indexer.
Context `{Externals}.

Lemma by_timestamp_asc_key x y : by_timestamp_asc x y = ts x - ts y.
Proof. done. Qed.

Lemma sortedMsgs_perm messages : sortedMsgs messages ≡ₚ messages.
Proof. apply sort_perm. Qed.

Lemma sortedMsgs_length messages : length (sortedMsgs messages) = length messages.
Proof. by rewrite sortedMsgs_perm. Qed.

(** [sortedMsgs.slice(-unreadCount)] under the guard [unreadCount > 0] is
    the last [min(unreadCount, m)] messages of the ascending order. *)
Lemma unreadMsgIds_last (k : Z) (messages : list Message) :
  unreadMsgIds k messages
  = list_to_set (msg_id <$>
      last_n (Z.to_nat (Z.min k (Z.of_nat (length messages)))) (sortedMsgs messages)).
Proof.
  unfold unreadMsgIds, JS.slice_from, last_n.
  rewrite sortedMsgs_length.
  destruct (Z.ltb_spec 0 k) as [Hk|Hk].
  - replace (- k <? 0) with true by (symmetry; apply Z.ltb_lt; lia).
    do 3 f_equal. lia.
  - replace (length messages - Z.to_nat (Z.min k (Z.of_nat (length messages))))%nat
      with (length (sortedMsgs messages)) by (rewrite sortedMsgs_length; lia).
    by rewrite drop_all.
Qed.

(** A round of the loop reads the disk and asks for the sender; it
    neither throws nor changes anything but the trace. *)
Lemma chat_file_run chatId unread msg s :
  exists sender es,
    chat_file chatId unread msg s
    = (Ok (if msg_hasMedia msg
           then Some (mediaInfo_of chatId unread msg sender
                        (bool_decide (is_Some (fs s !!
                           download_path (msg_id msg) (fileName_of msg)))))
           else None),
       logged es s).
Proof.
  unfold chat_file. destruct (msg_hasMedia msg); simpl.
  - unfold bind, try_catch, await, existsSync, gets, ret, emit.
    destruct (outcome (msg_getContact msg)) as [c|e]; simpl;
      eexists _, _; reflexivity.
  - exists "", []. by rewrite logged_nil.
Qed.

Lemma for_each_chat_file chatId unread messages s :
  exists files es,
    for_each (chat_file chatId unread) messages s = (Ok files, logged es s)
    /\ Forall2 (file_of chatId unread (fs s)) files (filter (fun m => msg_hasMedia m = true) messages).
Proof.
  revert s. induction messages as [|msg messages IH]; intros s; simpl.
  - exists [], []. rewrite logged_nil. split; [done|constructor].
  - destruct (chat_file_run chatId unread msg s) as (sender & es & Hrun).
    destruct (IH (logged es s)) as (files & es' & Hrest & Hall).
    unfold bind at 1. rewrite Hrun. unfold bind at 1. rewrite Hrest.
    rewrite logged_logged. unfold ret.
    rewrite filter_cons.
    destruct (msg_hasMedia msg) eqn:Hmedia.
    + rewrite decide_True by done.
      eexists _, _. split; [reflexivity|].
      constructor; [by exists sender | exact Hall].
    + rewrite decide_False by done.
      eexists _, _. split; [reflexivity| exact Hall].
Qed.

Lemma files_newest_first_key x y :
  files_newest_first x y = (- JS.orZ (mi_timestamp x) 0) - (- JS.orZ (mi_timestamp y) 0).
Proof. unfold files_newest_first. lia. Qed.

Lemma get_chat_files_not_ready B chatId s :
  isClientReady s = false ->
  get_chat_files B chatId s = (Ok (RError "WhatsApp not ready"), s).
Proof. intros Hr. unfold get_chat_files, bind, gets. by rewrite Hr. Qed.

(** A listing that reaches the loop: the reply holds the entries of the
    media messages, newest first, and only the trace has grown. *)
Lemma get_chat_files_run B chatId s chat messages :
  isClientReady s = true ->
  outcome (getChatById B chatId) = Ok chat ->
  outcome (chat_fetchMessages chat 50) = Ok messages ->
  let k := JS.orZ (chat_unreadCount (chat_info chat)) 0 in
  exists files es,
    get_chat_files B chatId s
    = (Ok (RValue (JS.sort files_newest_first files, k)), logged es s)
    /\ Forall2 (file_of chatId (unreadMsgIds k messages) (fs s)) files
         (filter (fun m => msg_hasMedia m = true) messages).
Proof.
  intros Hready Hchat Hfetch k.
  destruct (for_each_chat_file chatId (unreadMsgIds k messages) messages
              (logged [Backend_call (CGetChatById chatId);
                       Backend_call (CFetchMessages chatId 50)] s))
    as (files & es & Hloop & Hall).
  exists files, ([Backend_call (CGetChatById chatId);
                  Backend_call (CFetchMessages chatId 50)] ++ es).
  split; [|exact Hall].
  unfold get_chat_files, bind, gets, try_catch, await, ret, emit.
  rewrite Hready; simpl. rewrite Hchat, Hfetch. rewrite logged_logged; simpl.
  fold k. unfold bind, ret in Hloop. rewrite Hloop.
  by rewrite logged_logged.
Qed.

(** The key of the comparator is the timestamp, 0 standing for a missing
    one. *)
Lemma ts_timestamp (msg : Message) : ts msg = default 0 (msg_timestamp msg).
Proof.
  unfold ts. destruct (msg_timestamp msg) as [t|]; [|done]. simpl.
  destruct (Z.eqb_spec t 0) as [->|]; done.
Qed.

Lemma StronglySorted_weaken {A} (R R' : A -> A -> Prop) (l : list A) :
  (forall a b, R a b -> R' a b) -> StronglySorted R l -> StronglySorted R' l.
Proof.
  intros Himpl. induction 1 as [|x l _ IH Hall]; constructor; [done|].
  eapply Forall_impl; [exact Hall|]. intros y. apply Himpl.
Qed.

(** C2: with [k] the chat's unread counter and [m] retrieved messages,
    [get-chat-files] sorts the messages ascending by [msg.timestamp], a
    missing timestamp counting as 0, with a stable sort (the sorted list
    is a permutation of the messages, every message comes before those
    of a later or equal timestamp, and the messages of one timestamp
    keep their retrieval order) and classifies as unread exactly the
    last [min(k, m)] messages of that order: the set [unreadMsgIds] is
    the set of their ids and every file of the reply carries the flag of
    its message; with [k = 0] nothing is unread, with [k >= m] every
    retrieved message is, and when the ids are pairwise distinct a file
    is flagged exactly when its message is one of the last
    [min(k, m)]. *)
Theorem C2_unread_is_last_min_k_m
    (B : Backend) (chatId : string) (s : App) (chat : Chat) (messages : list Message) :
  isClientReady s = true ->
  outcome (getChatById B chatId) = Ok chat ->
  outcome (chat_fetchMessages chat 50) = Ok messages ->
  let k := JS.orZ (chat_unreadCount (chat_info chat)) 0 in
  let m := Z.of_nat (length messages) in
  let sorted := sortedMsgs messages in
  let unread := last_n (Z.to_nat (Z.min k m)) sorted in
  (sorted ≡ₚ messages
   /\ StronglySorted
        (fun a b => default 0 (msg_timestamp a) <= default 0 (msg_timestamp b)) sorted
   /\ forall t, filter (fun x => default 0 (msg_timestamp x) = t) sorted
                = filter (fun x => default 0 (msg_timestamp x) = t) messages)
  /\ unreadMsgIds k messages = list_to_set (msg_id <$> unread)
  /\ (k = 0 -> unread = [])
  /\ (m <= k -> unread = sorted)
  /\ exists files s',
       get_chat_files B chatId s = (Ok (RValue (files, k)), s')
       /\ (forall msg, msg ∈ messages -> msg_hasMedia msg = true ->
             exists f, f ∈ files /\ mi_messageId f = msg_id msg)
       /\ (forall f, f ∈ files ->
             mi_isUnread f = bool_decide (mi_messageId f ∈ msg_id <$> unread))
       /\ (NoDup (msg_id <$> messages) ->
           forall f msg, f ∈ files -> msg ∈ messages -> mi_messageId f = msg_id msg ->
             (mi_isUnread f = true <-> msg ∈ unread)).
Proof.
  intros Hready Hchat Hfetch k m sorted unread.
  assert (Hids : unreadMsgIds k messages = list_to_set (msg_id <$> unread))
    by apply unreadMsgIds_last.
  split; [|split; [exact Hids|split; [|split]]].
  - split; [apply sortedMsgs_perm|]. split.
    + eapply StronglySorted_weaken;
        [|apply (sort_sorted by_timestamp_asc ts by_timestamp_asc_key)].
      intros a b. unfold key_le. by rewrite !ts_timestamp.
    + intros t.
      rewrite !(list_filter_iff (fun x => default 0 (msg_timestamp x) = t)
                  (fun x => ts x = t))
        by (intros x; by rewrite ts_timestamp).
      apply (sort_stable by_timestamp_asc ts by_timestamp_asc_key).
  - intros Hk. subst unread. rewrite Hk.
    replace (Z.to_nat (Z.min 0 m)) with 0%nat by lia. apply last_n_0.
  - intros Hk. subst unread. apply last_n_all.
    subst sorted. rewrite sortedMsgs_length. lia.
  - destruct (get_chat_files_run B chatId s chat messages Hready Hchat Hfetch)
      as (files & es & Hrun & Hall). fold k in Hrun, Hall.
    exists (JS.sort files_newest_first files), (logged es s).
    split; [exact Hrun|].
    assert (Hperm : JS.sort files_newest_first files ≡ₚ files) by apply sort_perm.
    assert (Hflag : forall f, f ∈ files ->
              mi_isUnread f = bool_decide (mi_messageId f ∈ msg_id <$> unread)).
    { intros f Hf.
      destruct (proj1 (list_elem_of_lookup _ _) Hf) as [i Hi].
      destruct (Forall2_lookup_l _ _ _ _ _ Hall Hi) as (msg & _ & [sender ->]).
      simpl. rewrite Hids. apply bool_decide_ext. by rewrite elem_of_list_to_set. }
    split; [|split].
    + intros msg Hmsg Hmedia.
      assert (Hin : msg ∈ filter (fun m0 => msg_hasMedia m0 = true) messages)
        by (apply list_elem_of_filter; done).
      destruct (proj1 (list_elem_of_lookup _ _) Hin) as [i Hi].
      destruct (Forall2_lookup_r _ _ _ _ _ Hall Hi) as (f & Hf & [sender Heq]).
      exists f. split; [|by rewrite Heq].
      rewrite Hperm. by eapply list_elem_of_lookup_2.
    + intros f Hf. apply Hflag. by rewrite <- Hperm.
    + intros Hnodup f msg Hf Hmsg Hid.
      rewrite Hperm in Hf. rewrite (Hflag f Hf), bool_decide_eq_true, Hid.
      split.
      * intros Hin. apply list_elem_of_fmap in Hin as (msg' & Heq & Hin').
        assert (msg' ∈ messages).
        { rewrite <- (sortedMsgs_perm messages). subst unread. unfold last_n in Hin'.
          by eapply subseteq_drop. }
        assert (msg = msg'); [|by subst].
        clear -Hnodup Hmsg H0 Heq.
        induction messages as [|x l IH]; [by apply elem_of_nil in Hmsg|].
        rewrite fmap_cons in Hnodup. apply NoDup_cons in Hnodup as [Hx Hl].
        apply elem_of_cons in Hmsg as [->|Hmsg]; apply elem_of_cons in H0 as [->|H0];
          try done.
        -- exfalso. apply Hx. rewrite Heq. by apply list_elem_of_fmap_2.
        -- exfalso. apply Hx. rewrite <- Heq. by apply list_elem_of_fmap_2.
        -- by apply IH.
      * intros Hin. by apply list_elem_of_fmap_2.
Qed.

End Indexer.

(** ** The readiness gate *)

Section Gate.
Context `{Externals}.

(** C5: while [isClientReady] is false, each chat/message operation
    resolves to [{ error: "WhatsApp not ready" }] and leaves the state as
    it found it: no call reaches the backend, nothing is sent to the
    window, nothing is written. *)
Theorem C5_not_ready_fails_fast
    (B : Backend) (s : App) (now : Z) (chatId messageId : string)
    (fileName : option string) (limit : option Z) :
  isClientReady s = false ->
  get_unread_chats B s = (Ok (RError "WhatsApp not ready"), s)
  /\ get_all_chats B limit s = (Ok (RError "WhatsApp not ready"), s)
  /\ get_chat_files B chatId s = (Ok (RError "WhatsApp not ready"), s)
  /\ download_file B now messageId chatId fileName s
     = (Ok (RError "WhatsApp not ready"), s)
  /\ download_all_files B chatId s = (Ok (RError "WhatsApp not ready"), s)
  /\ mark_chat_read B chatId s = (Ok (RError "WhatsApp not ready"), s)
  /\ get_profile_info B s = (Ok (RError "WhatsApp not ready"), s)
  /\ Legacy.get_unread_chats B now s = (Ok (RError "WhatsApp not ready"), s).
Proof.
  intros Hr.
  unfold get_unread_chats, get_all_chats, get_chat_files, download_file,
    download_all_files, mark_chat_read, get_profile_info,
    Legacy.get_unread_chats, bind, gets.
  rewrite Hr. simpl. repeat split; reflexivity.
Qed.

End Gate.

(** ** Downloads and the naming convention of the downloads directory *)

Section Downloads.
Context `{Externals}.

(** The sanitized id has the length of the id; letters and digits stay,
    every other character becomes an underscore. *)
Lemma replace_non_alnum_length (s : string) :
  String.length (JS.replace_non_alnum s) = String.length s.
Proof. induction s as [|c s IH]; simpl; [done|]. by rewrite IH. Qed.

Lemma replace_non_alnum_get (s : string) (i : nat) :
  String.get i (JS.replace_non_alnum s)
  = (fun c => if JS.alnum c then c else "_"%char) <$> String.get i s.
Proof.
  revert i. induction s as [|c s IH]; intros i; simpl; [done|].
  destruct i as [|i]; [done|]. apply IH.
Qed.

Lemma orS_ne_empty (o : option string) (d : string) :
  d <> "" -> JS.orS o d <> "".
Proof.
  intros Hd. destruct o as [s|]; simpl; [|done].
  destruct (String.eqb_spec s ""); done.
Qed.

Lemma append_ne_empty (a c : string) : (a ++ "_" ++ c)%string <> "".
Proof. destruct a; simpl; discriminate. Qed.

(** The name [get-chat-files] lists is never empty. *)
Lemma fileName_of_ne_empty (msg : Message) : fileName_of msg <> "".
Proof.
  unfold fileName_of. destruct (JS.truthyS (msg_fileName msg)) eqn:Ht.
  - destruct (msg_fileName msg) as [f|]; simpl in *; [|done].
    destruct (String.eqb_spec f ""); simpl in *; done.
  - apply append_ne_empty.
Qed.

Lemma orO_Some_ne_empty (f : string) (d : option string) :
  f <> "" -> JS.orO (Some f) d = Some f.
Proof.
  intros Hf. unfold JS.orO; simpl.
  destruct (String.eqb_spec f ""); simpl; done.
Qed.

(** A download that succeeds was made while ready, wrote the decoded
    payload at the conventional path, and left the flag alone. *)
Lemma download_file_ok B now messageId chatId fileName s d s1 :
  download_file B now messageId chatId fileName s = (Ok (RValue d), s1) ->
  isClientReady s = true
  /\ isClientReady s1 = true
  /\ exists media,
       dl_fileName d = finalFileName_of fileName media now
       /\ dl_localPath d = download_path messageId (dl_fileName d)
       /\ dl_size d = String.length (base64_decode (media_data media))
       /\ fs s1 = <[dl_localPath d := base64_decode (media_data media)]> (fs s).
Proof.
  unfold download_file, bind, gets, try_catch, await, send, modify, ret,
    save_media, writeFileSync, throw.
  destruct (isClientReady s) eqn:Hr; simpl; [|discriminate].
  destruct (outcome (getChatById B chatId)) as [chat|e]; simpl; [|discriminate].
  destruct (outcome (chat_fetchMessages chat 100)) as [messages|e]; simpl;
    [|discriminate].
  destruct (JS.find _ messages) as [msg|]; simpl; [|discriminate].
  destruct (msg_hasMedia msg); simpl; [|discriminate].
  destruct (outcome (msg_downloadMedia msg)) as [[media|]|e]; simpl;
    [|discriminate|discriminate].
  destruct (write_error _) as [e|]; simpl; [discriminate|].
  intros [= <- <-]. simpl. rewrite Hr.
  split; [done|]. split; [done|]. exists media. done.
Qed.

(** C7, as the code has it: a successful [download-file] returns
    [localPath = path.join(DOWNLOADS_DIR, sanitizedId + "_" + fileName)]
    for the final file name it reports, where the sanitized id keeps the
    letters and digits of the message id and has an underscore in place
    of every other character, and the file is on disk afterwards. A
    following [get-chat-files] on the same chat reports the message with
    [isDownloaded = true] and the same [localPath] provided the message
    is among the 50 it retrieves and the download was asked for under the
    file name the listing shows for it. *)
Theorem C7_download_then_listed
    (B : Backend) (now : Z) (messageId chatId : string) (fileName : option string)
    (s s1 : App) (d : Downloaded) :
  download_file B now messageId chatId fileName s = (Ok (RValue d), s1) ->
  dl_localPath d
    = path_join DOWNLOADS_DIR (JS.replace_non_alnum messageId ++ "_" ++ dl_fileName d)
  /\ String.length (JS.replace_non_alnum messageId) = String.length messageId
  /\ (forall i, String.get i (JS.replace_non_alnum messageId)
                = (fun c => if JS.alnum c then c else "_"%char) <$> String.get i messageId)
  /\ is_Some (fs s1 !! dl_localPath d)
  /\ forall chat messages msg,
       outcome (getChatById B chatId) = Ok chat ->
       outcome (chat_fetchMessages chat 50) = Ok messages ->
       msg ∈ messages ->
       msg_id msg = messageId ->
       msg_hasMedia msg = true ->
       fileName = Some (fileName_of msg) ->
       exists files k s2,
         get_chat_files B chatId s1 = (Ok (RValue (files, k)), s2)
         /\ exists f, f ∈ files
              /\ mi_messageId f = messageId
              /\ mi_isDownloaded f = true
              /\ mi_localPath f = Some (dl_localPath d).
Proof.
  intros Hdl.
  destruct (download_file_ok _ _ _ _ _ _ _ _ Hdl)
    as (Hr & Hr1 & media & Hname & Hpath & _ & Hfs).
  split; [exact Hpath|].
  split; [apply replace_non_alnum_length|].
  split; [apply replace_non_alnum_get|].
  split; [rewrite Hfs, lookup_insert_eq; eauto|].
  intros chat messages msg Hchat Hfetch Hin Hid Hmedia ->.
  destruct (get_chat_files_run B chatId s1 chat messages Hr1 Hchat Hfetch)
    as (files & es & Hrun & Hall).
  eexists _, _, _. split; [exact Hrun|].
  assert (Hin' : msg ∈ filter (fun m0 => msg_hasMedia m0 = true) messages)
    by (apply list_elem_of_filter; done).
  destruct (proj1 (list_elem_of_lookup _ _) Hin') as [i Hi].
  destruct (Forall2_lookup_r _ _ _ _ _ Hall Hi) as (f & Hf & [sender Heq]).
  exists f. split.
  { rewrite (sort_perm files_newest_first files). by eapply list_elem_of_lookup_2. }
  assert (Hsame : dl_localPath d = download_path (msg_id msg) (fileName_of msg)).
  { rewrite Hpath, Hname, Hid. unfold finalFileName_of.
    by rewrite (orO_Some_ne_empty _ _ (fileName_of_ne_empty msg)). }
  rewrite Heq. simpl. rewrite <- Hsame, Hfs, lookup_insert_eq.
  rewrite bool_decide_eq_true_2 by eauto. done.
Qed.

End Downloads.

(** ** The listener of incoming messages *)

Section Incoming.
Context `{Externals}.

(** The listener and the listing compute the same file name. *)
Lemma incoming_fileName_eq (msg : Message) : incoming_fileName msg = fileName_of msg.
Proof.
  unfold incoming_fileName, fileName_of, mimeType_of, JS.orO.
  destruct (JS.truthyS (msg_fileName msg)) eqn:Ht; [|done].
  destruct (msg_fileName msg) as [f|]; simpl in *; [|done].
  by destruct (String.eqb f "").
Qed.

(** A listing made with the file on disk reports it. *)
Lemma listed_as_downloaded B chatId s chat messages msg :
  isClientReady s = true ->
  outcome (getChatById B chatId) = Ok chat ->
  outcome (chat_fetchMessages chat 50) = Ok messages ->
  msg ∈ messages ->
  msg_hasMedia msg = true ->
  is_Some (fs s !! download_path (msg_id msg) (fileName_of msg)) ->
  exists files k s',
    get_chat_files B chatId s = (Ok (RValue (files, k)), s')
    /\ exists f, f ∈ files
         /\ mi_messageId f = msg_id msg
         /\ mi_isDownloaded f = true
         /\ mi_localPath f = Some (download_path (msg_id msg) (fileName_of msg)).
Proof.
  intros Hr Hchat Hfetch Hin Hmedia Hfile.
  destruct (get_chat_files_run B chatId s chat messages Hr Hchat Hfetch)
    as (files & es & Hrun & Hall).
  eexists _, _, _. split; [exact Hrun|].
  assert (Hin' : msg ∈ filter (fun m0 => msg_hasMedia m0 = true) messages)
    by (apply list_elem_of_filter; done).
  destruct (proj1 (list_elem_of_lookup _ _) Hin') as [i Hi].
  destruct (Forall2_lookup_r _ _ _ _ _ Hall Hi) as (f & Hf & [sender Heq]).
  exists f. split.
  { rewrite (sort_perm files_newest_first files). by eapply list_elem_of_lookup_2. }
  rewrite Heq. simpl. by rewrite bool_decide_eq_true_2.
Qed.

Lemma finalFileName_of_listed (msg : Message) (media : Media) (now : Z) :
  finalFileName_of (Some (fileName_of msg)) media now = fileName_of msg.
Proof.
  unfold finalFileName_of.
  by rewrite (orO_Some_ne_empty _ _ (fileName_of_ne_empty msg)).
Qed.

(** The inner [try]: either the file is written at the listed path, or
    nothing happens but the call. *)
Lemma auto_download_run (now : Z) (msg : Message) (d : MessageData) (s : App) :
  md_fileName d = Some (fileName_of msg) ->
  let path := download_path (msg_id msg) (fileName_of msg) in
  let s0 := emit (Backend_call (CDownloadMedia (msg_id msg))) s in
  auto_download now msg d s
  = match outcome (msg_downloadMedia msg), write_error path with
    | Ok (Some media), None =>
        (Ok (with_download path d),
         set_fs (<[path := base64_decode (media_data media)]> (fs s)) s0)
    | _, _ => (Ok d, s0)
    end.
Proof.
  intros Hd path s0. unfold auto_download. rewrite Hd.
  unfold try_catch, bind at 1, await.
  destruct (outcome (msg_downloadMedia msg)) as [[media|]|e]; [| |done].
  - rewrite finalFileName_of_listed. fold path.
    unfold bind, writeFileSync. destruct (write_error path) as [e|]; done.
  - by destruct (write_error path).
Qed.

(** C10, as the code has it: for an incoming message with media whose
    chat and contact lookups resolve, the listener always ends by sending
    [whatsapp:new-message] with the message metadata. When the payload
    downloads and the write succeeds, the file is at the very path
    [get-chat-files] checks for that message, the notification carries
    [autoDownloaded] and that path, and any later listing of a chat whose
    50 retrieved messages include the message, made while the file is
    still there, reports it downloaded at that path. When there is no
    payload, or the download or the write throws, the failure is
    swallowed: the disk is as before and the notification goes out
    without [autoDownloaded]. *)
Theorem C10_auto_download_matches_listing
    (now : Z) (msg : Message) (s : App) (chat : ChatInfo) (contact : Contact) :
  msg_hasMedia msg = true ->
  outcome (msg_getChat msg) = Ok chat ->
  outcome (msg_getContact msg) = Ok contact ->
  let path := download_path (msg_id msg) (fileName_of msg) in
  let info := with_file_info msg (messageData_of msg chat contact) in
  exists s' d,
    on_message now msg s = (Ok tt, s')
    /\ last (log s') = Some (Send (IpcNewMessage d))
    /\ md_messageId d = msg_id msg
    /\ md_fileName d = Some (fileName_of msg)
    /\ isClientReady s' = isClientReady s
    /\ match outcome (msg_downloadMedia msg), write_error path with
       | Ok (Some media), None =>
           d = with_download path info
           /\ fs s' = <[path := base64_decode (media_data media)]> (fs s)
           /\ forall B chatId c messages s2,
                isClientReady s2 = true ->
                is_Some (fs s2 !! path) ->
                outcome (getChatById B chatId) = Ok c ->
                outcome (chat_fetchMessages c 50) = Ok messages ->
                msg ∈ messages ->
                exists files k s3,
                  get_chat_files B chatId s2 = (Ok (RValue (files, k)), s3)
                  /\ exists f, f ∈ files
                       /\ mi_messageId f = msg_id msg
                       /\ mi_isDownloaded f = true
                       /\ mi_localPath f = Some path
       | _, _ => d = info /\ fs s' = fs s
       end.
Proof.
  intros Hmedia Hchat Hcontact path info.
  assert (Hname : md_fileName info = Some (fileName_of msg))
    by (simpl; by rewrite incoming_fileName_eq).
  pose proof (auto_download_run now msg info
                (logged [Backend_call (CMsgGetChat (msg_id msg));
                         Backend_call (CMsgGetContact (msg_id msg))] s) Hname) as Hrun.
  cbv zeta in Hrun. fold path in Hrun.
  unfold on_message, try_catch, bind at 1, await. rewrite Hchat.
  unfold bind at 1. rewrite Hcontact, Hmedia. fold info.
  unfold bind at 1, emit. rewrite logged_logged. cbn [app].
  rewrite Hrun. clear Hrun.
  destruct (outcome (msg_downloadMedia msg)) as [[media|]|e];
    [destruct (write_error path) as [e|]| |].
  - eexists _, info. split; [reflexivity|]. simpl. rewrite last_snoc.
    repeat split; done.
  - eexists _, (with_download path info). split; [reflexivity|].
    simpl. rewrite last_snoc. repeat split; try done.
    intros B chatId c messages s2 Hr Hfile Hc Hfetch Hin.
    by apply (listed_as_downloaded B chatId s2 c messages msg).
  - eexists _, info. split; [reflexivity|]. simpl. rewrite last_snoc.
    repeat split; done.
  - eexists _, info. split; [reflexivity|]. simpl. rewrite last_snoc.
    repeat split; done.
Qed.

End Incoming.

(** ** Computations that never look at the state *)

Lemma yields_ret {A} (P : Res A -> Prop) (a : A) : P (Ok a) -> yields P (ret a).
Proof. intros HP. exists (Ok a), []. split; [done|]. intros s. unfold ret. by rewrite logged_nil. Qed.

Lemma yields_await {A} (P : Res A -> Prop) (c : Call) (p : Promise A) :
  P (outcome p) -> yields P (await c p).
Proof. intros HP. exists (outcome p), [Backend_call c]. done. Qed.

Lemma yields_bind {A B} (Q : Res A -> Prop) (P : Res B -> Prop) (m : M A) (k : A -> M B) :
  yields Q m ->
  (forall a, Q (Ok a) -> yields P (k a)) ->
  (forall e, Q (Err e) -> P (Err e)) ->
  yields P (bind m k).
Proof.
  intros (r & es & HQ & Hm) Hk He. destruct r as [a|e].
  - destruct (Hk a HQ) as (r' & es' & HP & Hka).
    exists r', (es ++ es'). split; [done|]. intros s. unfold bind.
    by rewrite Hm, Hka, logged_logged.
  - exists (Err e), es. split; [by apply He|]. intros s. unfold bind. by rewrite Hm.
Qed.

Lemma yields_try_catch {A} (Q P : Res A -> Prop) (m : M A) (h : string -> M A) :
  yields Q m ->
  (forall a, Q (Ok a) -> P (Ok a)) ->
  (forall e, Q (Err e) -> yields P (h e)) ->
  yields P (try_catch m h).
Proof.
  intros (r & es & HQ & Hm) Ha Hh. destruct r as [a|e].
  - exists (Ok a), es. split; [by apply Ha|]. intros s. unfold try_catch. by rewrite Hm.
  - destruct (Hh e HQ) as (r' & es' & HP & Hhe).
    exists r', (es ++ es'). split; [done|]. intros s. unfold try_catch.
    by rewrite Hm, Hhe, logged_logged.
Qed.

(** [Promise.all(xs.map(f))] of computations that cannot fail: one result
    per element, in order. *)
Lemma yields_map_all {A B} (R : B -> A -> Prop) (f : A -> M B) (xs : list A) :
  (forall x, yields (returns (fun y => R y x)) (f x)) ->
  yields (returns (fun ys => Forall2 R ys xs)) (map_all f xs).
Proof.
  intros Hf. induction xs as [|x xs IH]; simpl.
  - apply yields_ret. constructor.
  - eapply yields_bind; [apply Hf| |done]. intros y Hy.
    eapply yields_bind; [apply IH| |done]. intros ys Hys.
    apply yields_ret. by constructor.
Qed.

Lemma oblivious_ret {A} (a : A) : oblivious (ret a).
Proof. by apply yields_ret. Qed.

Lemma oblivious_await {A} (c : Call) (p : Promise A) : oblivious (await c p).
Proof. by apply yields_await. Qed.

Lemma oblivious_bind {A B} (m : M A) (k : A -> M B) :
  oblivious m -> (forall a, oblivious (k a)) -> oblivious (bind m k).
Proof. intros Hm Hk. eapply yields_bind; [exact Hm| |done]. intros a _. apply Hk. Qed.

Lemma oblivious_try_catch {A} (m : M A) (h : string -> M A) :
  oblivious m -> (forall e, oblivious (h e)) -> oblivious (try_catch m h).
Proof.
  intros Hm Hh. eapply yields_try_catch; [exact Hm|done|]. intros e _. apply Hh.
Qed.

Lemma oblivious_map_all {A B} (f : A -> M B) (xs : list A) :
  (forall x, oblivious (f x)) -> oblivious (map_all f xs).
Proof.
  intros Hf. induction xs as [|x xs IH]; simpl.
  - apply oblivious_ret.
  - apply oblivious_bind; [apply Hf|]. intros y.
    apply oblivious_bind; [apply IH|]. intros ys. apply oblivious_ret.
Qed.

(** A handler of the form [try { ... } catch { return fallback }] whose body
    does not look at the state always returns. *)
Lemma guarded_returns {A} (m : M A) (h : string -> M A) :
  oblivious m -> (forall e, yields (returns (fun _ => True)) (h e)) ->
  yields (returns (fun _ => True)) (try_catch m h).
Proof.
  intros Hm Hh. eapply yields_try_catch; [exact Hm|done|]. intros e _. apply Hh.
Qed.

(** ** [delete-files] *)

Section Delete.
Context `{Externals}.

Lemma set_fs_same s : set_fs (fs s) s = s.
Proof. by destruct s. Qed.

(** Pass 1 on one path: the three outcomes. *)
Lemma delete_local_missing p s :
  fs s !! p = None ->
  delete_local p s = (Ok (LocalErr p "File not found on disk"), s).
Proof.
  intros Hp. unfold delete_local, try_catch, bind, existsSync, gets.
  rewrite Hp. by rewrite bool_decide_eq_false_2 by (by intros [? ?]).
Qed.

Lemma delete_local_present p s :
  is_Some (fs s !! p) -> unlink_error p = None ->
  delete_local p s = (Ok (LocalOk p), set_fs (delete p (fs s)) s).
Proof.
  intros Hp He.
  unfold delete_local, try_catch, bind, unlinkSync, bind, existsSync, gets.
  rewrite bool_decide_eq_true_2 by done. simpl.
  rewrite bool_decide_eq_true_2 by done. simpl. by rewrite He.
Qed.

Lemma delete_local_locked p e s :
  is_Some (fs s !! p) -> unlink_error p = Some e ->
  delete_local p s = (Ok (LocalErr p e), s).
Proof.
  intros Hp He.
  unfold delete_local, try_catch, bind, unlinkSync, bind, existsSync, gets.
  rewrite bool_decide_eq_true_2 by done. simpl.
  rewrite bool_decide_eq_true_2 by done. simpl. by rewrite He.
Qed.

(** Pass 1 never throws and gives one result per path, whatever the disk
    holds; it changes nothing but the disk. *)
Lemma delete_local_total p s :
  exists r disk, delete_local p s = (Ok r, set_fs disk s).
Proof.
  destruct (fs s !! p) as [v|] eqn:Hp.
  - destruct (unlink_error p) as [e|] eqn:He.
    + exists (LocalErr p e), (fs s).
      rewrite set_fs_same. apply delete_local_locked; [by rewrite Hp|done].
    + eexists _, _. apply delete_local_present; [by rewrite Hp|done].
  - exists (LocalErr p "File not found on disk"), (fs s).
    rewrite set_fs_same. by apply delete_local_missing.
Qed.

Lemma local_pass_total filePaths s :
  exists results disk,
    map_all delete_local filePaths s = (Ok results, set_fs disk s)
    /\ length results = length filePaths.
Proof.
  revert s. induction filePaths as [|p ps IH]; intros s; simpl.
  - exists [], (fs s). by rewrite set_fs_same.
  - destruct (delete_local_total p s) as (r & disk & Hr).
    destruct (IH (set_fs disk s)) as (rs & disk' & Hrs & Hlen).
    exists (r :: rs), disk'. unfold bind, ret. rewrite Hr, Hrs. simpl.
    by rewrite Hlen.
Qed.

(** The result expected for each path of a batch whose only missing file
    is [missing]. *)
Lemma local_pass_one_missing missing filePaths s :
  NoDup filePaths ->
  fs s !! missing = None ->
  (forall p, p ∈ filePaths -> p <> missing ->
     is_Some (fs s !! p) /\ unlink_error p = None) ->
  exists disk,
    map_all delete_local filePaths s
    = (Ok ((fun p => if decide (p = missing)
                     then LocalErr p "File not found on disk"
                     else LocalOk p) <$> filePaths),
       set_fs disk s)
    /\ (forall p, p ∈ filePaths -> disk !! p = None)
    /\ (forall p, p ∉ filePaths -> disk !! p = fs s !! p).
Proof.
  revert s. induction filePaths as [|p ps IH]; intros s Hnd Hmiss Hall; simpl.
  - exists (fs s). rewrite set_fs_same. split; [done|]. split; [|done].
    intros p Hp. by apply elem_of_nil in Hp.
  - apply NoDup_cons in Hnd as [Hp Hnd].
    destruct (decide (p = missing)) as [->|Hne].
    + destruct (IH s Hnd Hmiss) as (disk & Hrun & Hgone & Hkept).
      { intros q Hq. apply Hall. by right. }
      exists disk. unfold bind, ret.
      rewrite (delete_local_missing _ _ Hmiss), Hrun.
      split; [done|]. split.
      * intros q [->|Hq]%elem_of_cons; [|by apply Hgone].
        by rewrite (Hkept _ Hp).
      * intros q Hq. apply Hkept. intros Hq'. apply Hq. by right.
    + destruct (Hall p) as [Hpres Hunl]; [by left|done|].
      destruct (IH (set_fs (delete p (fs s)) s) Hnd) as (disk & Hrun & Hgone & Hkept).
      { simpl. rewrite lookup_delete_ne by done. done. }
      { intros q Hq Hqm. simpl. rewrite lookup_delete_ne by (by intros ->).
        apply Hall; [by right|done]. }
      exists disk. unfold bind, ret.
      rewrite (delete_local_present _ _ Hpres Hunl), Hrun.
      split; [done|]. split.
      * intros q [->|Hq]%elem_of_cons; [|by apply Hgone].
        rewrite (Hkept _ Hp). simpl. apply lookup_delete_eq.
      * intros q Hq. rewrite Hkept by (intros Hq'; apply Hq; by right).
        simpl. apply lookup_delete_ne. intros ->. apply Hq. by left.
Qed.

(** In a batch without repetitions, one path is [missing]. *)
Lemma one_failure missing (filePaths : list string) :
  NoDup filePaths -> missing ∈ filePaths ->
  length (filter (fun r => local_failed r = true)
            ((fun p => if decide (p = missing)
                       then LocalErr p "File not found on disk"
                       else LocalOk p) <$> filePaths)) = 1%nat
  /\ length (filter (fun r => local_failed r = false)
            ((fun p => if decide (p = missing)
                       then LocalErr p "File not found on disk"
                       else LocalOk p) <$> filePaths)) = (length filePaths - 1)%nat.
Proof.
  intros Hnd Hin.
  assert (Hout : forall l : list string, missing ∉ l ->
    filter (fun r => local_failed r = true)
      ((fun p => if decide (p = missing)
                 then LocalErr p "File not found on disk" else LocalOk p) <$> l) = []
    /\ length (filter (fun r => local_failed r = false)
      ((fun p => if decide (p = missing)
                 then LocalErr p "File not found on disk" else LocalOk p) <$> l))
       = length l).
  { induction l as [|q l IH]; intros Hq; [done|].
    apply not_elem_of_cons in Hq as [Hne Hq].
    destruct (IH Hq) as [IH1 IH2].
    rewrite fmap_cons, !filter_cons.
    destruct (decide (q = missing)) as [->|_]; [done|]. simpl.
    destruct (decide (false = true)) as [|_]; [done|].
    destruct (decide (false = false)) as [_|]; [|done].
    simpl. by rewrite IH1, IH2. }
  induction filePaths as [|p ps IH]; [by apply elem_of_nil in Hin|].
  apply NoDup_cons in Hnd as [Hp Hnd].
  rewrite fmap_cons, !filter_cons.
  destruct (decide (p = missing)) as [->|Hne]; simpl.
  - destruct (decide (true = true)) as [_|]; [|done].
    destruct (decide (true = false)) as [|_]; [done|].
    destruct (Hout ps Hp) as [-> ->]. simpl. split; [done|lia].
  - destruct (decide (false = true)) as [|_]; [done|].
    destruct (decide (false = false)) as [_|]; [|done].
    apply elem_of_cons in Hin as [->|Hin]; [done|].
    destruct (IH Hnd Hin) as [-> ->]. simpl. split; [done|].
    destruct ps; [by apply elem_of_nil in Hin|simpl; lia].
Qed.

(** Pass 2 consults the readiness flag and the backend, nothing else. *)
Lemma delete_remote_oblivious messages msgId : oblivious (delete_remote messages msgId).
Proof.
  unfold delete_remote. apply oblivious_try_catch.
  - destruct (JS.find _ messages).
    + apply oblivious_bind; [apply oblivious_await|]. intros _. apply oblivious_ret.
    + apply oblivious_ret.
  - intros e. apply oblivious_ret.
Qed.

Lemma remote_pass_run B chatId messageIds :
  exists f : bool -> list WaResult * list Effect,
    (forall s, delete_remote_pass B chatId messageIds s
               = (Ok (fst (f (isClientReady s))), logged (snd (f (isClientReady s))) s))
    /\ ((JS.truthyS chatId = false \/ messageIds = None \/ messageIds = Some [])
        -> forall b, f b = ([], []))
    /\ f false = ([], []).
Proof.
  assert (Hskip : exists f : bool -> list WaResult * list Effect,
    (forall s, (bind (gets isClientReady) (fun _ => ret []) : M (list WaResult)) s
               = (Ok (fst (f (isClientReady s))), logged (snd (f (isClientReady s))) s))
    /\ (forall b, f b = ([], []))).
  { exists (fun _ => ([], [])). split; [|done]. intros s.
    unfold bind, gets, ret. simpl. by rewrite logged_nil. }
  unfold delete_remote_pass.
  destruct chatId as [chatId|]; [|by destruct Hskip as (f & ? & ?); exists f].
  destruct messageIds as [[|msgId msgIds]|];
    [by destruct Hskip as (f & ? & ?); exists f| |
     by destruct Hskip as (f & ? & ?); exists f].
  assert (Hobl : oblivious
    (try_catch
       (bind (await (CGetChatById chatId) (getChatById B chatId)) (fun chat =>
        bind (await (CFetchMessages chatId 100) (chat_fetchMessages chat 100))
          (fun messages => map_all (delete_remote messages) (msgId :: msgIds))))
       (fun e => ret [WaChatErr e]))).
  { apply oblivious_try_catch; [|intros e; apply oblivious_ret].
    apply oblivious_bind; [apply oblivious_await|]. intros chat.
    apply oblivious_bind; [apply oblivious_await|]. intros messages.
    apply oblivious_map_all. intros x. apply delete_remote_oblivious. }
  destruct Hobl as (r & es & _ & Hrun).
  assert (Hok : exists wa, r = Ok wa).
  { specialize (Hrun (logged [] (set_ready false
      {| whatsappClient := None; isClientReady := false; attempts := [];
         alive := []; reconnects_waiting := 0; logouts_waiting := [];
         fs := ∅; log := [] |}))).
    unfold try_catch in Hrun.
    destruct (bind _ _ _) as [[wa|e] s'] in Hrun.
    - exists wa. congruence.
    - unfold ret in Hrun. exists [WaChatErr e]. congruence. }
  destruct Hok as [wa ->].
  exists (fun b => if b && negb (String.eqb chatId "") then (wa, es) else ([], [])).
  split; [|split].
  - intros s. unfold bind at 1, gets.
    destruct (isClientReady s && negb (String.eqb chatId "")); simpl.
    + apply Hrun.
    + unfold ret. by rewrite logged_nil.
  - intros [Hc|[?|?]] b; [|done|done]. simpl in Hc.
    apply negb_false_iff in Hc. rewrite Hc. by rewrite andb_false_r.
  - done.
Qed.

(** C8, as the code has it: for a batch of pairwise distinct paths of
    which exactly one is missing on disk while every other one is a
    file that [unlinkSync] removes without throwing, [results] has one
    entry per path, in order: [{ error: "File not found on disk" }] for
    the missing path and a success for each of the others, whose files
    are gone afterwards. The WhatsApp pass runs only when the session is
    ready and a chat id and a non-empty [messageIds] are supplied, and
    its [waResults] are the same whatever batch of paths and whatever
    disk the local pass met; nor do the local results depend on the
    backend, the chat id or the message ids. *)
Theorem C8_delete_passes_independent
    (B : Backend) (filePaths : list string) (messageIds : option (list string))
    (chatId : option string) (s : App) (missing : string) :
  NoDup filePaths ->
  missing ∈ filePaths ->
  fs s !! missing = None ->
  (forall p, p ∈ filePaths -> p <> missing ->
     is_Some (fs s !! p) /\ unlink_error p = None) ->
  exists results waResults s',
    delete_files B filePaths messageIds chatId s = (Ok (results, waResults), s')
    /\ results = (fun p => if decide (p = missing)
                           then LocalErr p "File not found on disk"
                           else LocalOk p) <$> filePaths
    /\ length results = length filePaths
    /\ length (filter (fun r => local_failed r = true) results) = 1%nat
    /\ length (filter (fun r => local_failed r = false) results)
       = (length filePaths - 1)%nat
    /\ (forall p, p ∈ filePaths -> fs s' !! p = None)
    /\ ((isClientReady s = false \/ JS.truthyS chatId = false
         \/ messageIds = None \/ messageIds = Some [])
        -> waResults = [] /\ log s' = log s)
    /\ (forall filePaths' s0,
          isClientReady s0 = isClientReady s ->
          exists results' s0',
            delete_files B filePaths' messageIds chatId s0
            = (Ok (results', waResults), s0'))
    /\ (forall B' messageIds' chatId',
          exists waResults' s'',
            delete_files B' filePaths messageIds' chatId' s
            = (Ok (results, waResults'), s'')
            /\ fs s'' = fs s').
Proof.
  intros Hnd Hin Hmiss Hall.
  destruct (local_pass_one_missing missing filePaths s Hnd Hmiss Hall)
    as (disk & Hlocal & Hgone & _).
  destruct (remote_pass_run B chatId messageIds) as (f & Hremote & Hgate & Hnot).
  destruct (one_failure missing filePaths Hnd Hin) as [Hone Hrest].
  eexists _, (fst (f (isClientReady s))), _.
  split; [|split; [reflexivity|]].
  { unfold delete_files, bind, ret. rewrite Hlocal, Hremote. reflexivity. }
  split; [by rewrite length_fmap|].
  split; [exact Hone|]. split; [exact Hrest|].
  split; [intros p Hp; simpl; by apply Hgone|].
  split; [|split].
  - intros [Hr|Hrest']; simpl.
    + rewrite Hr, Hnot. simpl. by rewrite app_nil_r.
    + rewrite (Hgate Hrest'). simpl. by rewrite app_nil_r.
  - intros filePaths' s0 Hsame.
    destruct (local_pass_total filePaths' s0) as (results' & disk' & Hlocal' & _).
    eexists _, _. unfold delete_files, bind, ret.
    rewrite Hlocal', Hremote. simpl. rewrite Hsame. reflexivity.
  - intros B' messageIds' chatId'.
    destruct (remote_pass_run B' chatId' messageIds') as (f' & Hremote' & _).
    eexists _, _. unfold delete_files, bind, ret.
    rewrite Hlocal, Hremote'. split; reflexivity.
Qed.

End Delete.

(** ** Chat listings: [get-unread-chats] *)

Section Listing.
Context `{Externals}.

Lemma chats_newest_first_key x y : chats_newest_first x y = (- chat_ts x) - (- chat_ts y).
Proof. unfold chats_newest_first. lia. Qed.

Lemma summaries_newest_first_key x y :
  summaries_newest_first x y = (- cs_ts x) - (- cs_ts y).
Proof. unfold summaries_newest_first. lia. Qed.

Lemma last_message_preview_returns chat timeout :
  yields (returns (fun _ => True)) (last_message_preview chat timeout).
Proof.
  unfold last_message_preview. apply guarded_returns.
  - apply oblivious_bind; [apply oblivious_await|]. intros msgs. apply oblivious_ret.
  - intros e. by apply yields_ret.
Qed.

(** The enrichment of a chat cannot fail, and the entry made for a chat
    carries its id, unread counter, timestamp and group flag. *)
Lemma summarize_returns chat :
  yields (returns (fun r => summary_of r chat)) (summarize chat).
Proof.
  unfold summarize.
  eapply (yields_bind (returns (fun _ => True))); [| |done].
  - unfold enrich_contact. apply guarded_returns; [|intros e; by apply yields_ret].
    apply oblivious_bind; [apply oblivious_await|]. intros [contact|].
    + apply oblivious_try_catch; [|intros e; apply oblivious_ret].
      apply oblivious_bind; [apply oblivious_await|]. intros pic. apply oblivious_ret.
    + apply oblivious_ret.
  - intros [[savedName whatsappName] pic] _.
    eapply yields_bind; [apply last_message_preview_returns| |done].
    intros lastMessage _. apply yields_ret. by repeat split.
Qed.

Lemma legacy_summarize_returns chat :
  yields (returns (fun r => summary_of r chat)) (Legacy.summarize chat).
Proof.
  unfold Legacy.summarize.
  eapply (yields_bind (returns (fun _ => True))); [| |done].
  - unfold Legacy.enrich_contact.
    apply guarded_returns; [|intros e; by apply yields_ret].
    apply oblivious_bind; [apply oblivious_await|]. intros contact.
    apply oblivious_try_catch; [|intros e; apply oblivious_ret].
    apply oblivious_bind; [apply oblivious_await|]. intros pic. apply oblivious_ret.
  - intros [contactName pic] _.
    eapply yields_bind; [apply last_message_preview_returns| |done].
    intros lastMessage _. apply yields_ret. by repeat split.
Qed.

(** Entries made from chats in descending order are in descending
    order. *)
Lemma summaries_sorted rs cs :
  Forall2 summary_of rs cs ->
  StronglySorted (key_le (fun c => - chat_ts c)) cs ->
  StronglySorted (key_le (fun r => - cs_ts r)) rs.
Proof.
  intros Hall. induction Hall as [|r c rs cs Hrc Hall IH]; intros Hs; [constructor|].
  apply StronglySorted_inv in Hs as [Hs Hc].
  constructor; [by apply IH|].
  clear IH Hs. induction Hall as [|r' c' rs cs Hrc' Hall IH]; [constructor|].
  apply Forall_cons in Hc as [Hcc' Hc].
  constructor; [|by apply IH].
  destruct Hrc as (_ & _ & Ht & _), Hrc' as (_ & _ & Ht' & _).
  unfold key_le, cs_ts, chat_ts in *. by rewrite Ht, Ht'.
Qed.

Lemma summaries_ids rs cs :
  Forall2 summary_of rs cs ->
  cs_id <$> rs = (fun c => chat_serialized (chat_info c)) <$> cs.
Proof.
  induction 1 as [|r c rs cs (Hid & _) _ IH]; [done|].
  rewrite !fmap_cons. by rewrite Hid, IH.
Qed.

(** What the filter of the earlier listing keeps, once the clock is past
    the first day of 1970: the chats with [unreadCount > 0] or a
    timestamp later than [oneDayAgo]. *)
Lemma legacy_recent_spec (oneDayAgo : Z) (c : Chat) :
  0 <= oneDayAgo ->
  Legacy.recent oneDayAgo c
  = match chat_unreadCount (chat_info c) with Some u => 0 <? u | None => false end
    || match chat_timestamp (chat_info c) with Some t => oneDayAgo <? t | None => false end.
Proof.
  intros Hpos. unfold Legacy.recent, JS.gtZ, JS.truthyZ. f_equal.
  destruct (chat_timestamp (chat_info c)) as [t|]; [|done].
  destruct (Z.eqb_spec t 0) as [->|]; [|done]. simpl.
  symmetry. apply Z.ltb_ge. exact Hpos.
Qed.

Lemma cs_ts_timestamp (r : ChatSummary) : cs_ts r = default 0 (cs_timestamp r).
Proof.
  unfold cs_ts. destruct (cs_timestamp r) as [t|]; [|done]. simpl.
  destruct (Z.eqb_spec t 0) as [->|]; done.
Qed.

(** Two lists related entry by entry stay so when both are filtered by
    predicates that agree on related entries. *)
Lemma Forall2_filter_related {A B} (R : A -> B -> Prop) (P : A -> Prop) (Q : B -> Prop)
    `{forall x, Decision (P x)} `{forall y, Decision (Q y)} (l : list A) (k : list B) :
  (forall x y, R x y -> P x <-> Q y) ->
  Forall2 R l k -> Forall2 R (filter P l) (filter Q k).
Proof.
  intros Hagree. induction 1 as [|x y l k Hxy _ IH]; [constructor|].
  rewrite !filter_cons. pose proof (Hagree x y Hxy) as Hiff.
  destruct (decide (P x)) as [HP|HP], (decide (Q y)) as [HQ|HQ]; try tauto.
  by constructor.
Qed.

(** C9, as the code has it. The current [get-unread-chats] applies no
    unread or 24-hour filter: it returns an entry for every chat of the
    backend's list except [status@broadcast], in descending order of
    [timestamp || 0] (ties in the backend's order). The earlier
    [get-unread-chats], with the clock past the first day of 1970,
    returns entries in descending order of their timestamp, a missing
    one counting as 0, and those of its entries that are not
    [status@broadcast] are exactly one for each chat other than
    [status@broadcast] with [unreadCount > 0] or a timestamp later than
    24 hours before now. Nothing is said of [status@broadcast] in the
    earlier listing. *)
Theorem C9_chat_listings (B : Backend) (now : Z) (s : App) (chats : list Chat) :
  isClientReady s = true ->
  (outcome (withTimeout (getChats B) 30000 []) = Ok chats ->
   exists result s',
     get_unread_chats B s = (Ok (RValue result), s')
     /\ Forall2 summary_of result
          (JS.sort chats_newest_first (filter not_broadcast chats))
     /\ StronglySorted (key_le (fun r => - cs_ts r)) result
     /\ forall c, c ∈ chats ->
          (chat_serialized (chat_info c) ∈ cs_id <$> result
           <-> chat_serialized (chat_info c) <> "status@broadcast"))
  /\ (86400000 <= now ->
      outcome (getChats B) = Ok chats ->
      exists result listed s',
        Legacy.get_unread_chats B now s = (Ok (RValue result), s')
        /\ result ≡ₚ listed
        /\ StronglySorted
             (fun a b => default 0 (cs_timestamp b) <= default 0 (cs_timestamp a))
             result
        /\ Forall2 summary_of
             (filter (fun r => cs_id r <> "status@broadcast") listed)
             (filter
                (fun c =>
                   chat_serialized (chat_info c) <> "status@broadcast"
                   /\ (match chat_unreadCount (chat_info c) with
                       | Some unreadCount => 0 <? unreadCount
                       | None => false
                       end
                       || match chat_timestamp (chat_info c) with
                          | Some timestamp => now / 1000 - 86400 <? timestamp
                          | None => false
                          end))
                chats)).
Proof.
  intros Hready. split; intros Hchats.
  - set (allChats := JS.sort chats_newest_first (filter not_broadcast chats)).
    assert (Hsorted : StronglySorted (key_le (fun c => - chat_ts c)) allChats)
      by apply (sort_sorted _ _ chats_newest_first_key).
    assert (Hperm : allChats ≡ₚ filter not_broadcast chats) by apply sort_perm.
    destruct (yields_map_all summary_of summarize allChats summarize_returns)
      as ([rs|e] & es & Hrs & Hrun); [simpl in Hrs|done].
    pose proof (summaries_sorted _ _ Hrs Hsorted) as Hrsorted.
    assert (Hres : exists s',
      get_unread_chats B s = (Ok (RValue rs), s')).
    { unfold get_unread_chats, bind at 1, gets. rewrite Hready.
      unfold negb. cbv iota.
      unfold try_catch, bind at 1, await. rewrite Hchats.
      subst allChats. destruct chats as [|c chats'].
      - unfold ret. cbn in Hrs. inversion Hrs; subst. by eexists.
      - cbv iota. unfold bind, ret. rewrite Hrun.
        rewrite (sort_sorted_id _ _ summaries_newest_first_key _ Hrsorted).
        by eexists. }
    destruct Hres as [s' Hres]. exists rs, s'.
    split; [exact Hres|]. split; [exact Hrs|]. split; [exact Hrsorted|].
    intros c Hc. rewrite (summaries_ids _ _ Hrs). split.
    + intros Hin. apply list_elem_of_fmap in Hin as (c' & Heq & Hin).
      rewrite Hperm in Hin. apply list_elem_of_filter in Hin as [Hnb _].
      unfold not_broadcast in Hnb. rewrite Heq.
      destruct (String.eqb_spec (chat_serialized (chat_info c')) "status@broadcast");
        [done|done].
    + intros Hne. apply list_elem_of_fmap. exists c. split; [done|].
      rewrite Hperm. apply list_elem_of_filter. split; [|done].
      unfold not_broadcast.
      by destruct (String.eqb_spec (chat_serialized (chat_info c)) "status@broadcast").
  - rename Hchats into Hnow. intros Hchats.
    assert (Hday : 0 <= now / 1000 - 86400).
    { assert (86400 <= now / 1000); [|lia].
      apply Z.div_le_lower_bound; lia. }
    set (recentChats := filter (Legacy.recent (now / 1000 - 86400)) chats).
    destruct (yields_map_all summary_of Legacy.summarize recentChats
                legacy_summarize_returns)
      as ([rs|e] & es & Hrs & Hrun); [simpl in Hrs|done].
    exists (JS.sort summaries_newest_first rs), rs. eexists.
    split; [|split; [|split]].
    + unfold Legacy.get_unread_chats, bind at 1, gets. rewrite Hready. simpl.
      unfold try_catch, bind at 1, await. rewrite Hchats.
      fold recentChats. unfold bind, ret. rewrite Hrun. reflexivity.
    + apply sort_perm.
    + eapply StronglySorted_weaken;
        [|apply (sort_sorted _ _ summaries_newest_first_key)].
      intros a b. unfold key_le. rewrite !cs_ts_timestamp. lia.
    + match goal with
      | |- Forall2 _ _ (filter ?Q chats) =>
          replace (filter Q chats)
            with (filter (fun c => chat_serialized (chat_info c) <> "status@broadcast")
                    recentChats)
      end.
      * apply Forall2_filter_related; [|exact Hrs].
        intros r c (Hid & _). by rewrite Hid.
      * subst recentChats. rewrite list_filter_filter. apply list_filter_iff.
        intros c. by rewrite (legacy_recent_spec _ c Hday).
Qed.

End Listing.

(** ** Handlers touch the disk and the trace only *)

Lemma frame_compose es es' disk disk' s :
  logged es' (set_fs disk' (logged es (set_fs disk s))) = logged (es ++ es') (set_fs disk' s).
Proof. unfold logged, set_fs; simpl. by rewrite app_assoc. Qed.

Lemma frame_refl s : s = logged [] (set_fs (fs s) s).
Proof. destruct s; unfold logged, set_fs; simpl. by rewrite app_nil_r. Qed.

Lemma disk_only_ret {A} (a : A) : disk_only (ret a).
Proof. intros s. exists [], (fs s). apply frame_refl. Qed.

Lemma disk_only_throw {A} (e : string) : disk_only (@throw A e).
Proof. intros s. exists [], (fs s). apply frame_refl. Qed.

Lemma disk_only_gets {A} (f : App -> A) : disk_only (gets f).
Proof. intros s. exists [], (fs s). apply frame_refl. Qed.

Lemma disk_only_send (m : Ipc) : disk_only (send m).
Proof. intros s. exists [Send m], (fs s). by rewrite set_fs_same. Qed.

Lemma disk_only_await {A} (c : Call) (p : Promise A) : disk_only (await c p).
Proof.
  intros s. exists [Backend_call c], (fs s). by rewrite set_fs_same.
Qed.

Lemma disk_only_bind {A B} (m : M A) (k : A -> M B) :
  disk_only m -> (forall a, disk_only (k a)) -> disk_only (bind m k).
Proof.
  intros Hm Hk s. unfold bind. destruct (Hm s) as (es & disk & Hs).
  destruct (m s) as [[a|e] s1]; simpl in Hs; subst s1.
  - destruct (Hk a (logged es (set_fs disk s))) as (es' & disk' & Hk').
    exists (es ++ es'), disk'. by rewrite Hk', frame_compose.
  - by exists es, disk.
Qed.

Lemma disk_only_try_catch {A} (m : M A) (h : string -> M A) :
  disk_only m -> (forall e, disk_only (h e)) -> disk_only (try_catch m h).
Proof.
  intros Hm Hh s. unfold try_catch. destruct (Hm s) as (es & disk & Hs).
  destruct (m s) as [[a|e] s1]; simpl in Hs; subst s1.
  - by exists es, disk.
  - destruct (Hh e (logged es (set_fs disk s))) as (es' & disk' & Hh').
    exists (es ++ es'), disk'. by rewrite Hh', frame_compose.
Qed.

Lemma disk_only_map_all {A B} (f : A -> M B) (xs : list A) :
  (forall x, disk_only (f x)) -> disk_only (map_all f xs).
Proof.
  intros Hf. induction xs as [|x xs IH]; simpl; [apply disk_only_ret|].
  apply disk_only_bind; [apply Hf|]. intros y.
  apply disk_only_bind; [apply IH|]. intros ys. apply disk_only_ret.
Qed.

Lemma disk_only_for_each {A B} (f : A -> M (option B)) (xs : list A) :
  (forall x, disk_only (f x)) -> disk_only (for_each f xs).
Proof.
  intros Hf. induction xs as [|x xs IH]; simpl; [apply disk_only_ret|].
  apply disk_only_bind; [apply Hf|]. intros y.
  apply disk_only_bind; [apply IH|]. intros ys. apply disk_only_ret.
Qed.

Lemma oblivious_disk_only {A} (m : M A) : oblivious m -> disk_only m.
Proof.
  intros (r & es & _ & Hm) s. exists es, (fs s). by rewrite Hm, set_fs_same.
Qed.

Section Frames.
Context `{Externals}.

Lemma disk_only_existsSync p : disk_only (existsSync p).
Proof. apply disk_only_gets. Qed.

Lemma disk_only_writeFileSync p data : disk_only (writeFileSync p data).
Proof.
  unfold writeFileSync. destruct (write_error p); [apply disk_only_throw|].
  intros s. exists [], (<[p := data]> (fs s)). simpl.
  unfold logged, set_fs; simpl. by rewrite app_nil_r.
Qed.

Lemma disk_only_unlinkSync p : disk_only (unlinkSync p).
Proof.
  unfold unlinkSync. apply disk_only_bind; [apply disk_only_existsSync|].
  intros present. destruct present; simpl; [|apply disk_only_throw].
  destruct (unlink_error p); [apply disk_only_throw|].
  intros s. exists [], (delete p (fs s)). simpl.
  unfold logged, set_fs; simpl. by rewrite app_nil_r.
Qed.

Lemma disk_only_save_media messageId name media : disk_only (save_media messageId name media).
Proof.
  unfold save_media. apply disk_only_bind; [apply disk_only_writeFileSync|].
  intros _. apply disk_only_ret.
Qed.

Lemma disk_only_download_each total i msgs : disk_only (download_each total i msgs).
Proof.
  revert i. induction msgs as [|msg msgs IH]; intros i; simpl; [apply disk_only_ret|].
  apply disk_only_bind; [apply disk_only_send|]. intros _.
  apply disk_only_bind.
  - apply disk_only_try_catch; [|intros e; apply disk_only_ret].
    apply disk_only_bind; [apply disk_only_await|]. intros [media|].
    + apply disk_only_bind; [apply disk_only_save_media|]. intros d.
      apply disk_only_ret.
    + apply disk_only_ret.
  - intros r. apply disk_only_bind; [apply IH|]. intros rs. apply disk_only_ret.
Qed.

(** A chat/message operation changes nothing but the disk and the trace. *)
Lemma handle_frame B now r s :
  exists es disk, handle B now r s = logged es (set_fs disk s).
Proof.
  assert (Hguard : forall A (m : M (Reply A)),
    disk_only m ->
    disk_only (bind (gets isClientReady) (fun ready =>
      if negb ready then ret (RError "WhatsApp not ready") else m))).
  { intros A m Hm. apply disk_only_bind; [apply disk_only_gets|].
    intros ready. destruct ready; simpl; [exact Hm|apply disk_only_ret]. }
  destruct r; simpl.
  - apply Hguard. apply oblivious_disk_only.
    apply oblivious_try_catch; [|intros e; apply oblivious_ret].
    apply oblivious_bind; [apply oblivious_await|]. intros [|c chats].
    + apply oblivious_ret.
    + apply oblivious_bind; [|intros rs; apply oblivious_ret].
      apply oblivious_map_all. intros x.
      destruct (summarize_returns x) as (r & es & _ & Hx). by exists r, es.
  - apply Hguard. apply oblivious_disk_only.
    apply oblivious_try_catch; [|intros e; apply oblivious_ret].
    apply oblivious_bind; [apply oblivious_await|]. intros chats.
    apply oblivious_bind; [|intros rs; apply oblivious_ret].
    apply oblivious_map_all. intros x. unfold summarize_brief.
    apply oblivious_bind; [|intros name; apply oblivious_ret].
    apply oblivious_try_catch; [|intros e; apply oblivious_ret].
    apply oblivious_bind; [apply oblivious_await|]. intros c. apply oblivious_ret.
  - apply Hguard.
    apply disk_only_try_catch; [|intros e; apply disk_only_ret].
    apply disk_only_bind; [apply disk_only_await|]. intros chat.
    apply disk_only_bind; [apply disk_only_await|]. intros messages.
    apply disk_only_bind; [|intros files; apply disk_only_ret].
    apply disk_only_for_each. intros msg. unfold chat_file.
    destruct (msg_hasMedia msg); simpl; [|apply disk_only_ret].
    apply disk_only_bind.
    + apply disk_only_try_catch; [|intros e; apply disk_only_ret].
      apply disk_only_bind; [apply disk_only_await|]. intros c. apply disk_only_ret.
    + intros sender. apply disk_only_bind; [apply disk_only_existsSync|].
      intros d. apply disk_only_ret.
  - apply Hguard.
    apply disk_only_try_catch.
    + apply disk_only_bind; [apply disk_only_await|]. intros chat.
      apply disk_only_bind; [apply disk_only_await|]. intros messages.
      destruct (JS.find _ messages) as [msg|]; [|apply disk_only_ret].
      destruct (msg_hasMedia msg); simpl; [|apply disk_only_ret].
      apply disk_only_bind; [apply disk_only_send|]. intros _.
      apply disk_only_bind; [apply disk_only_await|]. intros [media|];
        [|apply disk_only_ret].
      apply disk_only_bind; [apply disk_only_save_media|]. intros d.
      apply disk_only_bind; [apply disk_only_send|]. intros _. apply disk_only_ret.
    + intros e. apply disk_only_bind; [apply disk_only_send|]. intros _.
      apply disk_only_ret.
  - apply Hguard.
    apply disk_only_try_catch; [|intros e; apply disk_only_ret].
    apply disk_only_bind; [apply disk_only_await|]. intros chat.
    apply disk_only_bind; [apply disk_only_await|]. intros messages.
    apply disk_only_bind; [apply disk_only_download_each|]. intros rs.
    apply disk_only_ret.
  - apply Hguard.
    apply disk_only_try_catch; [|intros e; apply disk_only_ret].
    apply disk_only_bind; [apply disk_only_await|]. intros chat.
    apply disk_only_bind; [apply disk_only_await|]. intros _. apply disk_only_ret.
  - unfold get_profile_info.
    apply disk_only_bind; [apply disk_only_gets|]. intros ready.
    apply disk_only_bind; [apply disk_only_gets|]. intros client.
    destruct (negb ready || negb (bool_decide (is_Some client))); [apply disk_only_ret|].
    apply disk_only_try_catch; [|intros e; apply disk_only_ret].
    destruct (client_info B) as [info|]; [|apply disk_only_throw].
    apply disk_only_bind; [|intros pic; apply disk_only_ret].
    apply disk_only_try_catch; [|intros e; apply disk_only_ret].
    destruct (info_wid info) as [[user serialized]|];
      [apply disk_only_await|apply disk_only_throw].
  - unfold delete_files.
    apply disk_only_bind.
    + apply disk_only_map_all. intros p. unfold delete_local.
      apply disk_only_try_catch; [|intros e; apply disk_only_ret].
      apply disk_only_bind; [apply disk_only_existsSync|]. intros present.
      destruct present; [|apply disk_only_ret].
      apply disk_only_bind; [apply disk_only_unlinkSync|]. intros _.
      apply disk_only_ret.
    + intros results. apply disk_only_bind; [|intros wa; apply disk_only_ret].
      unfold delete_remote_pass.
      apply disk_only_bind; [apply disk_only_gets|]. intros ready.
      destruct chatId as [chatId|]; [|apply disk_only_ret].
      destruct messageIds as [[|msgId msgIds]|]; try apply disk_only_ret.
      destruct (ready && negb (String.eqb chatId "")); [|apply disk_only_ret].
      apply disk_only_try_catch; [|intros e; apply disk_only_ret].
      apply disk_only_bind; [apply disk_only_await|]. intros chat.
      apply disk_only_bind; [apply disk_only_await|]. intros messages.
      apply disk_only_map_all. intros x. apply oblivious_disk_only.
      apply delete_remote_oblivious.
Qed.

End Frames.

(** ** The session supervisor *)

Section SupervisorFacts.
Context `{Externals}.

(** The listener of incoming messages touches the disk and the trace. *)
Lemma on_message_frame now msg s :
  exists es disk, snd (on_message now msg s) = logged es (set_fs disk s).
Proof.
  unfold on_message, auto_download, try_catch, bind, await, send, modify, ret,
    writeFileSync, throw, emit.
  destruct (outcome (msg_getChat msg)) as [chat|e]; cbn -[logged];
    [|eexists _, (fs s); by rewrite set_fs_same].
  destruct (outcome (msg_getContact msg)) as [contact|e]; cbn -[logged];
    [|eexists _, (fs s); by rewrite set_fs_same, !logged_logged].
  destruct (msg_hasMedia msg); cbn -[logged];
    [|eexists _, (fs s); by rewrite set_fs_same, !logged_logged].
  destruct (outcome (msg_downloadMedia msg)) as [[media|]|e]; cbn -[logged];
    [| eexists _, (fs s); by rewrite set_fs_same, !logged_logged
     | eexists _, (fs s); by rewrite set_fs_same, !logged_logged].
  destruct (write_error _) as [e|]; cbn -[logged].
  - eexists _, (fs s). by rewrite set_fs_same, !logged_logged.
  - eexists _, _. unfold logged, set_fs; simpl. rewrite <- !app_assoc. reflexivity.
Qed.

(** *** What each piece does to the closures *)

Lemma attempts_destroy_current s : attempts (destroy_current s) = attempts s.
Proof. unfold destroy_current. by destruct (whatsappClient s). Qed.

Lemma attempts_on_message now msg s : attempts (snd (on_message now msg s)) = attempts s.
Proof. destruct (on_message_frame now msg s) as (es & disk & ->). done. Qed.

Lemma attempts_on_event c e s :
  attempts (on_event c e s)
  = if marks e then alter markEventReceived c (attempts s) else attempts s.
Proof.
  destruct e; simpl; try done.
  - by destruct (qr_toDataURL qr).
  - apply attempts_on_message.
Qed.

Lemma attempts_doRetry c s :
  attempts (doRetry c s)
  = match attempts s !! c with
    | Some a => if retryTriggered a then attempts s
                else alter retry_begun c (attempts s)
    | None => attempts s
    end.
Proof.
  unfold doRetry. destruct (attempts s !! c) as [a|]; [|done].
  destruct (retryTriggered a); [done|]. by rewrite attempts_destroy_current.
Qed.

Lemma attempts_doRetry_resume c s :
  attempts (doRetry_resume c s)
  = match attempts s !! c with
    | Some a =>
        if retry_waiting a then
          if (attempt a <? 3)%nat
          then alter retry_resumed c (attempts s) ++ [new_attempt (attempt a + 1)]
          else alter retry_resumed c (attempts s)
        else attempts s
    | None => attempts s
    end.
Proof.
  unfold doRetry_resume. destruct (attempts s !! c) as [a|]; [|done].
  destruct (retry_waiting a); [|done].
  destruct (attempt a <? 3)%nat; [|done].
  by destruct (eventReceived a).
Qed.

Lemma attempts_logout_resume i r s :
  attempts (logout_resume i r s) = attempts s
  \/ attempts (logout_resume i r s) = attempts s ++ [new_attempt 1].
Proof.
  unfold logout_resume.
  destruct (logouts_waiting s !! i) as [[]|]; try destruct r;
    simpl; rewrite ?attempts_destroy_current; auto.
Qed.

Lemma attempts_handle B now r s : attempts (handle B now r s) = attempts s.
Proof. destruct (handle_frame B now r s) as (es & disk & ->). done. Qed.

(** A closure changes only through its own callbacks, and a new one is
    only ever added at the end. *)
Lemma step_transition s i c a' :
  attempts (step s i) !! c = Some a' ->
  (exists a, attempts s !! c = Some a /\ transition s i c a a')
  \/ (attempts s !! c = None /\ c = length (attempts s)
      /\ exists n, a' = new_attempt n).
Proof.
  assert (Hnew : forall l n, (l ++ [new_attempt n]) !! c = Some a' ->
    (exists a, l !! c = Some a /\ a' = a)
    \/ (l !! c = None /\ c = length l /\ exists n, a' = new_attempt n)).
  { intros l n Hl. destruct (l !! c) as [a|] eqn:Hc.
    - rewrite (lookup_app_l_Some _ _ _ _ Hc) in Hl. left. exists a. by inversion Hl.
    - right. split; [done|]. apply lookup_ge_None in Hc.
      rewrite lookup_app_r in Hl by done.
      apply list_lookup_singleton_Some in Hl as [Hz <-].
      split; [lia|by exists n]. }
  assert (Halter : forall (f : Attempt -> Attempt) c0 (l : list Attempt) x,
    alter f c0 l !! c = Some x ->
    (c0 = c /\ exists a, l !! c = Some a /\ x = f a)
    \/ (c0 <> c /\ l !! c = Some x)).
  { intros f c0 l x Hl. destruct (decide (c0 = c)) as [->|Hne].
    - left. split; [done|]. rewrite list_lookup_alter_eq in Hl.
      destruct (l !! c) as [a|]; simpl in Hl; [|done].
      exists a. by inversion Hl.
    - right. by rewrite list_lookup_alter_ne in Hl. }
  assert (Hsame : attempts s !! c = Some a' ->
    exists a, attempts s !! c = Some a /\ transition s i c a a').
  { intros Hc. exists a'. split; [done|constructor]. }
  destruct i as [c0 e|c0|c0 e|c0|c0| |r| |j r|B now r]; simpl.
  - (* a client event *)
    destruct (bool_decide (c0 ∈ alive s)) eqn:Halive; [|by left; apply Hsame].
    apply bool_decide_eq_true in Halive.
    rewrite attempts_on_event. destruct (marks e) eqn:He; [|by left; apply Hsame].
    intros [[-> (a & Ha & ->)]|[_ Hc]]%Halter; [|by left; apply Hsame].
    left. exists a. split; [done|]. by eapply tr_mark.
  - (* initialize() resolves *)
    destruct (attempts s !! c0) as [a0|] eqn:H0; [|by left; apply Hsame].
    destruct (init_pending a0) eqn:Hp; [|by left; apply Hsame]. simpl.
    intros [[-> (a & Ha & ->)]|[_ Hc]]%Halter; [|by left; apply Hsame].
    left. exists a. split; [done|]. rewrite Ha in H0. inversion H0; subst.
    by apply tr_resolved.
  - (* initialize() rejects *)
    destruct (attempts s !! c0) as [a0|] eqn:H0; [|by left; apply Hsame].
    destruct (init_pending a0) eqn:Hp; [|by left; apply Hsame].
    rewrite attempts_doRetry. simpl. rewrite list_lookup_alter_eq, H0. simpl.
    destruct (retryTriggered a0) eqn:Ht.
    + intros [[-> (a & Ha & ->)]|[_ Hc]]%Halter; [|by left; apply Hsame].
      left. exists a. split; [done|]. rewrite Ha in H0. inversion H0; subst.
      by eapply tr_rejected.
    + intros [[-> (a1 & [[_ (a & Ha & ->)]|[? _]]%Halter & ->)]
              |[Hne [[? _]|[_ Hc]]%Halter]]%Halter;
        try done; [|by left; apply Hsame].
      left. exists a. split; [done|]. rewrite Ha in H0. inversion H0; subst.
      by eapply tr_rejected_retry.
  - (* the init timer fires *)
    destruct (attempts s !! c0) as [a0|] eqn:H0; [|by left; apply Hsame].
    destruct (timer_armed a0) eqn:Hp; [|by left; apply Hsame].
    destruct (eventReceived a0) eqn:He.
    + simpl. intros [[-> (a & Ha & ->)]|[_ Hc]]%Halter; [|by left; apply Hsame].
      left. exists a. split; [done|]. rewrite Ha in H0. inversion H0; subst.
      apply tr_timer; auto.
    + rewrite attempts_doRetry. simpl. rewrite list_lookup_alter_eq, H0. simpl.
      destruct (retryTriggered a0) eqn:Ht.
      * intros [[-> (a & Ha & ->)]|[_ Hc]]%Halter; [|by left; apply Hsame].
        left. exists a. split; [done|]. rewrite Ha in H0. inversion H0; subst.
        apply tr_timer; auto.
      * intros [[-> (a1 & [[_ (a & Ha & ->)]|[? _]]%Halter & ->)]
                |[Hne [[? _]|[_ Hc]]%Halter]]%Halter;
          try done; [|by left; apply Hsame].
        left. exists a. split; [done|]. rewrite Ha in H0. inversion H0; subst.
        by apply tr_timer_retry.
  - (* doRetry resumes *)
    rewrite attempts_doRetry_resume.
    destruct (attempts s !! c0) as [a0|] eqn:H0; [|by left; apply Hsame].
    destruct (retry_waiting a0) eqn:Hw; [|by left; apply Hsame].
    assert (Hres : alter retry_resumed c0 (attempts s) !! c = Some a' ->
      exists a, attempts s !! c = Some a /\ transition s (RetryResumed c0) c a a').
    { intros [[-> (a & Ha & ->)]|[_ Hc]]%Halter;
        [|exists a'; split; [done|constructor]].
      exists a. split; [done|]. rewrite Ha in H0. inversion H0; subst.
      by apply tr_resumed. }
    destruct (attempt a0 <? 3)%nat; [|by left; apply Hres].
    intros [(a & Ha & ->)|(Hnone & Hlen & n & ->)]%Hnew.
    + left. by apply Hres.
    + right. rewrite length_alter in Hlen. split; [|split; [done|by exists n]].
      apply lookup_ge_None. apply lookup_ge_None in Hnone.
      by rewrite length_alter in Hnone.
  - (* reconnect is invoked *)
    destruct (whatsappClient s); simpl.
    + rewrite attempts_destroy_current. by left; apply Hsame.
    + intros [(a & Ha & ->)|?]%Hnew; [by left; apply Hsame|by right].
  - (* reconnect resumes *)
    destruct (reconnects_waiting s); [by left; apply Hsame|].
    destruct r as [[]|e]; simpl; [|by left; apply Hsame].
    intros [(a & Ha & ->)|?]%Hnew; [by left; apply Hsame|by right].
  - (* logout is invoked *)
    destruct (whatsappClient s); simpl; by left; apply Hsame.
  - (* logout resumes *)
    destruct (attempts_logout_resume j r s) as [->| ->]; [by left; apply Hsame|].
    intros [(a & Ha & ->)|?]%Hnew; [by left; apply Hsame|by right].
  - (* a chat/message operation *)
    rewrite attempts_handle. by left; apply Hsame.
Qed.

(** *** Callbacks that construct no client *)

Lemma quiet_refl s : quiet s s.
Proof. split; [exists []; by rewrite app_nil_r|done]. Qed.

Lemma quiet_trans s1 s2 s3 : quiet s1 s2 -> quiet s2 s3 -> quiet s1 s3.
Proof.
  intros ([es Hl] & Ha & Hc & Hal) ([es' Hl'] & Ha' & Hc' & Hal').
  split; [exists (es ++ es'); by rewrite Hl', Hl, app_assoc|].
  split; [congruence|]. split; [congruence|]. by etrans.
Qed.

Lemma quiet_emit e s : quiet s (emit e s).
Proof. split; [by exists [e]|done]. Qed.

Lemma quiet_on_attempt c f s : quiet s (on_attempt c f s).
Proof.
  split; [exists []; simpl; by rewrite app_nil_r|].
  split; [simpl; apply length_alter|done].
Qed.

Lemma quiet_destroy_current s : quiet s (destroy_current s).
Proof.
  unfold destroy_current. destruct (whatsappClient s) eqn:Hc; [|apply quiet_refl].
  split; [by eexists|]. split; [done|]. split; [done|].
  simpl. intros x Hx. by apply list_elem_of_filter in Hx as [_ Hx].
Qed.

Lemma quiet_doRetry c s : quiet s (doRetry c s).
Proof.
  unfold doRetry. destruct (attempts s !! c) as [a|]; [|apply quiet_refl].
  destruct (retryTriggered a); [apply quiet_refl|].
  eapply quiet_trans; [apply quiet_on_attempt|apply quiet_destroy_current].
Qed.

Lemma quiet_set_logouts l s : quiet s (set_logouts l s).
Proof. split; [exists []; simpl; by rewrite app_nil_r|done]. Qed.

Lemma quiet_set_reconnects n s : quiet s (set_reconnects n s).
Proof. split; [exists []; simpl; by rewrite app_nil_r|done]. Qed.

Lemma quiet_set_ready b s : quiet s (set_ready b s).
Proof. split; [exists []; simpl; by rewrite app_nil_r|done]. Qed.

Lemma quiet_on_event c e s : quiet s (on_event c e s).
Proof.
  destruct e; simpl.
  - destruct (qr_toDataURL qr).
    + eapply quiet_trans; [apply quiet_on_attempt|apply quiet_emit].
    + apply quiet_on_attempt.
  - eapply quiet_trans; [apply (quiet_emit (Send (IpcStatus "authenticated")))|].
    apply quiet_on_attempt.
  - eapply quiet_trans; [apply (quiet_set_ready true)|].
    eapply quiet_trans; [apply (quiet_emit (Send (IpcStatus "ready")))|].
    apply quiet_on_attempt.
  - apply quiet_emit.
  - eapply quiet_trans; [apply (quiet_set_ready false)|].
    apply (quiet_emit (Send (IpcStatus "disconnected"))).
  - eapply quiet_trans; [apply (quiet_emit (Send (IpcStatus "auth_failure")))|].
    apply quiet_on_attempt.
  - destruct (on_message_frame now msg s) as (es & disk & ->).
    split; [by exists es|done].
Qed.

Lemma quiet_logout_finish s : quiet s (logout_finish s).
Proof.
  unfold logout_finish, status.
  eapply quiet_trans; [apply (quiet_set_ready false)|].
  eapply quiet_trans; [apply (quiet_emit RmAuth)|].
  eapply quiet_trans; [apply (quiet_emit (Send (IpcStatus "logged_out")))|].
  apply quiet_emit.
Qed.

(** Every callback either constructs no client, or ends by calling
    [initWhatsApp] after having constructed none. *)
Lemma step_quiet_or_init s i :
  quiet s (step s i)
  \/ exists s1 n, quiet s s1 /\ step s i = initWhatsApp n s1.
Proof.
  destruct i as [c0 e|c0|c0 e|c0|c0| |r| |j r|B now r]; simpl.
  - destruct (bool_decide _); [left; apply quiet_on_event|left; apply quiet_refl].
  - destruct (attempts s !! c0) as [a0|]; [|left; apply quiet_refl].
    destruct (init_pending a0); [|left; apply quiet_refl].
    left. eapply quiet_trans; [apply quiet_on_attempt|apply quiet_emit].
  - destruct (attempts s !! c0) as [a0|]; [|left; apply quiet_refl].
    destruct (init_pending a0); [|left; apply quiet_refl].
    left. eapply quiet_trans; [apply quiet_on_attempt|].
    eapply quiet_trans; [apply quiet_emit|apply quiet_doRetry].
  - destruct (attempts s !! c0) as [a0|]; [|left; apply quiet_refl].
    destruct (timer_armed a0); [|left; apply quiet_refl].
    destruct (eventReceived a0); [left; apply quiet_on_attempt|].
    left. eapply quiet_trans; [apply quiet_on_attempt|apply quiet_doRetry].
  - unfold doRetry_resume.
    destruct (attempts s !! c0) as [a0|]; [|left; apply quiet_refl].
    destruct (retry_waiting a0); [|left; apply quiet_refl].
    destruct (attempt a0 <? 3)%nat.
    + right. eexists _, _. split; [|reflexivity].
      eapply quiet_trans; [apply quiet_on_attempt|].
      eapply quiet_trans; [|apply quiet_emit].
      eapply quiet_trans; [|apply quiet_emit].
      destruct (eventReceived a0); [apply quiet_refl|apply quiet_emit].
    + left. eapply quiet_trans; [apply quiet_on_attempt|].
      eapply quiet_trans; [apply (quiet_emit (Send (IpcStatus "error")))|].
      apply quiet_emit.
  - destruct (whatsappClient s) eqn:Hc.
    + left. eapply quiet_trans; [apply quiet_destroy_current|apply quiet_set_reconnects].
    + right. eexists _, _. split; [|reflexivity]. apply quiet_set_ready.
  - destruct (reconnects_waiting s); [left; apply quiet_refl|].
    destruct r as [[]|e].
    + right. eexists _, _. split; [|reflexivity].
      eapply quiet_trans; [apply quiet_set_reconnects|apply quiet_set_ready].
    + left. apply quiet_set_reconnects.
  - destruct (whatsappClient s) eqn:Hc; left.
    + eapply quiet_trans; [apply quiet_emit|apply quiet_set_logouts].
    + eapply quiet_trans; [apply quiet_logout_finish|apply quiet_set_logouts].
  - unfold logout_resume.
    destruct (logouts_waiting s !! j) as [[]|]; try destruct r as [[]|e];
      try (left; apply quiet_refl);
      try (left; eapply quiet_trans; [apply quiet_destroy_current|apply quiet_set_logouts]);
      try (left; eapply quiet_trans; [apply quiet_logout_finish|apply quiet_set_logouts]);
      right; eexists _, _; (split; [|reflexivity]); apply quiet_set_logouts.
  - left. destruct (handle_frame B now r s) as (es & disk & ->).
    split; [by exists es|done].
Qed.

Lemma step_log s i : exists es, log (step s i) = log s ++ es.
Proof.
  destruct (step_quiet_or_init s i) as [([es Hl] & _)|(s1 & n & ([es Hl] & _) & ->)].
  - by exists es.
  - eexists. simpl. rewrite Hl. rewrite <- !app_assoc. reflexivity.
Qed.

Lemma step_attempts_length s i :
  (length (attempts s) <= length (attempts (step s i)))%nat.
Proof.
  destruct (step_quiet_or_init s i) as [(_ & Hlen & _)|(s1 & n & (_ & Hlen & _) & ->)].
  - lia.
  - simpl. rewrite length_app. simpl. lia.
Qed.

(** *** The invariant *)

Lemma sane_boot disk : sane (boot disk).
Proof.
  split; [by eexists|]. split.
  - intros c Hc. simpl in Hc. apply list_elem_of_singleton in Hc as ->. simpl. lia.
  - intros c a Hc.
    destruct c as [|c]; [|done]. simpl in Hc. inversion Hc; subst.
    split; [done|]. split; [done|].
    unfold boot, initWhatsApp, emit, logged; simpl.
    do 2 right. by left.
Qed.

Lemma sane_step s i : sane s -> sane (step s i).
Proof.
  intros (Hclient & Halive & Hatt). split; [|split].
  - destruct (step_quiet_or_init s i) as [(_ & _ & -> & _)|(s1 & n & _ & ->)];
      [done|by eexists].
  - intros c Hc.
    destruct (step_quiet_or_init s i)
      as [(_ & Hlen & _ & Hal)|(s1 & n & (_ & Hlen & _ & Hal) & Heq)].
    + rewrite Hlen. apply Halive. by apply Hal.
    + rewrite Heq in Hc |- *. simpl in *. rewrite length_app, Hlen. simpl.
      apply elem_of_app in Hc as [Hc|Hc].
      * apply Hal, Halive in Hc. lia.
      * apply list_elem_of_singleton in Hc as ->. lia.
  - intros c a' Hc.
    destruct (step_log s i) as [es Hlog].
    destruct (step_transition s i c a' Hc)
      as [(a & Ha & Htr)|(Hnone & -> & n & ->)].
    + destruct (Hatt c a Ha) as (Harmed & Hwait & Htimer).
      split; [|split].
      * destruct Htr; simpl; try done; intros; auto.
      * destruct Htr; simpl; try done; intros; auto.
      * rewrite Hlog. apply elem_of_app. by left.
    + split; [done|]. split; [done|].
      destruct (step_quiet_or_init s i)
        as [(_ & Hlen & _)|(s1 & n' & (_ & Hlen & _) & Heq)].
      * apply lookup_lt_Some in Hc. lia.
      * rewrite Heq. simpl. rewrite Hlen.
        apply elem_of_app. left. apply elem_of_app. right. by constructor.
Qed.

Lemma sane_run s inputs : sane s -> sane (run s inputs).
Proof.
  revert s. induction inputs as [|i inputs IH]; intros s Hs; [done|].
  simpl. apply IH. by apply sane_step.
Qed.

(** *** What the callbacks of one closure emit *)

Lemma step_effects_app s i es : log (step s i) = log s ++ es -> step_effects s i = es.
Proof. intros Hl. unfold step_effects. rewrite Hl. apply drop_app_length. Qed.

Lemma step_effects_idle s i : step s i = s -> step_effects s i = [].
Proof. intros Hs. apply step_effects_app. by rewrite Hs, app_nil_r. Qed.

Lemma log_destroy_current s :
  log (destroy_current s)
  = log s ++ match whatsappClient s with
             | Some g => [Backend_call (CDestroy g)]
             | None => []
             end.
Proof. unfold destroy_current. destruct (whatsappClient s); [done|by rewrite app_nil_r]. Qed.

(** Entering [doRetry]: at most a destroy is emitted, and only when the
    guard is passed. *)
Lemma begin_effects s i c :
  i = TimerFired c \/ (exists e, i = InitRejected c e) ->
  existsb is_retrying (step_effects s i) = false
  /\ (existsb is_destroy (step_effects s i) = true ->
      exists a a', attempts s !! c = Some a /\ retryTriggered a = false
                   /\ attempts (step s i) !! c = Some a'
                   /\ retryTriggered a' = true).
Proof.
  assert (Hretry : forall s0 a0,
    attempts s0 !! c = Some a0 ->
    exists es, log (doRetry c s0) = log s0 ++ es
      /\ existsb is_retrying es = false
      /\ (existsb is_destroy es = true ->
          retryTriggered a0 = false
          /\ attempts (doRetry c s0) !! c = Some (retry_begun a0))).
  { intros s0 a0 H0. rewrite attempts_doRetry. unfold doRetry. rewrite H0.
    destruct (retryTriggered a0).
    - exists []. by rewrite app_nil_r.
    - rewrite log_destroy_current. simpl.
      eexists. split; [reflexivity|].
      rewrite list_lookup_alter_eq, H0. by destruct (whatsappClient s0). }
  intros [->|[e ->]]; simpl.
  - destruct (attempts s !! c) as [a|] eqn:Ha;
      [|rewrite (step_effects_idle s (TimerFired c)) by (simpl; by rewrite Ha); done].
    destruct (timer_armed a) eqn:Harmed;
      [|rewrite (step_effects_idle s (TimerFired c)) by (simpl; by rewrite Ha, Harmed);
        done].
    destruct (eventReceived a) eqn:Hev.
    + rewrite (step_effects_app s (TimerFired c) [])
        by (simpl; rewrite Ha, Harmed, Hev; simpl; by rewrite app_nil_r).
      done.
    + destruct (Hretry (on_attempt c timer_gone s) (timer_gone a))
        as (es & Hlog & Hnot & Hdestroy).
      { simpl. by rewrite list_lookup_alter_eq, Ha. }
      rewrite (step_effects_app s (TimerFired c) es)
        by (simpl; rewrite Ha, Harmed, Hev; exact Hlog).
      split; [done|]. intros Hd. destruct (Hdestroy Hd) as [Ht Hlook].
      exists a, (retry_begun (timer_gone a)).
      split; [done|]. split; [exact Ht|]. split; [|done].
      exact Hlook.
  - destruct (attempts s !! c) as [a|] eqn:Ha;
      [|rewrite (step_effects_idle s (InitRejected c e)) by (simpl; by rewrite Ha); done].
    destruct (init_pending a) eqn:Hp;
      [|rewrite (step_effects_idle s (InitRejected c e)) by (simpl; by rewrite Ha, Hp);
        done].
    destruct (Hretry (emit (ClearInitTimer c) (on_attempt c init_settled s))
                (init_settled a)) as (es & Hlog & Hnot & Hdestroy).
    { simpl. by rewrite list_lookup_alter_eq, Ha. }
    rewrite (step_effects_app s (InitRejected c e) ([ClearInitTimer c] ++ es))
      by (simpl; rewrite Ha, Hp, Hlog; simpl; by rewrite <- app_assoc).
    simpl. split; [done|]. intros Hd. destruct (Hdestroy Hd) as [Ht Hlook].
    exists a, (retry_begun (init_settled a)).
    split; [done|]. split; [exact Ht|]. split; [|done].
    exact Hlook.
Qed.

(** Resuming [doRetry]: no destroy, and a status only when the closure
    was suspended there. *)
Lemma resume_effects s c :
  existsb is_destroy (step_effects s (RetryResumed c)) = false
  /\ (existsb is_retrying (step_effects s (RetryResumed c)) = true ->
      exists a, attempts s !! c = Some a /\ retry_waiting a = true
                /\ attempts (step s (RetryResumed c)) !! c = Some (retry_resumed a)).
Proof.
  destruct (attempts s !! c) as [a|] eqn:Ha;
    [|rewrite (step_effects_idle s (RetryResumed c))
        by (simpl; unfold doRetry_resume; by rewrite Ha); done].
  destruct (retry_waiting a) eqn:Hw;
    [|rewrite (step_effects_idle s (RetryResumed c))
        by (simpl; unfold doRetry_resume; by rewrite Ha, Hw); done].
  assert (Hlook : attempts (step s (RetryResumed c)) !! c = Some (retry_resumed a)).
  { simpl. rewrite attempts_doRetry_resume, Ha, Hw.
    assert (alter retry_resumed c (attempts s) !! c = Some (retry_resumed a))
      by (by rewrite list_lookup_alter_eq, Ha).
    destruct (attempt a <? 3)%nat; [by apply lookup_app_l_Some|done]. }
  assert (Hlog : exists es, log (step s (RetryResumed c)) = log s ++ es
                            /\ existsb is_destroy es = false).
  { simpl. unfold doRetry_resume. rewrite Ha, Hw.
    destruct (attempt a <? 3)%nat; [destruct (eventReceived a)|]; simpl;
      rewrite <- ?app_assoc; eexists; (split; [reflexivity|done]). }
  destruct Hlog as (es & Hlog & Hnot).
  rewrite (step_effects_app _ _ _ Hlog). split; [done|]. intros _. by exists a.
Qed.

(** Each callback of a closure uses up what it emits. *)
Lemma teardown_measure s i c :
  ((if on_behalf c i && existsb is_destroy (step_effects s i) then 1 else 0)
   + teardowns_left (attempts (step s i) !! c)
   <= teardowns_left (attempts s !! c))%nat.
Proof.
  assert (Hmono : (teardowns_left (attempts (step s i) !! c)
                   <= teardowns_left (attempts s !! c))%nat).
  { destruct (attempts (step s i) !! c) as [a'|] eqn:Hc.
    - destruct (step_transition s i c a' Hc) as [(a & -> & Htr)|(-> & _ & n & ->)];
        [|done].
      destruct Htr; simpl; try done; destruct (retryTriggered a); simpl; lia.
    - destruct (attempts s !! c) as [a|] eqn:Ha; [|done].
      apply lookup_lt_Some in Ha. apply lookup_ge_None in Hc.
      pose proof (step_attempts_length s i). lia. }
  destruct (on_behalf c i && existsb is_destroy (step_effects s i)) eqn:Hemit;
    [|lia].
  apply andb_true_iff in Hemit as [Hc Hd].
  assert (Hwho : i = RetryResumed c \/ i = TimerFired c \/ exists e, i = InitRejected c e).
  { destruct i; simpl in Hc; try done; apply bool_decide_eq_true in Hc; subst; eauto. }
  destruct Hwho as [->|Hbegin].
  - destruct (resume_effects s c) as [Hnot _]. congruence.
  - destruct (begin_effects s i c Hbegin) as [_ Hflip].
    destruct (Hflip Hd) as (a & a' & -> & Ht & -> & Ht'). simpl.
    rewrite Ht, Ht'. lia.
Qed.

Lemma resume_measure s i c :
  sane s ->
  ((if on_behalf c i && existsb is_retrying (step_effects s i) then 1 else 0)
   + resumes_left (attempts (step s i) !! c)
   <= resumes_left (attempts s !! c))%nat.
Proof.
  intros (_ & _ & Hsane).
  assert (Hmono : (resumes_left (attempts (step s i) !! c)
                   <= resumes_left (attempts s !! c))%nat).
  { destruct (attempts (step s i) !! c) as [a'|] eqn:Hc.
    - destruct (step_transition s i c a' Hc) as [(a & Ha & Htr)|(-> & _ & n & ->)];
        [|done].
      rewrite Ha. destruct (Hsane c a Ha) as (_ & Hwait & _).
      destruct Htr; simpl; try done;
        destruct (retry_waiting a), (retryTriggered a); simpl; try lia;
        try discriminate; by specialize (Hwait eq_refl).
    - destruct (attempts s !! c) as [a|] eqn:Ha; [|done].
      apply lookup_lt_Some in Ha. apply lookup_ge_None in Hc.
      pose proof (step_attempts_length s i). lia. }
  destruct (on_behalf c i && existsb is_retrying (step_effects s i)) eqn:Hemit;
    [|lia].
  apply andb_true_iff in Hemit as [Hc Hd].
  assert (Hwho : i = RetryResumed c \/ i = TimerFired c \/ exists e, i = InitRejected c e).
  { destruct i; simpl in Hc; try done; apply bool_decide_eq_true in Hc; subst; eauto. }
  destruct Hwho as [->|Hbegin].
  - destruct (resume_effects s c) as [_ Hflip].
    destruct (Hflip Hd) as (a & Ha & Hw & ->). rewrite Ha. simpl. rewrite Hw.
    destruct (Hsane c a Ha) as (_ & Hwait & _). rewrite (Hwait Hw). lia.
  - destruct (begin_effects s i c Hbegin) as [Hnot _]. congruence.
Qed.

Lemma count_teardowns s inputs c :
  (count_emitting c is_destroy s inputs <= teardowns_left (attempts s !! c))%nat.
Proof.
  revert s. induction inputs as [|i inputs IH]; intros s; simpl; [lia|].
  pose proof (teardown_measure s i c). pose proof (IH (step s i)). lia.
Qed.

Lemma count_resumes s inputs c :
  sane s ->
  (count_emitting c is_retrying s inputs <= resumes_left (attempts s !! c))%nat.
Proof.
  revert s. induction inputs as [|i inputs IH]; intros s Hs; simpl; [lia|].
  pose proof (resume_measure s i c Hs).
  pose proof (IH (step s i) (sane_step s i Hs)). lia.
Qed.

(** *** Which closures have seen an event *)

Lemma run_snoc s inputs i : run s (inputs ++ [i]) = step (run s inputs) i.
Proof. unfold run. by rewrite foldl_app. Qed.

Lemma run_app s l1 l2 : run s (l1 ++ l2) = run (run s l1) l2.
Proof. unfold run. by rewrite foldl_app. Qed.

(** Once set, [eventReceived] stays set. *)
Lemma eventReceived_step s i c a :
  attempts s !! c = Some a -> eventReceived a = true ->
  exists a', attempts (step s i) !! c = Some a' /\ eventReceived a' = true.
Proof.
  intros Ha He.
  destruct (attempts (step s i) !! c) as [a'|] eqn:Hc.
  - exists a'. split; [done|].
    destruct (step_transition s i c a' Hc) as [(a0 & Ha0 & Htr)|(Hnone & _)];
      [|congruence].
    rewrite Ha in Ha0. inversion Ha0; subst. by destruct Htr.
  - apply lookup_lt_Some in Ha. apply lookup_ge_None in Hc.
    pose proof (step_attempts_length s i). lia.
Qed.

Lemma eventReceived_run s inputs c a :
  attempts s !! c = Some a -> eventReceived a = true ->
  exists a', attempts (run s inputs) !! c = Some a' /\ eventReceived a' = true.
Proof.
  revert s a. induction inputs as [|i inputs IH]; intros s a Ha He; [by exists a|].
  destruct (eventReceived_step s i c a Ha He) as (a1 & Ha1 & He1).
  simpl. by apply (IH _ a1).
Qed.

(** [eventReceived] of a closure is set exactly when its client has
    emitted one of the four events. *)
Lemma eventReceived_iff disk inputs c a :
  attempts (run (boot disk) inputs) !! c = Some a ->
  (eventReceived a = true
   <-> exists pre e post,
         inputs = pre ++ ClientEmits c e :: post
         /\ marks e = true
         /\ c ∈ alive (run (boot disk) pre)).
Proof.
  intros Ha. split.
  - revert a Ha. induction inputs as [|i inputs IH] using rev_ind; intros a Ha He.
    + destruct c as [|c]; [|done]. simpl in Ha. inversion Ha; subst. done.
    + rewrite run_snoc in Ha.
      destruct (step_transition _ _ _ _ Ha) as [(a0 & Ha0 & Htr)|(_ & _ & n & ->)];
        [|done].
      destruct (eventReceived a0) eqn:He0.
      * destruct (IH a0 Ha0 He0) as (pre & e & post & -> & Hm & Hal).
        exists pre, e, (post ++ [i]). by rewrite <- app_assoc.
      * destruct Htr; simpl in He; try congruence.
        subst i. exists inputs, e, []. done.
  - intros (pre & e & post & -> & Hm & Hal).
    destruct (sane_run (boot disk) pre (sane_boot disk)) as (_ & Halive & _).
    destruct (proj2 (lookup_lt_is_Some _ _) (Halive c Hal)) as [a0 Ha0].
    assert (Hmarked : exists a1,
      attempts (step (run (boot disk) pre) (ClientEmits c e)) !! c = Some a1
      /\ eventReceived a1 = true).
    { simpl. rewrite bool_decide_eq_true_2 by done.
      rewrite attempts_on_event, Hm, list_lookup_alter_eq, Ha0.
      by eexists. }
    destruct Hmarked as (a1 & Ha1 & He1).
    change (pre ++ ClientEmits c e :: post)
      with (pre ++ [ClientEmits c e] ++ post) in Ha.
    rewrite app_assoc, run_app, run_snoc in Ha.
    destruct (eventReceived_run _ post c a1 Ha1 He1) as (a2 & Ha2 & He2).
    congruence.
Qed.

End SupervisorFacts.

(** ** The supervisor: retry bound, timeout, disconnects, single flight *)

Section Supervisor.
Context `{Externals}.

(** C1, as the code has it: when three initialization attempts in a row
    fail with none of the four events observed (by rejection of
    [initialize()], by the 45 s timeout, or by the timeout followed by a
    late rejection), exactly three clients are constructed, for attempts
    1, 2 and 3, and the third failure ends in the [error] status and the
    fatal message. The auth-storage directory is removed after the first
    and again after the second failure, each time before [retrying] is
    sent and the next client is constructed, and not after the third:
    twice in the sequence. *)
Theorem C1_three_eventless_failures (disk : gmap string string) (f1 f2 f3 : Failure) :
  let s := run (boot disk) (fails 0 f1 ++ fails 1 f2 ++ fails 2 f3) in
  attempt <$> attempts s = [1; 2; 3]%nat
  /\ eventReceived <$> attempts s = [false; false; false]
  /\ retry_waiting <$> attempts s = [false; false; false]
  /\ filter (fun e => is_new_client e || is_rmAuth e || is_status e) (log s)
     = [Backend_call (CNew 0); RmAuth; Send (IpcStatus "retrying");
        Backend_call (CNew 1); RmAuth; Send (IpcStatus "retrying");
        Backend_call (CNew 2); Send (IpcStatus "error")]
  /\ last (log s)
     = Some (Send (IpcError
         "Failed to start WhatsApp after multiple attempts. Please restart the app."))
  /\ length (filter (fun e => is_rmAuth e) (log s)) = 2%nat
  /\ alive s = [].
Proof.
  destruct f1, f2, f3; vm_compute; repeat split; reflexivity.
Qed.

(** C4: every initialization attempt sets a timer of 45 000 ms. When the
    timer of an attempt fires and none of [qr], [authenticated], [ready],
    [auth_failure] has been emitted by its client, [destroy()] is called
    on the client the global holds and the attempt is suspended in
    [doRetry]; when one of them has been emitted, the callback does
    nothing: no effect, no client torn down, no retry. *)
Theorem C4_stale_session_timeout
    (disk : gmap string string) (inputs : list Input) (c : nat) (a : Attempt) :
  let s := run (boot disk) inputs in
  attempts s !! c = Some a ->
  timer_armed a = true ->
  INIT_TIMEOUT_MS = 45000
  /\ (forall c' a', attempts s !! c' = Some a' -> SetInitTimer c' 45000 ∈ log s)
  /\ (eventReceived a = true
      <-> exists pre e post,
            inputs = pre ++ ClientEmits c e :: post
            /\ marks e = true
            /\ c ∈ alive (run (boot disk) pre))
  /\ (eventReceived a = false ->
      exists g,
        whatsappClient s = Some g
        /\ step s (TimerFired c)
           = destroy_current (on_attempt c retry_begun (on_attempt c timer_gone s))
        /\ step_effects s (TimerFired c) = [Backend_call (CDestroy g)]
        /\ (g ∉ alive (step s (TimerFired c)))
        /\ attempts (step s (TimerFired c)) !! c = Some (retry_begun (timer_gone a))
        /\ retryTriggered (retry_begun (timer_gone a)) = true
        /\ retry_waiting (retry_begun (timer_gone a)) = true)
  /\ (eventReceived a = true ->
      step s (TimerFired c) = on_attempt c timer_gone s
      /\ step_effects s (TimerFired c) = []
      /\ alive (step s (TimerFired c)) = alive s
      /\ whatsappClient (step s (TimerFired c)) = whatsappClient s
      /\ attempts (step s (TimerFired c)) !! c = Some (timer_gone a)
      /\ retryTriggered (timer_gone a) = false
      /\ retry_waiting (timer_gone a) = retry_waiting a).
Proof.
  intros s Ha Harmed.
  destruct (sane_run (boot disk) inputs (sane_boot disk)) as ([g Hg] & _ & Hsane).
  fold s in Hg, Hsane.
  destruct (Hsane c a Ha) as (Hguard & _ & _). specialize (Hguard Harmed).
  split; [done|]. split; [intros c' a' Ha'; by apply (Hsane c' a')|].
  split; [by apply eventReceived_iff|].
  assert (Hlook : attempts (on_attempt c timer_gone s) !! c = Some (timer_gone a))
    by (simpl; by rewrite list_lookup_alter_eq, Ha).
  split.
  - intros Hev. exists g. split; [done|].
    assert (Hstep : step s (TimerFired c)
      = destroy_current (on_attempt c retry_begun (on_attempt c timer_gone s))).
    { simpl. rewrite Ha, Harmed, Hev. unfold doRetry. rewrite Hlook. simpl.
      by rewrite Hguard. }
    split; [exact Hstep|]. split; [|split; [|split; [|done]]].
    + apply step_effects_app. rewrite Hstep, log_destroy_current. simpl.
      by rewrite Hg.
    + rewrite Hstep. unfold destroy_current. simpl. rewrite Hg. simpl.
      intros Hin. by apply list_elem_of_filter in Hin as [Hne _].
    + rewrite Hstep, attempts_destroy_current. simpl.
      rewrite list_lookup_alter_eq, list_lookup_alter_eq, Ha. done.
  - intros Hev.
    assert (Hstep : step s (TimerFired c) = on_attempt c timer_gone s)
      by (simpl; by rewrite Ha, Harmed, Hev).
    split; [exact Hstep|]. split; [|rewrite Hstep; by repeat split].
    apply step_effects_app. rewrite Hstep. simpl. by rewrite app_nil_r.
Qed.

(** C6, as the code has it: on [disconnected] the listener clears
    [isClientReady] and sends the [disconnected] status; on
    [auth_failure] it sends the [auth_failure] status and leaves
    [isClientReady] as it was (the attempt only records that an event was
    seen). Neither constructs, initializes or destroys a client, neither
    enters the retry path, and the status is all that is emitted. *)
Theorem C6_disconnected_and_auth_failure (s : App) (c : nat) (reason : string) :
  c ∈ alive s ->
  let sd := step s (ClientEmits c (EvDisconnected reason)) in
  let sa := step s (ClientEmits c (EvAuthFailure reason)) in
  (sd = status "disconnected" (set_ready false s)
   /\ isClientReady sd = false
   /\ log sd = log s ++ [Send (IpcStatus "disconnected")]
   /\ attempts sd = attempts s
   /\ alive sd = alive s
   /\ whatsappClient sd = whatsappClient s
   /\ reconnects_waiting sd = reconnects_waiting s
   /\ logouts_waiting sd = logouts_waiting s)
  /\ (sa = on_attempt c markEventReceived (status "auth_failure" s)
      /\ isClientReady sa = isClientReady s
      /\ log sa = log s ++ [Send (IpcStatus "auth_failure")]
      /\ attempts sa = alter markEventReceived c (attempts s)
      /\ (forall c' a', attempts sa !! c' = Some a' ->
            exists a0, attempts s !! c' = Some a0
              /\ attempt a' = attempt a0
              /\ retryTriggered a' = retryTriggered a0
              /\ retry_waiting a' = retry_waiting a0
              /\ timer_armed a' = timer_armed a0
              /\ init_pending a' = init_pending a0)
      /\ alive sa = alive s
      /\ whatsappClient sa = whatsappClient s
      /\ reconnects_waiting sa = reconnects_waiting s
      /\ logouts_waiting sa = logouts_waiting s).
Proof.
  intros Halive sd sa. subst sd sa. simpl.
  rewrite bool_decide_eq_true_2 by done. simpl.
  split; [by repeat split|].
  repeat split; try done.
  intros c' a' Hc'.
  destruct (decide (c = c')) as [->|Hne].
  - rewrite list_lookup_alter_eq in Hc'.
    destruct (attempts s !! c') as [a0|]; [|done].
    inversion Hc'; subst. by exists a0.
  - rewrite list_lookup_alter_ne in Hc' by done. by exists a'.
Qed.

(** C3, as the code has it: the only guard is [retryTriggered], local to
    one [startClient] call. Whatever the interleaving of events, timers,
    rejections, reconnects and logouts, the callbacks of one attempt pass
    the guard of [doRetry] at most once, so they call [destroy()] at most
    once and send [retrying] at most once, and a further trigger for that
    attempt changes nothing. [reconnect-whatsapp] consults no guard: it
    calls [destroy()] on the current client at once and, when that
    resolves, clears the flag and constructs a client for attempt 1. *)
Theorem C3_single_flight_is_per_attempt
    (disk : gmap string string) (inputs : list Input) (c : nat) :
  let s := run (boot disk) inputs in
  (count_emitting c is_destroy (boot disk) inputs <= 1)%nat
  /\ (count_emitting c is_retrying (boot disk) inputs <= 1)%nat
  /\ (forall a, attempts s !! c = Some a -> retryTriggered a = true ->
        doRetry c s = s
        /\ forall e, step_effects s (InitRejected c e) = []
                      \/ step_effects s (InitRejected c e) = [ClearInitTimer c])
  /\ (exists g, whatsappClient s = Some g
        /\ step s ReconnectInvoked
           = set_reconnects (S (reconnects_waiting s)) (destroy_current s)
        /\ step_effects s ReconnectInvoked = [Backend_call (CDestroy g)])
  /\ (forall n, reconnects_waiting s = S n ->
        step s (ReconnectResumed (Ok tt))
        = initWhatsApp 1 (set_ready false (set_reconnects n s))).
Proof.
  intros s.
  destruct (sane_run (boot disk) inputs (sane_boot disk)) as ([g Hg] & _ & Hsane).
  fold s in Hg, Hsane.
  split.
  { etrans; [apply (count_teardowns (boot disk) inputs c)|].
    destruct (attempts (boot disk) !! c) as [a|]; simpl; [|lia].
    destruct (retryTriggered a); lia. }
  split.
  { etrans; [apply (count_resumes (boot disk) inputs c (sane_boot disk))|].
    destruct (attempts (boot disk) !! c) as [a|]; simpl; [|lia].
    destruct (retry_waiting a), (retryTriggered a); lia. }
  split; [|split].
  - intros a Ha Ht.
    assert (Hnoop : doRetry c s = s) by (unfold doRetry; by rewrite Ha, Ht).
    split; [exact Hnoop|]. intros e.
    destruct (init_pending a) eqn:Hp.
    + right. apply step_effects_app. simpl. rewrite Ha, Hp.
      unfold doRetry. simpl. rewrite list_lookup_alter_eq, Ha. simpl. by rewrite Ht.
    + left. apply step_effects_idle. simpl. by rewrite Ha, Hp.
  - exists g. split; [done|]. simpl. rewrite Hg. split; [done|].
    apply step_effects_app. cbn [step]. rewrite Hg.
    cbn [log set_reconnects]. by rewrite log_destroy_current, Hg.
  - intros n Hn. simpl. by rewrite Hn.
Qed.

End Supervisor.

(** ** The theorems at work on a concrete installation *)

Section Scenarios.
Import Demo.
#[local] Existing Instance ext.

(** The scenario of the specification: with [unreadCount = 2] and the
    messages [m1], [m2], [m3], the listing holds [m3] then [m2], both
    unread, and [m3] is listed as [document_300.pdf]. *)
Example listing_scenario :
  (fun f => (mi_messageId f, mi_fileName f, mi_isUnread f, mi_isDownloaded f))
    <$> (match fst (get_chat_files backend "15550001@c.us" ready) with
         | Ok (RValue (files, _)) => files
         | _ => []
         end)
  = [("false_15550001@c.us_A3", "document_300.pdf", true, false);
     ("false_15550001@c.us_A2", "photo.jpg", true, false)].
Proof. vm_compute. reflexivity. Qed.

Example sanitized_id : JS.replace_non_alnum "false_15550001@c.us_A3" = "false_15550001_c_us_A3".
Proof. reflexivity. Qed.

(** The messages come as [m3], [m1], [m2] and two are unread: the two
    latest, [m2] and [m3], and not the two retrieved last. *)
Lemma C2_unread_is_last_min_k_m_witness :
  isClientReady ready = true
  /\ outcome (getChatById backend_unordered "15550001@c.us") = Ok c1_unordered
  /\ outcome (chat_fetchMessages c1_unordered 50) = Ok [m3; m1; m2]
  /\ unreadMsgIds 2 [m3; m1; m2] = list_to_set (msg_id <$> [m2; m3])
  /\ exists files s',
       get_chat_files backend_unordered "15550001@c.us" ready
       = (Ok (RValue (files, 2)), s')
       /\ forall f, f ∈ files ->
            mi_isUnread f = bool_decide (mi_messageId f ∈ msg_id <$> [m2; m3]).
Proof.
  split; [reflexivity|]. split; [reflexivity|]. split; [reflexivity|].
  destruct (C2_unread_is_last_min_k_m backend_unordered "15550001@c.us" ready
              c1_unordered [m3; m1; m2] eq_refl eq_refl eq_refl)
    as (_ & Hids & _ & _ & files & s' & Hrun & _ & Hflag & _).
  split; [exact Hids|]. exists files, s'. split; [exact Hrun|exact Hflag].
Defined.

Lemma C4_stale_session_timeout_witness :
  attempts (run (boot ∅) []) !! 0%nat = Some (new_attempt 1)
  /\ timer_armed (new_attempt 1) = true
  /\ INIT_TIMEOUT_MS = 45000.
Proof.
  split; [reflexivity|]. split; [reflexivity|].
  exact (proj1 (C4_stale_session_timeout ∅ [] 0 (new_attempt 1) eq_refl eq_refl)).
Defined.

Lemma C5_not_ready_fails_fast_witness :
  isClientReady started = false
  /\ get_chat_files backend "15550001@c.us" started
     = (Ok (RError "WhatsApp not ready"), started).
Proof.
  split; [reflexivity|].
  exact (proj1 (proj2 (proj2 (C5_not_ready_fails_fast backend started now
                                "15550001@c.us" "false_15550001@c.us_A3" None None
                                eq_refl)))).
Defined.

Lemma C6_disconnected_and_auth_failure_witness :
  0%nat ∈ alive ready
  /\ isClientReady (step ready (ClientEmits 0 (EvDisconnected "NAVIGATION"))) = false.
Proof.
  assert (Halive : 0%nat ∈ alive ready) by (vm_compute; by left).
  split; [exact Halive|].
  exact (proj1 (proj2 (proj1 (C6_disconnected_and_auth_failure ready 0 "NAVIGATION"
                                Halive)))).
Defined.

Lemma C3_single_flight_is_per_attempt_witness :
  (count_emitting 0 is_retrying (boot ∅)
     [TimerFired 0; InitRejected 0 "Target closed"; RetryResumed 0; RetryResumed 0]
   <= 1)%nat.
Proof.
  exact (proj1 (proj2 (C3_single_flight_is_per_attempt ∅
    [TimerFired 0; InitRejected 0 "Target closed"; RetryResumed 0; RetryResumed 0] 0))).
Defined.

(** The download asked for under the listed name of [m3], then the
    listing. *)
Lemma C7_download_then_listed_witness :
  let d := {| dl_localPath := "/userData/downloads/false_15550001_c_us_A3_document_300.pdf";
              dl_fileName := "document_300.pdf"; dl_size := 8 |} in
  let s1 := snd (download_file backend now "false_15550001@c.us_A3" "15550001@c.us"
                   (Some "document_300.pdf") ready) in
  download_file backend now "false_15550001@c.us_A3" "15550001@c.us"
    (Some "document_300.pdf") ready = (Ok (RValue d), s1)
  /\ exists files k s2,
       get_chat_files backend "15550001@c.us" s1 = (Ok (RValue (files, k)), s2)
       /\ exists f, f ∈ files
            /\ mi_messageId f = "false_15550001@c.us_A3"
            /\ mi_isDownloaded f = true
            /\ mi_localPath f = Some (dl_localPath d).
Proof.
  intros d s1.
  assert (Hdl : download_file backend now "false_15550001@c.us_A3" "15550001@c.us"
                  (Some "document_300.pdf") ready = (Ok (RValue d), s1))
    by (vm_compute; reflexivity).
  split; [exact Hdl|].
  assert (Hin : m3 ∈ [m1; m2; m3]) by (do 2 right; left).
  exact (proj2 (proj2 (proj2 (proj2
           (C7_download_then_listed backend now "false_15550001@c.us_A3"
              "15550001@c.us" (Some "document_300.pdf") ready s1 d Hdl))))
           c1 [m1; m2; m3] m3 eq_refl eq_refl Hin eq_refl eq_refl eq_refl).
Defined.

(** Five targets, the third missing. *)
Lemma C8_delete_passes_independent_witness :
  NoDup five_paths
  /\ "/userData/downloads/c.pdf" ∈ five_paths
  /\ fs (ready_with four_files) !! "/userData/downloads/c.pdf" = None
  /\ exists results waResults s',
       delete_files backend five_paths (Some ["false_15550001@c.us_A2"])
         (Some "15550001@c.us") (ready_with four_files)
       = (Ok (results, waResults), s')
       /\ length (filter (fun r => local_failed r = true) results) = 1%nat
       /\ length (filter (fun r => local_failed r = false) results) = 4%nat.
Proof.
  assert (Hnd : NoDup five_paths)
    by (apply (bool_decide_unpack _); vm_compute; exact I).
  assert (Hin : "/userData/downloads/c.pdf" ∈ five_paths) by (do 2 right; left).
  assert (Hmiss : fs (ready_with four_files) !! "/userData/downloads/c.pdf" = None)
    by (vm_compute; reflexivity).
  assert (Hrest : forall p, p ∈ five_paths -> p <> "/userData/downloads/c.pdf" ->
            is_Some (fs (ready_with four_files) !! p) /\ unlink_error p = None).
  { intros p Hp Hne. unfold five_paths in Hp.
    repeat (apply elem_of_cons in Hp as [->|Hp]);
      try (by apply elem_of_nil in Hp); try done;
      (split; [vm_compute; by eexists|reflexivity]). }
  split; [exact Hnd|]. split; [exact Hin|]. split; [exact Hmiss|].
  destruct (C8_delete_passes_independent backend five_paths
              (Some ["false_15550001@c.us_A2"]) (Some "15550001@c.us")
              (ready_with four_files) "/userData/downloads/c.pdf"
              Hnd Hin Hmiss Hrest)
    as (results & waResults & s' & Hrun & _ & _ & Hone & Hfour & _).
  exists results, waResults, s'. split; [exact Hrun|]. split; [exact Hone|exact Hfour].
Defined.

Lemma C9_chat_listings_witness :
  isClientReady ready = true
  /\ (exists result s',
        get_unread_chats (backend_of [stale_chat; broadcast_chat; c1]) ready
        = (Ok (RValue result), s')
        /\ StronglySorted (key_le (fun r => - cs_ts r)) result)
  /\ 86400000 <= now
  /\ exists result listed s',
       Legacy.get_unread_chats (backend_of [stale_chat; broadcast_chat; c1]) now ready
       = (Ok (RValue result), s')
       /\ result ≡ₚ listed
       /\ Forall2 summary_of
            (filter (fun r => cs_id r <> "status@broadcast") listed) [c1].
Proof.
  assert (Hnow : 86400000 <= now) by (vm_compute; discriminate).
  pose proof (C9_chat_listings (backend_of [stale_chat; broadcast_chat; c1]) now
                ready [stale_chat; broadcast_chat; c1] eq_refl) as [Hcurrent Hearlier].
  split; [reflexivity|]. split; [|split; [exact Hnow|]].
  - destruct (Hcurrent eq_refl) as (result & s' & Hrun & _ & Hsorted & _).
    exists result, s'. split; [exact Hrun|exact Hsorted].
  - destruct (Hearlier Hnow eq_refl) as (result & listed & s' & Hrun & Hperm & _ & Hkept).
    exists result, listed, s'. split; [exact Hrun|]. split; [exact Hperm|exact Hkept].
Defined.

Lemma C10_auto_download_matches_listing_witness :
  msg_hasMedia m3 = true
  /\ outcome (msg_getChat m3) = Ok c1_info
  /\ outcome (msg_getContact m3) = Ok alice
  /\ exists s' d,
       on_message now m3 ready = (Ok tt, s')
       /\ last (log s') = Some (Send (IpcNewMessage d))
       /\ md_fileName d = Some (fileName_of m3).
Proof.
  split; [reflexivity|]. split; [reflexivity|]. split; [reflexivity|].
  destruct (C10_auto_download_matches_listing now m3 ready c1_info alice
              eq_refl eq_refl eq_refl)
    as (s' & d & Hrun & Hlast & _ & Hname & _).
  exists s', d. split; [exact Hrun|]. split; [exact Hlast|exact Hname].
Defined.

(** *** Where the specification and the code part ways *)

(** C1: after three failures without events the auth-storage directory
    has been removed twice, not once. *)
Lemma C1_auth_storage_cleared_twice :
  let s := run (boot ∅)
             [InitRejected 0 "Target closed"; RetryResumed 0;
              InitRejected 1 "Target closed"; RetryResumed 1;
              InitRejected 2 "Target closed"; RetryResumed 2] in
  filter (fun e => is_rmAuth e || is_status e) (log s)
  = [RmAuth; Send (IpcStatus "retrying"); RmAuth; Send (IpcStatus "retrying");
     Send (IpcStatus "error")]
  /\ length (filter (fun e => is_rmAuth e) (log s)) = 2%nat
  /\ length (filter (fun e => is_rmAuth e) (log s)) <> 1%nat.
Proof. vm_compute. split; [reflexivity|]. split; [reflexivity|discriminate]. Qed.

(** C3: a reconnect made while the retry of attempt 1 waits is no no-op.
    It destroys the client and constructs client 1; the retry then
    constructs client 2 without destroying client 1, and two clients are
    alive. *)
Lemma C3_reconnect_during_retry_leaves_two_clients :
  let waiting := run (boot ∅) [TimerFired 0] in
  let s := run waiting [ReconnectInvoked; ReconnectResumed (Ok tt); RetryResumed 0] in
  retry_waiting <$> attempts waiting = [true]
  /\ step_effects waiting ReconnectInvoked = [Backend_call (CDestroy 0)]
  /\ step waiting ReconnectInvoked <> waiting
  /\ alive s = [1; 2]%nat
  /\ whatsappClient s = Some 2%nat
  /\ filter (fun e => is_new_client e || is_destroy e) (log s)
     = [Backend_call (CNew 0); Backend_call (CDestroy 0); Backend_call (CDestroy 0);
        Backend_call (CNew 1); Backend_call (CNew 2)]
  /\ ~ (length (alive s) <= 1)%nat.
Proof.
  vm_compute. split; [reflexivity|]. split; [reflexivity|].
  split; [discriminate|]. split; [reflexivity|]. split; [reflexivity|].
  split; [reflexivity|lia].
Qed.

(** C6: [auth_failure] on a ready session leaves [isClientReady] set. *)
Lemma C6_auth_failure_keeps_ready_flag :
  0%nat ∈ alive ready
  /\ isClientReady ready = true
  /\ isClientReady (step ready (ClientEmits 0 (EvAuthFailure "LOGOUT"))) = true
  /\ isClientReady (step ready (ClientEmits 0 (EvAuthFailure "LOGOUT"))) <> false.
Proof.
  vm_compute. split; [by left|]. split; [reflexivity|].
  split; [reflexivity|discriminate].
Qed.

(** C7: [m3] downloaded without a file name is written under the name of
    the payload, [invoice.pdf], while the listing looks for
    [document_300.pdf]: the download succeeds and the listing still
    reports the message as not downloaded. And the oldest of 51 scans,
    downloaded under its listed name, is found among the 100 messages
    [download-file] retrieves but is not among the 50 of the listing, which
    does not report it at all. *)
Lemma C7_download_not_listed :
  (let r := download_file backend now "false_15550001@c.us_A3" "15550001@c.us" None ready in
   fst r = Ok (RValue
             {| dl_localPath := "/userData/downloads/false_15550001_c_us_A3_invoice.pdf";
                dl_fileName := "invoice.pdf"; dl_size := 8 |})
   /\ (fun f => (mi_messageId f, mi_isDownloaded f, mi_localPath f))
        <$> (match fst (get_chat_files backend "15550001@c.us" (snd r)) with
             | Ok (RValue (files, _)) => files
             | _ => []
             end)
      = [("false_15550001@c.us_A3", false, None);
         ("false_15550001@c.us_A2", false, None)])
  /\ (let r := download_file backend_long now "false_15550004@c.us_S1" "15550004@c.us"
                 (Some "scan.jpg") ready in
      fst r = Ok (RValue
                {| dl_localPath := "/userData/downloads/false_15550004_c_us_S1_scan.jpg";
                   dl_fileName := "scan.jpg"; dl_size := 8 |})
      /\ (let listed := match fst (get_chat_files backend_long "15550004@c.us" (snd r)) with
                        | Ok (RValue (files, _)) => mi_messageId <$> files
                        | _ => []
                        end in
          length listed = 50%nat
          /\ bool_decide ("false_15550004@c.us_S1" ∈ listed) = false
          /\ bool_decide ("false_15550004@c.us_S2" ∈ listed) = true)).
Proof. vm_compute. repeat split; reflexivity. Qed.

(** C8: with exactly one of three distinct paths missing, a file that
    exists but is locked is a second failure; and when a path comes
    twice, its second deletion fails. *)
Lemma C8_two_failures_with_one_missing :
  (let paths := ["/userData/downloads/a.pdf"; "/userData/downloads/c.pdf";
                 "/userData/downloads/b.pdf"] in
   NoDup paths
   /\ (fun p => bool_decide (is_Some (four_files !! p))) <$> paths = [true; false; true]
   /\ fst (@delete_files ext_locked backend paths None None (ready_with four_files))
      = Ok ([LocalErr "/userData/downloads/a.pdf"
               "EBUSY: resource busy or locked, unlink '/userData/downloads/a.pdf'";
             LocalErr "/userData/downloads/c.pdf" "File not found on disk";
             LocalOk "/userData/downloads/b.pdf"], []))
  /\ (let paths := ["/userData/downloads/a.pdf"; "/userData/downloads/a.pdf";
                    "/userData/downloads/c.pdf"] in
      (fun p => bool_decide (is_Some (four_files !! p))) <$> paths = [true; true; false]
      /\ fst (delete_files backend paths None None (ready_with four_files))
         = Ok ([LocalOk "/userData/downloads/a.pdf";
                LocalErr "/userData/downloads/a.pdf" "File not found on disk";
                LocalErr "/userData/downloads/c.pdf" "File not found on disk"], [])).
Proof.
  split; [split; [|split]|split].
  - apply (bool_decide_unpack _). vm_compute. exact I.
  - vm_compute. reflexivity.
  - vm_compute. reflexivity.
  - vm_compute. reflexivity.
  - vm_compute. reflexivity.
Qed.

(** C9: the current listing returns the chat of Bob, which has nothing
    unread and whose last activity, at second 300, is years before
    [now]. *)
Lemma C9_listing_is_not_the_claimed_filter :
  let B := backend_of [stale_chat; broadcast_chat; c1] in
  chat_serialized (chat_info stale_chat) = "15550002@c.us"
  /\ chat_unreadCount (chat_info stale_chat) = Some 0
  /\ chat_timestamp (chat_info stale_chat) = Some 300
  /\ 300 < now / 1000 - 86400
  /\ cs_id <$> (match fst (get_unread_chats B ready) with
                | Ok (RValue chats) => chats
                | _ => []
                end)
     = ["15550002@c.us"; "15550001@c.us"].
Proof. vm_compute. repeat split; reflexivity. Qed.

(** C10: an incoming message with media whose chat lookup rejects is
    neither downloaded nor announced. *)
Lemma C10_no_download_when_chat_lookup_fails :
  msg_hasMedia orphan = true
  /\ on_message now orphan ready
     = (Ok tt, logged [Backend_call (CMsgGetChat "false_15550003@c.us_B1")] ready)
  /\ fs (snd (on_message now orphan ready)) = fs ready
  /\ fs (snd (on_message now orphan ready))
       !! download_path (msg_id orphan) (fileName_of orphan) = None.
Proof. vm_compute. repeat split; reflexivity. Qed.

End Scenarios.

(** * Further properties of the handlers *)

(** ** Timeouts *)

Lemma withTimeout_in_time {A} (p : Promise A) (ms : Z) (fallback : A) :
  settles_after p <= ms -> withTimeout p ms fallback = p.
Proof. intros Hle. unfold withTimeout. by rewrite (proj2 (Z.leb_le _ _) Hle). Qed.

Lemma withTimeout_late {A} (p : Promise A) (ms : Z) (fallback : A) :
  ms < settles_after p -> outcome (withTimeout p ms fallback) = Ok fallback.
Proof. intros Hlt. unfold withTimeout. by rewrite (proj2 (Z.leb_gt _ _) Hlt). Qed.

Lemma sent_app es es' : sent (es ++ es') = sent es ++ sent es'.
Proof. apply omap_app. Qed.

Lemma log_logged es s : log (logged es s) = log s ++ es.
Proof. done. Qed.

Lemma fs_logged es s : fs (logged es s) = fs s.
Proof. done. Qed.

(** ** [get-all-chats] *)

Section AllChats.
Context `{Externals}.

Lemma summarize_brief_returns chat :
  yields (returns (fun r => summary_of r chat)) (summarize_brief chat).
Proof.
  unfold summarize_brief.
  eapply (yields_bind (returns (fun _ => True))); [| |done].
  - apply guarded_returns; [|intros e; by apply yields_ret].
    apply oblivious_bind; [apply oblivious_await|]. intros c. apply oblivious_ret.
  - intros name _. apply yields_ret. by repeat split.
Qed.

(** X1: [get-all-chats] with a limit [n >= 0] (30 when none is given)
    answers with the [min(n, k)] most recent of the [k] chats other than
    [status@broadcast], most recent first: no chat left out is more
    recent than a chat listed, whatever the contact lookups do. *)
Theorem get_all_chats_lists_most_recent
    (B : Backend) (limit : option Z) (s : App) (chats : list Chat) :
  isClientReady s = true ->
  outcome (getChats B) = Ok chats ->
  0 <= default 30 limit ->
  exists result listed omitted es,
    get_all_chats B limit s = (Ok (RValue result), logged es s)
    /\ Forall2 summary_of result listed
    /\ listed ++ omitted ≡ₚ filter not_broadcast chats
    /\ length result
       = Nat.min (Z.to_nat (default 30 limit)) (length (filter not_broadcast chats))
    /\ StronglySorted (key_le (fun r => - cs_ts r)) result
    /\ forall c c', c ∈ listed -> c' ∈ omitted -> chat_ts c' <= chat_ts c.
Proof.
  intros Hready Hchats Hlimit.
  set (n := default 30 limit) in *.
  set (sorted := JS.sort chats_newest_first (filter not_broadcast chats)).
  assert (Hsorted : StronglySorted (key_le (fun c => - chat_ts c)) sorted)
    by apply (sort_sorted _ _ chats_newest_first_key).
  assert (Hlen : length sorted = length (filter not_broadcast chats))
    by apply sort_length.
  set (k := Z.to_nat (Z.min n (Z.of_nat (length sorted)))).
  assert (Hslice : JS.slice_to n sorted = take k sorted).
  { unfold JS.slice_to. by rewrite (proj2 (Z.ltb_ge _ _) Hlimit). }
  rewrite <- (take_drop k sorted) in Hsorted.
  destruct (yields_map_all summary_of summarize_brief (take k sorted)
              summarize_brief_returns)
    as ([rs|e] & es & Hrs & Hrun); [simpl in Hrs|done].
  exists rs, (take k sorted), (drop k sorted), (Backend_call CGetChats :: es).
  split; [|split; [exact Hrs|split; [|split; [|split]]]].
  - unfold get_all_chats, bind at 1, gets. rewrite Hready. simpl.
    unfold try_catch, bind at 1, await. rewrite Hchats.
    fold n sorted. rewrite Hslice. unfold bind, ret. rewrite Hrun.
    unfold emit. by rewrite logged_logged.
  - rewrite take_drop. apply sort_perm.
  - rewrite (Forall2_length _ _ _ Hrs), length_take, Hlen. subst k. lia.
  - eapply summaries_sorted; [exact Hrs|].
    by apply StronglySorted_app_1_l in Hsorted.
  - intros c c' Hc Hc'.
    pose proof (StronglySorted_app_1_elem_of _ _ _ _ _ Hsorted Hc Hc') as Hle.
    unfold key_le in Hle. lia.
Qed.

End AllChats.

(** ** The parallel listing degrades field by field *)

Section Enrichment.
Context `{Externals}.



Lemma orS_default (d : string) : JS.orS (Some "") d = d.
Proof. done. Qed.





(** X3: a chat list that takes more than 30 s makes [get-unread-chats]
    answer with an empty list, not with an error; a chat list that
    rejects within 30 s makes it answer with the rejection's message. In
    both cases the only call made is the one for the chat list. *)
Theorem get_unread_chats_without_chat_list (B : Backend) (s : App) :
  isClientReady s = true ->
  (30000 < settles_after (getChats B) ->
   get_unread_chats B s = (Ok (RValue []), logged [Backend_call CGetChats] s))
  /\ (forall e, settles_after (getChats B) <= 30000 ->
        outcome (getChats B) = Err e ->
        get_unread_chats B s = (Ok (RError e), logged [Backend_call CGetChats] s)).
Proof.
  intros Hready. split.
  - intros Hlate.
    unfold get_unread_chats, bind at 1, gets. rewrite Hready. simpl.
    unfold try_catch, bind, await. by rewrite (withTimeout_late _ _ _ Hlate).
  - intros e Hin Herr.
    unfold get_unread_chats, bind at 1, gets. rewrite Hready. simpl.
    unfold try_catch, bind, await.
    by rewrite (withTimeout_in_time _ _ _ Hin), Herr.
Qed.

End Enrichment.

(** ** [download-all-files] *)

Section BulkDownload.
Context `{Externals}.

Lemma set_fs_logged disk es s : set_fs disk (logged es s) = logged es (set_fs disk s).
Proof. done. Qed.

Lemma bulk_entry_err msg e :
  ~ bulk_downloadable msg -> bulk_entry (BulkErr (msg_id msg) e) msg.
Proof.
  intros Hno. split; [done|]. split; [|by intros d [=]].
  split; [by intros [? [=]]|done].
Qed.

Lemma download_each_run total i msgs s :
  exists rs es disk,
    download_each total i msgs s = (Ok rs, logged es (set_fs disk s))
    /\ Forall2 bulk_entry rs msgs
    /\ sent es = imap (fun j m => IpcBulkProgress (i + j + 1) total (msg_id m)) msgs
    /\ (forall p, is_Some (fs s !! p) -> is_Some (disk !! p))
    /\ (forall r d, r ∈ rs -> bulk_saved r = Some d -> is_Some (disk !! dl_localPath d)).
Proof.
  revert i s. induction msgs as [|msg msgs IH]; intros i s.
  { exists [], [], (fs s). simpl. unfold ret. rewrite set_fs_same, logged_nil.
    split; [done|]. split; [constructor|]. split; [done|]. split; [done|].
    intros r d Hr. by apply elem_of_nil in Hr. }
  assert (Hround : exists r disk1,
    let s1 := logged [Send (IpcBulkProgress (i + 1) total (msg_id msg));
                      Backend_call (CDownloadMedia (msg_id msg))] (set_fs disk1 s) in
    download_each total i (msg :: msgs) s
    = bind (download_each total (i + 1) msgs) (fun rs => ret (r :: rs)) s1
    /\ bulk_entry r msg
    /\ (forall p, is_Some (fs s !! p) -> is_Some (disk1 !! p))
    /\ (forall d, bulk_saved r = Some d -> is_Some (disk1 !! dl_localPath d))).
  { cbn [download_each]. unfold bind at 1, send, modify, emit.
    unfold bind at 1, try_catch, bind at 1, await, emit. rewrite logged_logged.
    cbn [app].
    destruct (outcome (msg_downloadMedia msg)) as [[media|]|e] eqn:Hdl.
    - unfold bind at 1, save_media, bind at 1, writeFileSync.
      destruct (write_error (download_path (msg_id msg) (bulk_fileName msg media)))
        as [e|] eqn:Hw.
      + exists (BulkErr (msg_id msg) e), (fs s). rewrite set_fs_same.
        split; [reflexivity|]. split; [|split; [done|by intros d [=]]].
        apply bulk_entry_err. intros (media' & Hm & Hw'). congruence.
      + eexists (BulkOk (msg_id msg) _),
          (<[download_path (msg_id msg) (bulk_fileName msg media)
             := base64_decode (media_data media)]> (fs s)).
        split; [reflexivity|]. split; [|split].
        * split; [done|]. split.
          -- split; [intros _; by exists media|intros _; by eexists].
          -- by intros d [= <-].
        * intros p [x Hp].
          destruct (decide (download_path (msg_id msg) (bulk_fileName msg media) = p))
            as [->|Hne].
          -- rewrite lookup_insert_eq. by eexists.
          -- rewrite lookup_insert_ne by done. by eexists.
        * intros d [= <-]. simpl. rewrite lookup_insert_eq. by eexists.
    - exists (BulkErr (msg_id msg) "Failed to download"), (fs s). rewrite set_fs_same.
      split; [reflexivity|]. split; [|split; [done|by intros d [=]]].
      apply bulk_entry_err. intros (media' & Hm & _). congruence.
    - exists (BulkErr (msg_id msg) e), (fs s). rewrite set_fs_same.
      split; [reflexivity|]. split; [|split; [done|by intros d [=]]].
      apply bulk_entry_err. intros (media' & Hm & _). congruence. }
  destruct Hround as (r & disk1 & Hrun & Hentry & Hkeep & Hsaved).
  cbv zeta in Hrun.
  destruct (IH (i + 1)%nat
              (logged [Send (IpcBulkProgress (i + 1) total (msg_id msg));
                       Backend_call (CDownloadMedia (msg_id msg))] (set_fs disk1 s)))
    as (rs & es & disk & Hrest & Hall & Hsent & Hkeep' & Hsaved').
  exists (r :: rs),
    ([Send (IpcBulkProgress (i + 1) total (msg_id msg));
      Backend_call (CDownloadMedia (msg_id msg))] ++ es), disk.
  split; [|split; [|split; [|split]]].
  - rewrite Hrun. unfold bind, ret. rewrite Hrest.
    by rewrite set_fs_logged, logged_logged.
  - by constructor.
  - rewrite sent_app, Hsent, imap_cons. unfold sent. cbn [omap list_omap app].
    f_equal; [f_equal; lia|].
    apply imap_ext. intros j m _. simpl. f_equal. lia.
  - intros p Hp. apply Hkeep'. simpl. by apply Hkeep.
  - intros r' d Hin Hd. apply elem_of_cons in Hin as [->|Hin].
    + apply Hkeep'. simpl. by apply Hsaved.
    + by apply (Hsaved' r').
Qed.

Lemma download_all_files_run B chatId s chat messages :
  isClientReady s = true ->
  outcome (getChatById B chatId) = Ok chat ->
  outcome (chat_fetchMessages chat 100) = Ok messages ->
  let media := filter (fun m => msg_hasMedia m = true) messages in
  exists results es disk,
    download_all_files B chatId s
    = (Ok (RValue results),
       logged ([Backend_call (CGetChatById chatId);
                Backend_call (CFetchMessages chatId 100)] ++ es) (set_fs disk s))
    /\ Forall2 bulk_entry results media
    /\ sent es = imap (fun j m => IpcBulkProgress (j + 1) (length media) (msg_id m)) media
    /\ (forall p, is_Some (fs s !! p) -> is_Some (disk !! p))
    /\ (forall r d, r ∈ results -> bulk_saved r = Some d ->
          is_Some (disk !! dl_localPath d)).
Proof.
  intros Hready Hchat Hfetch media.
  destruct (download_each_run (length media) 0 media
              (logged [Backend_call (CGetChatById chatId);
                       Backend_call (CFetchMessages chatId 100)] s))
    as (rs & es & disk & Hrun & Hall & Hsent & Hkeep & Hsaved).
  exists rs, es, disk. split; [|split; [exact Hall|split; [exact Hsent|split]]].
  - unfold download_all_files, bind at 1, gets. rewrite Hready. simpl.
    unfold try_catch, bind at 1, await. rewrite Hchat.
    unfold bind at 1. rewrite Hfetch. unfold emit. rewrite logged_logged.
    cbn [app]. fold media. unfold bind, ret. rewrite Hrun.
    by rewrite set_fs_logged, logged_logged.
  - exact Hkeep.
  - exact Hsaved.
Qed.

(** X4: once the chat and its last 100 messages are read,
    [download-all-files] answers with one result per message with media,
    in the order of the messages, and never with [{ error }]. The result
    of a message is a success exactly when its own payload arrives and
    its own file can be written: a failure of one download leaves the
    others as they would have been. A success names the path made of
    the downloads directory, the sanitized message id and the file name
    it reports. *)
Theorem download_all_files_answers_per_message
    (B : Backend) (chatId : string) (s : App) (chat : Chat) (messages : list Message) :
  isClientReady s = true ->
  outcome (getChatById B chatId) = Ok chat ->
  outcome (chat_fetchMessages chat 100) = Ok messages ->
  exists results s',
    download_all_files B chatId s = (Ok (RValue results), s')
    /\ Forall2 bulk_entry results (filter (fun m => msg_hasMedia m = true) messages).
Proof.
  intros Hready Hchat Hfetch.
  destruct (download_all_files_run B chatId s chat messages Hready Hchat Hfetch)
    as (results & es & disk & Hrun & Hall & _).
  by eexists _, _.
Qed.

(** X5: [download-all-files] over [n] messages with media sends the
    window exactly [n] messages, all on [download:bulk-progress]: the
    [j]-th carries [current = j], [total = n] and the id of the [j]-th
    message with media, whether or not its download succeeds. *)
Theorem download_all_files_reports_progress
    (B : Backend) (chatId : string) (s : App) (chat : Chat) (messages : list Message) :
  isClientReady s = true ->
  outcome (getChatById B chatId) = Ok chat ->
  outcome (chat_fetchMessages chat 100) = Ok messages ->
  let media := filter (fun m => msg_hasMedia m = true) messages in
  exists reply es,
    fst (download_all_files B chatId s) = Ok reply
    /\ log (snd (download_all_files B chatId s)) = log s ++ es
    /\ sent es = imap (fun j m => IpcBulkProgress (j + 1) (length media) (msg_id m)) media.
Proof.
  intros Hready Hchat Hfetch media.
  destruct (download_all_files_run B chatId s chat messages Hready Hchat Hfetch)
    as (results & es & disk & Hrun & _ & Hsent & _).
  eexists _, _. rewrite Hrun. split; [reflexivity|]. split; [reflexivity|].
  by rewrite sent_app.
Qed.

(** X6: when [download-all-files] returns, every file it reports as
    saved is on disk at the path it reports, and every file that was on
    disk before is still there. *)
Theorem download_all_files_keeps_what_it_saved
    (B : Backend) (chatId : string) (s : App) (chat : Chat) (messages : list Message) :
  isClientReady s = true ->
  outcome (getChatById B chatId) = Ok chat ->
  outcome (chat_fetchMessages chat 100) = Ok messages ->
  exists results s',
    download_all_files B chatId s = (Ok (RValue results), s')
    /\ (forall messageId d, BulkOk messageId d ∈ results ->
          is_Some (fs s' !! dl_localPath d))
    /\ (forall p, is_Some (fs s !! p) -> is_Some (fs s' !! p)).
Proof.
  intros Hready Hchat Hfetch.
  destruct (download_all_files_run B chatId s chat messages Hready Hchat Hfetch)
    as (results & es & disk & Hrun & _ & _ & Hkeep & Hsaved).
  eexists _, _. split; [exact Hrun|]. split.
  - intros messageId d Hin. by apply (Hsaved _ d Hin).
  - exact Hkeep.
Qed.

(** ** [download-file] *)

(** X7: [download-file] always resolves, and what it does to the disk
    and tells the window goes with its answer. A success has written
    exactly the file it reports, after [downloading] and before
    [complete]. An error has left the disk as it was and has never said
    [complete]: the window was told nothing, or [error], or
    [downloading], or [downloading] then [error]. *)
Theorem download_file_writes_only_on_success
    (B : Backend) (now : Z) (messageId chatId : string) (fileName : option string)
    (s : App) :
  exists reply es disk,
    download_file B now messageId chatId fileName s
    = (Ok reply, logged es (set_fs disk s))
    /\ match reply with
       | RValue d =>
           (exists data, disk = <[dl_localPath d := data]> (fs s))
           /\ sent es = [IpcDownloadProgress messageId "downloading";
                         IpcDownloadProgress messageId "complete"]
       | RError _ =>
           disk = fs s
           /\ sent es ∈ [ [];
                          [IpcDownloadProgress messageId "error"];
                          [IpcDownloadProgress messageId "downloading"];
                          [IpcDownloadProgress messageId "downloading";
                           IpcDownloadProgress messageId "error"] ]
       end.
Proof.
  unfold download_file, bind at 1, gets.
  destruct (isClientReady s) eqn:Hready; simpl.
  2:{ exists (RError "WhatsApp not ready"), [], (fs s).
      rewrite set_fs_same, logged_nil. split; [done|]. split; [done|]. by left. }
  unfold try_catch, bind at 1, await, emit.
  destruct (outcome (getChatById B chatId)) as [chat|e] eqn:Hchat.
  2:{ exists (RError e), [Backend_call (CGetChatById chatId);
                          Send (IpcDownloadProgress messageId "error")], (fs s).
      rewrite set_fs_same. unfold bind, send, modify, ret, emit.
      rewrite logged_logged. split; [done|]. split; [done|]. right; by left. }
  unfold bind at 1. rewrite logged_logged. cbn [app].
  destruct (outcome (chat_fetchMessages chat 100)) as [messages|e] eqn:Hfetch.
  2:{ exists (RError e), [Backend_call (CGetChatById chatId);
                          Backend_call (CFetchMessages chatId 100);
                          Send (IpcDownloadProgress messageId "error")], (fs s).
      rewrite set_fs_same. unfold bind, send, modify, ret, emit.
      rewrite logged_logged. split; [done|]. split; [done|]. right; by left. }
  destruct (JS.find _ messages) as [msg|].
  2:{ exists (RError "Message not found"),
        [Backend_call (CGetChatById chatId); Backend_call (CFetchMessages chatId 100)],
        (fs s).
      rewrite set_fs_same. split; [done|]. split; [done|]. by left. }
  destruct (msg_hasMedia msg); simpl.
  2:{ exists (RError "Message has no media"),
        [Backend_call (CGetChatById chatId); Backend_call (CFetchMessages chatId 100)],
        (fs s).
      rewrite set_fs_same. split; [done|]. split; [done|]. by left. }
  unfold bind at 1, send, modify, emit. rewrite logged_logged. cbn [app].
  unfold bind at 1.
  destruct (outcome (msg_downloadMedia msg)) as [[media|]|e] eqn:Hdl;
    rewrite logged_logged; cbn [app].
  - unfold bind at 1, save_media, bind at 1, writeFileSync.
    destruct (write_error (download_path messageId (finalFileName_of fileName media now)))
      as [e|] eqn:Hw.
    + eexists (RError e), _, (fs s). rewrite set_fs_same.
      unfold throw, bind, ret, emit. rewrite logged_logged.
      split; [reflexivity|]. split; [done|]. do 3 right; by left.
    + eexists (RValue _), _,
        (<[download_path messageId (finalFileName_of fileName media now)
           := base64_decode (media_data media)]> (fs s)).
      unfold modify, bind, ret, emit. simpl.
      rewrite !set_fs_logged, !logged_logged.
      split; [reflexivity|]. split; [by eexists|done].
  - eexists (RError "Failed to download media"), _, (fs s). rewrite set_fs_same.
    unfold ret. split; [reflexivity|]. split; [done|]. do 2 right; by left.
  - eexists (RError e), _, (fs s). rewrite set_fs_same.
    unfold bind, ret, emit. rewrite logged_logged.
    split; [reflexivity|]. split; [done|]. do 3 right; by left.
Qed.

End BulkDownload.

(** ** Handlers manage no session *)

Lemma operational_ret {A} (a : A) : operational (ret a).
Proof. intros s. exists [], (fs s). split; [apply frame_refl|constructor]. Qed.

Lemma operational_throw {A} (e : string) : operational (@throw A e).
Proof. intros s. exists [], (fs s). split; [apply frame_refl|constructor]. Qed.

Lemma operational_gets {A} (f : App -> A) : operational (gets f).
Proof. intros s. exists [], (fs s). split; [apply frame_refl|constructor]. Qed.

Lemma operational_send (m : Ipc) :
  is_lifecycle (Send m) = false -> operational (send m).
Proof.
  intros Hm s. exists [Send m], (fs s). split; [by rewrite set_fs_same|].
  by repeat constructor.
Qed.

Lemma operational_await {A} (c : Call) (p : Promise A) :
  is_lifecycle (Backend_call c) = false -> operational (await c p).
Proof.
  intros Hc s. exists [Backend_call c], (fs s). split; [by rewrite set_fs_same|].
  by repeat constructor.
Qed.

Lemma operational_bind {A B} (m : M A) (k : A -> M B) :
  operational m -> (forall a, operational (k a)) -> operational (bind m k).
Proof.
  intros Hm Hk s. unfold bind. destruct (Hm s) as (es & disk & Hs & Hes).
  destruct (m s) as [[a|e] s1]; simpl in Hs; subst s1.
  - destruct (Hk a (logged es (set_fs disk s))) as (es' & disk' & Hk' & Hes').
    exists (es ++ es'), disk'. rewrite Hk', frame_compose.
    split; [done|by apply Forall_app].
  - by exists es, disk.
Qed.

Lemma operational_try_catch {A} (m : M A) (h : string -> M A) :
  operational m -> (forall e, operational (h e)) -> operational (try_catch m h).
Proof.
  intros Hm Hh s. unfold try_catch. destruct (Hm s) as (es & disk & Hs & Hes).
  destruct (m s) as [[a|e] s1]; simpl in Hs; subst s1.
  - by exists es, disk.
  - destruct (Hh e (logged es (set_fs disk s))) as (es' & disk' & Hh' & Hes').
    exists (es ++ es'), disk'. rewrite Hh', frame_compose.
    split; [done|by apply Forall_app].
Qed.

Lemma operational_map_all {A B} (f : A -> M B) (xs : list A) :
  (forall x, operational (f x)) -> operational (map_all f xs).
Proof.
  intros Hf. induction xs as [|x xs IH]; simpl; [apply operational_ret|].
  apply operational_bind; [apply Hf|]. intros y.
  apply operational_bind; [apply IH|]. intros ys. apply operational_ret.
Qed.

Lemma operational_for_each {A B} (f : A -> M (option B)) (xs : list A) :
  (forall x, operational (f x)) -> operational (for_each f xs).
Proof.
  intros Hf. induction xs as [|x xs IH]; simpl; [apply operational_ret|].
  apply operational_bind; [apply Hf|]. intros y.
  apply operational_bind; [apply IH|]. intros ys. apply operational_ret.
Qed.

Section Operations.
Context `{Externals}.

Lemma operational_writeFileSync p data : operational (writeFileSync p data).
Proof.
  unfold writeFileSync. destruct (write_error p); [apply operational_throw|].
  intros s. exists [], (<[p := data]> (fs s)). simpl.
  split; [|constructor]. unfold logged, set_fs; simpl. by rewrite app_nil_r.
Qed.

Lemma operational_unlinkSync p : operational (unlinkSync p).
Proof.
  unfold unlinkSync, existsSync. apply operational_bind; [apply operational_gets|].
  intros present. destruct present; simpl; [|apply operational_throw].
  destruct (unlink_error p); [apply operational_throw|].
  intros s. exists [], (delete p (fs s)). simpl.
  split; [|constructor]. unfold logged, set_fs; simpl. by rewrite app_nil_r.
Qed.

Lemma operational_save_media messageId name media :
  operational (save_media messageId name media).
Proof.
  unfold save_media. apply operational_bind; [apply operational_writeFileSync|].
  intros _. apply operational_ret.
Qed.

Lemma operational_download_each total i msgs : operational (download_each total i msgs).
Proof.
  revert i. induction msgs as [|msg msgs IH]; intros i; simpl; [apply operational_ret|].
  apply operational_bind; [by apply operational_send|]. intros _.
  apply operational_bind.
  - apply operational_try_catch; [|intros e; apply operational_ret].
    apply operational_bind; [by apply operational_await|]. intros [media|].
    + apply operational_bind; [apply operational_save_media|]. intros d.
      apply operational_ret.
    + apply operational_ret.
  - intros r. apply operational_bind; [apply IH|]. intros rs. apply operational_ret.
Qed.

Lemma operational_on_message now msg : operational (on_message now msg).
Proof.
  unfold on_message, auto_download.
  apply operational_try_catch; [|intros e; apply operational_ret].
  apply operational_bind; [by apply operational_await|]. intros chat.
  apply operational_bind; [by apply operational_await|]. intros contact.
  apply operational_bind; [|intros d; by apply operational_send].
  destruct (msg_hasMedia msg); [|apply operational_ret].
  apply operational_try_catch; [|intros e; apply operational_ret].
  apply operational_bind; [by apply operational_await|]. intros [media|];
    [|apply operational_ret].
  apply operational_bind; [apply operational_writeFileSync|]. intros _.
  apply operational_ret.
Qed.

(** A chat/message operation touches the disk and the trace, and what
    it adds to the trace manages no session. *)
Lemma handle_operational B now r s :
  exists es disk,
    handle B now r s = logged es (set_fs disk s)
    /\ Forall (fun e => is_lifecycle e = false) es.
Proof.
  assert (Hguard : forall A (m : M (Reply A)),
    operational m ->
    operational (bind (gets isClientReady) (fun ready =>
      if negb ready then ret (RError "WhatsApp not ready") else m))).
  { intros A m Hm. apply operational_bind; [apply operational_gets|].
    intros ready. destruct ready; simpl; [exact Hm|apply operational_ret]. }
  destruct r; simpl.
  - apply Hguard.
    apply operational_try_catch; [|intros e; apply operational_ret].
    apply operational_bind; [by apply operational_await|]. intros [|c chats].
    + apply operational_ret.
    + apply operational_bind; [|intros rs; apply operational_ret].
      apply operational_map_all. intros x.
      unfold summarize, enrich_contact, last_message_preview.
      apply operational_bind.
      * apply operational_try_catch; [|intros e; apply operational_ret].
        apply operational_bind; [by apply operational_await|]. intros [contact|];
          [|apply operational_ret].
        apply operational_try_catch; [|intros e; apply operational_ret].
        apply operational_bind; [by apply operational_await|]. intros pic.
        apply operational_ret.
      * intros [[savedName whatsappName] pic].
        apply operational_bind; [|intros m; apply operational_ret].
        apply operational_try_catch; [|intros e; apply operational_ret].
        apply operational_bind; [by apply operational_await|]. intros msgs.
        apply operational_ret.
  - apply Hguard.
    apply operational_try_catch; [|intros e; apply operational_ret].
    apply operational_bind; [by apply operational_await|]. intros chats.
    apply operational_bind; [|intros rs; apply operational_ret].
    apply operational_map_all. intros x. unfold summarize_brief.
    apply operational_bind; [|intros name; apply operational_ret].
    apply operational_try_catch; [|intros e; apply operational_ret].
    apply operational_bind; [by apply operational_await|]. intros c.
    apply operational_ret.
  - apply Hguard.
    apply operational_try_catch; [|intros e; apply operational_ret].
    apply operational_bind; [by apply operational_await|]. intros chat.
    apply operational_bind; [by apply operational_await|]. intros messages.
    apply operational_bind; [|intros files; apply operational_ret].
    apply operational_for_each. intros msg. unfold chat_file.
    destruct (msg_hasMedia msg); simpl; [|apply operational_ret].
    apply operational_bind.
    + apply operational_try_catch; [|intros e; apply operational_ret].
      apply operational_bind; [by apply operational_await|]. intros c.
      apply operational_ret.
    + intros sender. apply operational_bind; [apply operational_gets|].
      intros d. apply operational_ret.
  - apply Hguard.
    apply operational_try_catch.
    + apply operational_bind; [by apply operational_await|]. intros chat.
      apply operational_bind; [by apply operational_await|]. intros messages.
      destruct (JS.find _ messages) as [msg|]; [|apply operational_ret].
      destruct (msg_hasMedia msg); simpl; [|apply operational_ret].
      apply operational_bind; [by apply operational_send|]. intros _.
      apply operational_bind; [by apply operational_await|]. intros [media|];
        [|apply operational_ret].
      apply operational_bind; [apply operational_save_media|]. intros d.
      apply operational_bind; [by apply operational_send|]. intros _.
      apply operational_ret.
    + intros e. apply operational_bind; [by apply operational_send|]. intros _.
      apply operational_ret.
  - apply Hguard.
    apply operational_try_catch; [|intros e; apply operational_ret].
    apply operational_bind; [by apply operational_await|]. intros chat.
    apply operational_bind; [by apply operational_await|]. intros messages.
    apply operational_bind; [apply operational_download_each|]. intros rs.
    apply operational_ret.
  - apply Hguard.
    apply operational_try_catch; [|intros e; apply operational_ret].
    apply operational_bind; [by apply operational_await|]. intros chat.
    apply operational_bind; [by apply operational_await|]. intros _.
    apply operational_ret.
  - unfold get_profile_info.
    apply operational_bind; [apply operational_gets|]. intros ready.
    apply operational_bind; [apply operational_gets|]. intros client.
    destruct (negb ready || negb (bool_decide (is_Some client)));
      [apply operational_ret|].
    apply operational_try_catch; [|intros e; apply operational_ret].
    destruct (client_info B) as [info|]; [|apply operational_throw].
    apply operational_bind; [|intros pic; apply operational_ret].
    apply operational_try_catch; [|intros e; apply operational_ret].
    destruct (info_wid info) as [[user serialized]|];
      [by apply operational_await|apply operational_throw].
  - unfold delete_files.
    apply operational_bind.
    + apply operational_map_all. intros p. unfold delete_local, existsSync.
      apply operational_try_catch; [|intros e; apply operational_ret].
      apply operational_bind; [apply operational_gets|]. intros present.
      destruct present; [|apply operational_ret].
      apply operational_bind; [apply operational_unlinkSync|]. intros _.
      apply operational_ret.
    + intros results. apply operational_bind; [|intros wa; apply operational_ret].
      unfold delete_remote_pass.
      apply operational_bind; [apply operational_gets|]. intros ready.
      destruct chatId as [chatId|]; [|apply operational_ret].
      destruct messageIds as [[|msgId msgIds]|]; try apply operational_ret.
      destruct (ready && negb (String.eqb chatId "")); [|apply operational_ret].
      apply operational_try_catch; [|intros e; apply operational_ret].
      apply operational_bind; [by apply operational_await|]. intros chat.
      apply operational_bind; [by apply operational_await|]. intros messages.
      apply operational_map_all. intros x. unfold delete_remote.
      apply operational_try_catch; [|intros e; apply operational_ret].
      destruct (JS.find _ messages) as [msg|]; [|apply operational_ret].
      apply operational_bind; [by apply operational_await|]. intros _.
      apply operational_ret.
Qed.

End Operations.

(** ** The session supervisor, under any interleaving *)

Section SupervisorSafety.
Context `{Externals}.

Lemma ready_destroy_current s : isClientReady (destroy_current s) = isClientReady s.
Proof. unfold destroy_current. by destruct (whatsappClient s). Qed.

Lemma ready_doRetry c s : isClientReady (doRetry c s) = isClientReady s.
Proof.
  unfold doRetry. destruct (attempts s !! c) as [a|]; [|done].
  destruct (retryTriggered a); [done|]. by rewrite ready_destroy_current.
Qed.

Lemma ready_doRetry_resume c s : isClientReady (doRetry_resume c s) = isClientReady s.
Proof.
  unfold doRetry_resume. destruct (attempts s !! c) as [a|]; [|done].
  destruct (retry_waiting a); [|done].
  destruct (attempt a <? 3)%nat; [|done].
  by destruct (eventReceived a).
Qed.

Lemma ready_handle B now r s : isClientReady (handle B now r s) = isClientReady s.
Proof. destruct (handle_frame B now r s) as (es & disk & ->). done. Qed.

Lemma ready_on_event c e s :
  isClientReady (on_event c e s) = true -> isClientReady s = true \/ e = EvReady.
Proof.
  destruct e as [qr| | |percent message|reason|reason|now msg]; simpl; try done; auto.
  - destruct (qr_toDataURL qr); auto.
  - destruct (on_message_frame now msg s) as (es & disk & ->). auto.
Qed.

Lemma ready_logout_resume i r s :
  isClientReady (logout_resume i r s) = true -> isClientReady s = true.
Proof.
  unfold logout_resume.
  destruct (logouts_waiting s !! i) as [[]|]; try destruct r;
    simpl; rewrite ?ready_destroy_current; try done; auto.
Qed.

Lemma ready_step s i :
  isClientReady (step s i) = true ->
  isClientReady s = true \/ exists c, i = ClientEmits c EvReady /\ c ∈ alive s.
Proof.
  destruct i as [c0 e|c0|c0 e|c0|c0| |r| |j r|B now r]; simpl.
  - destruct (bool_decide (c0 ∈ alive s)) eqn:Hal; [|auto].
    apply bool_decide_eq_true in Hal. intros Hr.
    apply ready_on_event in Hr as [Hr| ->]; [auto|]. right. by exists c0.
  - destruct (attempts s !! c0) as [a0|]; [|auto].
    destruct (init_pending a0); auto.
  - destruct (attempts s !! c0) as [a0|]; [|auto].
    destruct (init_pending a0); [|auto]. rewrite ready_doRetry. auto.
  - destruct (attempts s !! c0) as [a0|]; [|auto].
    destruct (timer_armed a0); [|auto].
    destruct (eventReceived a0); [auto|]. rewrite ready_doRetry. auto.
  - rewrite ready_doRetry_resume. auto.
  - destruct (whatsappClient s); simpl; [|done].
    rewrite ready_destroy_current. auto.
  - destruct (reconnects_waiting s); [auto|]. destruct r; simpl; [done|auto].
  - destruct (whatsappClient s); simpl; [auto|done].
  - intros Hr. left. by apply ready_logout_resume in Hr.
  - rewrite ready_handle. auto.
Qed.

(** X8: [isClientReady] is true only by a [ready] event of a client that
    is alive when it emits it: after any run, from a state where the
    flag is false, a true flag means such an event is among the
    callbacks that ran, and since the last of them neither a
    disconnection nor a logout nor a completed reconnect has cleared
    it. *)
Theorem ready_flag_needs_a_ready_event (s : App) (inputs : list Input) :
  isClientReady s = false ->
  isClientReady (run s inputs) = true ->
  exists pre c post,
    inputs = pre ++ ClientEmits c EvReady :: post
    /\ c ∈ alive (run s pre)
    /\ forall k, (k <= length post)%nat ->
         isClientReady (run s (pre ++ ClientEmits c EvReady :: take k post)) = true.
Proof.
  induction inputs as [|i inputs IH] using rev_ind; intros Hs Hr; [simpl in Hr; congruence|].
  rewrite run_snoc in Hr.
  destruct (isClientReady (run s inputs)) eqn:Hprev.
  - destruct (IH Hs eq_refl) as (pre & c & post & -> & Hal & Hkeep).
    exists pre, c, (post ++ [i]). split; [by rewrite <- app_assoc|]. split; [done|].
    intros k Hk. rewrite length_app in Hk. simpl in Hk.
    destruct (decide (k <= length post)%nat) as [Hle|Hgt].
    + rewrite take_app_le by done. by apply Hkeep.
    + rewrite take_ge by (rewrite length_app; simpl; lia).
      replace (pre ++ ClientEmits c EvReady :: post ++ [i])
        with ((pre ++ ClientEmits c EvReady :: post) ++ [i])
        by (by rewrite <- app_assoc).
      by rewrite run_snoc.
  - apply ready_step in Hr as [Hr|(c & -> & Hal)]; [congruence|].
    exists inputs, c, []. split; [done|]. split; [done|].
    intros k _. rewrite take_nil. rewrite run_snoc. simpl.
    rewrite bool_decide_eq_true_2 by done. done.
Qed.

(** *** Where the fatal error and the removal of the session come from *)

Lemma lifecycle_calm es :
  Forall (fun e => is_lifecycle e = false) es -> Forall calm es.
Proof.
  intros Hall. eapply Forall_impl; [exact Hall|].
  intros [[]|[]| | | | |]; simpl; try done.
Qed.

Lemma calm_destroy_current s :
  exists es, log (destroy_current s) = log s ++ es /\ Forall calm es.
Proof.
  rewrite log_destroy_current. eexists. split; [reflexivity|].
  destruct (whatsappClient s); by repeat constructor.
Qed.

Lemma calm_doRetry c s :
  exists es, log (doRetry c s) = log s ++ es /\ Forall calm es.
Proof.
  unfold doRetry. destruct (attempts s !! c) as [a|];
    [|exists []; by rewrite app_nil_r].
  destruct (retryTriggered a); [exists []; by rewrite app_nil_r|].
  exact (calm_destroy_current (on_attempt c retry_begun s)).
Qed.

Lemma calm_on_event c e s :
  exists es, log (on_event c e s) = log s ++ es /\ Forall calm es.
Proof.
  destruct e as [qr| | |percent message|reason|reason|now msg]; simpl;
    try (eexists; split; [reflexivity|by repeat constructor]).
  - destruct (qr_toDataURL qr); simpl.
    + eexists; split; [reflexivity|by repeat constructor].
    + exists []. by rewrite app_nil_r.
  - destruct (operational_on_message now msg s) as (es & disk & -> & Hes).
    exists es. split; [done|by apply lifecycle_calm].
Qed.

(** Apart from the resumption of [doRetry] and from [logout-whatsapp],
    no callback removes the session or reports the fatal error. *)
Lemma step_calm s i :
  (forall c, i <> RetryResumed c) ->
  (forall j r, i <> LogoutResumed j r) ->
  i <> LogoutInvoked ->
  Forall calm (step_effects s i).
Proof.
  intros Hretry Hresume Hlogout.
  assert (Hes : exists es, log (step s i) = log s ++ es /\ Forall calm es).
  { destruct i as [c0 e|c0|c0 e|c0|c0| |r| |j r|B now r]; simpl.
    - destruct (bool_decide _); [apply calm_on_event|].
      exists []. by rewrite app_nil_r.
    - destruct (attempts s !! c0) as [a0|]; [|exists []; by rewrite app_nil_r].
      destruct (init_pending a0); [|exists []; by rewrite app_nil_r].
      eexists; split; [reflexivity|by repeat constructor].
    - destruct (attempts s !! c0) as [a0|]; [|exists []; by rewrite app_nil_r].
      destruct (init_pending a0); [|exists []; by rewrite app_nil_r].
      destruct (calm_doRetry c0 (emit (ClearInitTimer c0) (on_attempt c0 init_settled s)))
        as (es & -> & Hcalm).
      exists (ClearInitTimer c0 :: es). simpl. rewrite <- app_assoc.
      split; [done|]. by constructor.
    - destruct (attempts s !! c0) as [a0|]; [|exists []; by rewrite app_nil_r].
      destruct (timer_armed a0); [|exists []; by rewrite app_nil_r].
      destruct (eventReceived a0); [exists []; simpl; by rewrite app_nil_r|].
      apply (calm_doRetry c0 (on_attempt c0 timer_gone s)).
    - by destruct (Hretry c0).
    - destruct (whatsappClient s) eqn:Hc.
      + simpl. apply calm_destroy_current.
      + simpl. rewrite <- !app_assoc.
        eexists; split; [reflexivity|by repeat constructor].
    - destruct (reconnects_waiting s); [exists []; by rewrite app_nil_r|].
      destruct r as [[]|e]; simpl.
      + rewrite <- !app_assoc. eexists; split; [reflexivity|by repeat constructor].
      + exists []. by rewrite app_nil_r.
    - done.
    - by destruct (Hresume j r).
    - destruct (handle_operational B now r s) as (es & disk & -> & Hes).
      exists es. split; [done|by apply lifecycle_calm]. }
  destruct Hes as (es & Hlog & Hcalm). by rewrite (step_effects_app _ _ _ Hlog).
Qed.

Lemma retry_resumed_effects s c a :
  attempts s !! c = Some a ->
  retry_waiting a = true ->
  let n := length (attempts s) in
  step_effects s (RetryResumed c)
  = if (attempt a <? 3)%nat
    then (if eventReceived a then [] else [RmAuth])
         ++ [CleanupStaleLockFiles; Send (IpcStatus "retrying");
             Backend_call (CNew n); SetInitTimer n INIT_TIMEOUT_MS;
             Backend_call (CInitialize n)]
    else [Send (IpcStatus "error");
          Send (IpcError
            "Failed to start WhatsApp after multiple attempts. Please restart the app.")].
Proof.
  intros Ha Hw n. apply step_effects_app. simpl. unfold doRetry_resume.
  rewrite Ha, Hw.
  destruct (attempt a <? 3)%nat; [|simpl; by rewrite <- !app_assoc].
  destruct (eventReceived a); simpl; rewrite length_alter, <- !app_assoc; done.
Qed.

Lemma retry_resumed_idle s c :
  (forall a, attempts s !! c = Some a -> retry_waiting a = false) ->
  step_effects s (RetryResumed c) = [].
Proof.
  intros Hidle. apply step_effects_idle. simpl. unfold doRetry_resume.
  destruct (attempts s !! c) as [a|] eqn:Ha; [|done]. by rewrite (Hidle a).
Qed.

Lemma logout_invoked_effects s :
  step_effects s LogoutInvoked
  = match whatsappClient s with
    | Some g => [Backend_call (CLogout g)]
    | None => [RmAuth; Send (IpcStatus "logged_out"); SetReinitTimer 1000]
    end.
Proof.
  apply step_effects_app. simpl.
  destruct (whatsappClient s); simpl; by rewrite <- ?app_assoc.
Qed.

Lemma logout_resumed_never_fatal s j r :
  Forall (fun e => is_fatal e = false) (step_effects s (LogoutResumed j r)).
Proof.
  assert (Hes : exists es, log (step s (LogoutResumed j r)) = log s ++ es
                           /\ Forall (fun e => is_fatal e = false) es).
  { simpl. unfold logout_resume.
    destruct (logouts_waiting s !! j) as [[]|]; try destruct r as [[]|e];
      simpl; rewrite ?log_destroy_current, <- ?app_assoc;
      try (exists []; by rewrite app_nil_r);
      try (eexists; split; [reflexivity|]; destruct (whatsappClient s);
           by repeat constructor). }
  destruct Hes as (es & Hlog & Hes). by rewrite (step_effects_app _ _ _ Hlog).
Qed.

(** X9: whatever the interleaving, the stored session is removed by two
    things only: by [logout-whatsapp], and by the resumption of the
    retry of an attempt numbered below 3 during which none of [qr],
    [authenticated], [ready], [auth_failure] was seen. A retry after an
    attempt that saw one of them keeps the session. *)
Theorem session_removed_only_by_logout_or_eventless_retry (s : App) (i : Input) :
  RmAuth ∈ step_effects s i ->
  (i = LogoutInvoked /\ whatsappClient s = None)
  \/ (exists j r, i = LogoutResumed j r)
  \/ exists c a,
       i = RetryResumed c
       /\ attempts s !! c = Some a
       /\ retry_waiting a = true
       /\ eventReceived a = false
       /\ (attempt a < 3)%nat.
Proof.
  intros Hin.
  destruct i as [c0 e|c0|c0 e|c0|c0| |r| |j r|B now r];
    try (exfalso;
         match type of Hin with
         | _ ∈ step_effects _ ?i =>
             pose proof (step_calm s i ltac:(done) ltac:(done) ltac:(done)) as Hcalm
         end;
         rewrite Forall_forall in Hcalm; by destruct (Hcalm _ Hin) as [[=] _]).
  - right; right.
    destruct (attempts s !! c0) as [a|] eqn:Ha;
      [|rewrite retry_resumed_idle in Hin by (intros a; congruence);
        by apply elem_of_nil in Hin].
    destruct (retry_waiting a) eqn:Hw;
      [|rewrite retry_resumed_idle in Hin by (intros a'; congruence);
        by apply elem_of_nil in Hin].
    rewrite (retry_resumed_effects s c0 a Ha Hw) in Hin.
    exists c0, a. split; [done|]. split; [done|]. split; [done|].
    destruct (Nat.ltb_spec (attempt a) 3) as [Hlt|Hge].
    + split; [|done]. destruct (eventReceived a); [|done].
      simpl in Hin. repeat (apply elem_of_cons in Hin as [Hin|Hin]; [done|]).
      by apply elem_of_nil in Hin.
    + repeat (apply elem_of_cons in Hin as [Hin|Hin]; [done|]).
      by apply elem_of_nil in Hin.
  - left. split; [done|]. rewrite logout_invoked_effects in Hin.
    destruct (whatsappClient s); [|done].
    by apply list_elem_of_singleton in Hin.
  - right; left. by exists j, r.
Qed.

(** *** Attempt numbers *)

Lemma new_attempt_number s i a' :
  attempts (step s i) !! length (attempts s) = Some a' ->
  a' = new_attempt 1
  \/ exists c a, attempts s !! c = Some a /\ (attempt a < 3)%nat
                  /\ a' = new_attempt (attempt a + 1).
Proof.
  assert (Hnone : forall l : list Attempt,
    length l = length (attempts s) -> l !! length (attempts s) = Some a' -> False).
  { intros l Hl Hlook. apply lookup_lt_Some in Hlook. lia. }
  assert (Hlast : forall (l : list Attempt) x,
    length l = length (attempts s) ->
    (l ++ [x]) !! length (attempts s) = Some a' -> a' = x).
  { intros l x Hl Hlook. rewrite <- Hl in Hlook.
    rewrite list_lookup_middle in Hlook by done. congruence. }
  destruct i as [c0 e|c0|c0 e|c0|c0| |r| |j r|B now r]; simpl.
  - destruct (bool_decide _); [|intros Hl; by destruct (Hnone _ eq_refl Hl)].
    rewrite attempts_on_event. destruct (marks e); intros Hl; exfalso;
      eapply Hnone; try exact Hl; by rewrite ?length_alter.
  - destruct (attempts s !! c0) as [a0|]; [|intros Hl; by destruct (Hnone _ eq_refl Hl)].
    destruct (init_pending a0); simpl; intros Hl; exfalso;
      eapply Hnone; try exact Hl; by rewrite ?length_alter.
  - destruct (attempts s !! c0) as [a0|] eqn:Ha0;
      [|intros Hl; by destruct (Hnone _ eq_refl Hl)].
    destruct (init_pending a0); [|intros Hl; by destruct (Hnone _ eq_refl Hl)].
    rewrite attempts_doRetry. simpl. rewrite list_lookup_alter_eq, Ha0. simpl.
    destruct (retryTriggered a0); intros Hl; exfalso;
      eapply Hnone; try exact Hl; by rewrite ?length_alter.
  - destruct (attempts s !! c0) as [a0|] eqn:Ha0;
      [|intros Hl; by destruct (Hnone _ eq_refl Hl)].
    destruct (timer_armed a0); [|intros Hl; by destruct (Hnone _ eq_refl Hl)].
    destruct (eventReceived a0).
    + simpl. intros Hl; exfalso; eapply Hnone; try exact Hl; by rewrite ?length_alter.
    + rewrite attempts_doRetry. simpl. rewrite list_lookup_alter_eq, Ha0. simpl.
      destruct (retryTriggered a0); intros Hl; exfalso;
        eapply Hnone; try exact Hl; by rewrite ?length_alter.
  - rewrite attempts_doRetry_resume.
    destruct (attempts s !! c0) as [a0|] eqn:Ha0;
      [|intros Hl; by destruct (Hnone _ eq_refl Hl)].
    destruct (retry_waiting a0); [|intros Hl; by destruct (Hnone _ eq_refl Hl)].
    destruct (Nat.ltb_spec (attempt a0) 3) as [Hlt|Hge].
    + intros Hl. apply Hlast in Hl; [|by rewrite length_alter].
      right. by exists c0, a0.
    + intros Hl; exfalso; eapply Hnone; try exact Hl; by rewrite ?length_alter.
  - destruct (whatsappClient s); simpl.
    + rewrite attempts_destroy_current. intros Hl; by destruct (Hnone _ eq_refl Hl).
    + intros Hl. left. by apply (Hlast (attempts s)).
  - destruct (reconnects_waiting s); [intros Hl; by destruct (Hnone _ eq_refl Hl)|].
    destruct r as [[]|e]; simpl.
    + intros Hl. left. by apply (Hlast (attempts s)).
    + intros Hl; by destruct (Hnone _ eq_refl Hl).
  - destruct (whatsappClient s); simpl; intros Hl; by destruct (Hnone _ eq_refl Hl).
  - destruct (attempts_logout_resume j r s) as [->| ->].
    + intros Hl; by destruct (Hnone _ eq_refl Hl).
    + intros Hl. left. by apply (Hlast (attempts s)).
  - rewrite attempts_handle. intros Hl; by destruct (Hnone _ eq_refl Hl).
Qed.

Lemma transition_attempt s i c a a' : transition s i c a a' -> attempt a' = attempt a.
Proof. by destruct 1. Qed.

Lemma attempt_numbers_step s i :
  (forall c a, attempts s !! c = Some a -> (1 <= attempt a <= 3)%nat) ->
  forall c a, attempts (step s i) !! c = Some a -> (1 <= attempt a <= 3)%nat.
Proof.
  intros Hinv c a' Hc.
  destruct (step_transition s i c a' Hc) as [(a & Ha & Htr)|(_ & -> & _)].
  - rewrite (transition_attempt _ _ _ _ _ Htr). by apply (Hinv c).
  - destruct (new_attempt_number s i a' Hc) as [->|(c0 & a0 & Ha0 & Hlt & ->)]; simpl.
    + lia.
    + pose proof (Hinv c0 a0 Ha0). lia.
Qed.

Lemma attempt_numbers_run disk inputs c a :
  attempts (run (boot disk) inputs) !! c = Some a -> (1 <= attempt a <= 3)%nat.
Proof.
  revert c a. induction inputs as [|i inputs IH] using rev_ind; intros c a.
  - destruct c as [|c]; [|done]. simpl. intros [= <-]. simpl. lia.
  - rewrite run_snoc. by apply attempt_numbers_step.
Qed.

(** X10: from start-up and under any interleaving of events, timers,
    rejections, reconnects, logouts and operations, every
    initialization attempt is numbered 1, 2 or 3, and the window is told
    that the application has given up (the [error] status, the fatal
    message) by one callback only: the resumption of the retry of an
    attempt numbered 3. *)
Theorem gives_up_only_after_a_third_attempt
    (disk : gmap string string) (inputs : list Input) (i : Input) (e : Effect) :
  let s := run (boot disk) inputs in
  (forall c a, attempts s !! c = Some a -> (1 <= attempt a <= 3)%nat)
  /\ (is_fatal e = true ->
      e ∈ step_effects s i ->
      exists c a,
        i = RetryResumed c
        /\ attempts s !! c = Some a
        /\ retry_waiting a = true
        /\ attempt a = 3%nat).
Proof.
  intros s. split; [apply attempt_numbers_run|]. intros Hfatal Hin.
  destruct i as [c0 e0|c0|c0 e0|c0|c0| |r| |j r|B now r];
    try (exfalso;
         match type of Hin with
         | _ ∈ step_effects _ ?i =>
             pose proof (step_calm s i ltac:(done) ltac:(done) ltac:(done)) as Hcalm
         end;
         rewrite Forall_forall in Hcalm; destruct (Hcalm _ Hin); congruence).
  - destruct (attempts s !! c0) as [a|] eqn:Ha;
      [|rewrite retry_resumed_idle in Hin by (intros a; congruence);
        by apply elem_of_nil in Hin].
    destruct (retry_waiting a) eqn:Hw;
      [|rewrite retry_resumed_idle in Hin by (intros a'; congruence);
        by apply elem_of_nil in Hin].
    rewrite (retry_resumed_effects s c0 a Ha Hw) in Hin.
    exists c0, a. split; [done|]. split; [done|]. split; [done|].
    pose proof (attempt_numbers_run disk inputs c0 a Ha) as Hrange.
    destruct (Nat.ltb_spec (attempt a) 3) as [Hlt|Hge]; [|lia].
    exfalso. destruct (eventReceived a); simpl in Hin;
      repeat (apply elem_of_cons in Hin as [->|Hin]; [done|]);
      by apply elem_of_nil in Hin.
  - rewrite logout_invoked_effects in Hin. exfalso.
    destruct (whatsappClient s);
      repeat (apply elem_of_cons in Hin as [->|Hin]; [done|]);
      by apply elem_of_nil in Hin.
  - exfalso. pose proof (logout_resumed_never_fatal s j r) as Hno.
    rewrite Forall_forall in Hno. specialize (Hno _ Hin). congruence.
Qed.

(** *** [logout-whatsapp] *)

Lemma filter_twice {A} (P : A -> Prop) `{forall x, Decision (P x)} (l : list A) :
  filter P (filter P l) = filter P l.
Proof.
  induction l as [|x l IH]; [done|]. rewrite filter_cons.
  destruct (decide (P x)) as [Hx|Hx]; [|done].
  rewrite filter_cons, decide_True by done. by rewrite IH.
Qed.

Lemma logout_resume_last s lw st r :
  logouts_waiting s = lw ++ [st] ->
  logout_resume (length lw) r s
  = match st with
    | AwaitLogout =>
        set_logouts (lw ++ [match r with Ok _ => AwaitDestroy | Err _ => AwaitDestroyCatch end])
          (destroy_current s)
    | AwaitDestroy =>
        match r with
        | Ok _ => set_logouts (lw ++ [AwaitReinit]) (logout_finish s)
        | Err _ => set_logouts (lw ++ [AwaitDestroyCatch]) (destroy_current s)
        end
    | AwaitDestroyCatch => set_logouts (lw ++ [AwaitReinit]) (logout_finish s)
    | AwaitReinit => initWhatsApp 1 (set_logouts (lw ++ [LogoutDone]) s)
    | LogoutDone => s
    end.
Proof.
  intros Hlw.
  assert (Hins : forall x s0, logouts_waiting s0 = lw ++ [st] ->
    <[length lw := x]> (logouts_waiting s0) = lw ++ [x]).
  { intros x s0 ->. rewrite insert_app_r_alt by lia. by rewrite Nat.sub_diag. }
  assert (Hd : logouts_waiting (destroy_current s) = lw ++ [st]).
  { unfold destroy_current. by destruct (whatsappClient s). }
  unfold logout_resume. rewrite Hlw, list_lookup_middle by done.
  destruct st, r; rewrite <- ?Hlw, ?(Hins _ (destroy_current s) Hd),
    ?(Hins _ (logout_finish s) Hlw), ?(Hins _ s Hlw); reflexivity.
Qed.

(** X11: [logout-whatsapp] on a running client comes to the same end
    whatever [logout()] and [destroy()] do, resolve or reject: the ready
    flag is cleared, the stored session is removed once, the window is
    told [logged_out], and after the 1 s timer a fresh client is
    constructed for attempt 1 and becomes the current one. The old
    client is no longer alive and the disk of downloads is untouched. *)
Theorem logout_always_ends_in_a_fresh_attempt
    (s : App) (g : nat) (r1 r2 r3 r4 : Res unit) :
  whatsappClient s = Some g ->
  let i := length (logouts_waiting s) in
  let n := length (attempts s) in
  let s' := run s [LogoutInvoked; LogoutResumed i r1; LogoutResumed i r2;
                   LogoutResumed i r3; LogoutResumed i r4] in
  logouts_waiting s' = logouts_waiting s ++ [LogoutDone]
  /\ isClientReady s' = false
  /\ whatsappClient s' = Some n
  /\ attempts s' = attempts s ++ [new_attempt 1]
  /\ alive s' = filter (fun c => c ≠ g) (alive s) ++ [n]
  /\ filter (fun e => is_rmAuth e || is_status e || is_new_client e)
       (drop (length (log s)) (log s'))
     = [RmAuth; Send (IpcStatus "logged_out"); Backend_call (CNew n)]
  /\ fs s' = fs s.
Proof.
  intros Hg i n s'. subst s' i n.
  destruct s as [cl rd att al rc lw disk lg]. simpl in Hg. subst cl.
  unfold run. cbn [foldl]. cbn [step whatsappClient emit logged set_logouts logouts_waiting].
  rewrite (logout_resume_last _ lw AwaitLogout r1) by done.
  destruct r1 as [[]|e1].
  - rewrite (logout_resume_last _ lw AwaitDestroy r2) by done.
    destruct r2 as [[]|e2].
    + rewrite (logout_resume_last _ lw AwaitReinit r3) by done.
      rewrite (logout_resume_last _ lw LogoutDone r4) by done.
      cbn. rewrite <- !app_assoc, drop_app_length.
      repeat split; try done.
    + rewrite (logout_resume_last _ lw AwaitDestroyCatch r3) by done.
      rewrite (logout_resume_last _ lw AwaitReinit r4) by done.
      cbn. rewrite <- !app_assoc, drop_app_length, filter_twice.
      repeat split; try done.
  - rewrite (logout_resume_last _ lw AwaitDestroyCatch r2) by done.
    rewrite (logout_resume_last _ lw AwaitReinit r3) by done.
    rewrite (logout_resume_last _ lw LogoutDone r4) by done.
    cbn. rewrite <- !app_assoc, drop_app_length.
    repeat split; try done.
Qed.

End SupervisorSafety.

(** ** [cleanupStaleLockFiles] *)

Section LockFiles.
Import Cleanup.
Context `{Externals}.
Variable readdir_fails : string -> bool.

Lemma flat_map_compose {A B C} (f : A -> list B) (g : B -> list C) (l : list A) :
  flat_map g (flat_map f l) = flat_map (fun x => flat_map g (f x)) l.
Proof.
  induction l as [|x l IH]; [done|]. simpl. by rewrite flat_map_app, IH.
Qed.

Lemma flat_map_ext_Forall {A B} (f g : A -> list B) (l : list A) :
  Forall (fun x => f x = g x) l -> flat_map f l = flat_map g l.
Proof. induction 1 as [|x l Hx _ IH]; [done|]. simpl. by rewrite Hx, IH. Qed.

Lemma flat_map_nil_Forall {A B} (f : A -> list B) (l : list A) :
  Forall (fun x => f x = []) l -> flat_map f l = [].
Proof. induction 1 as [|x l Hx _ IH]; [done|]. simpl. by rewrite Hx, IH. Qed.

Lemma visit_keeps_the_rest entry :
  forall dir,
    flat_map (without lockNames) (visit readdir_fails dir entry)
    = without lockNames entry.
Proof.
  induction entry as [name|name entries IH] using Entry_induction; intros dir; simpl.
  - unfold is_lock.
    destruct (bool_decide (name ∈ lockNames)) eqn:Hlock; simpl; [|by rewrite Hlock].
    destruct (unlink_error (path_join dir name)); simpl; [by rewrite Hlock|done].
  - destruct (readdir_fails (path_join dir name)); [done|].
    rewrite flat_map_compose. do 2 f_equal.
    apply flat_map_ext_Forall.
    eapply Forall_impl; [exact IH|]. intros entry Hentry. apply Hentry.
Qed.

(** X12: whatever fails along the way, [cleanupStaleLockFiles] removes
    nothing but files named [SingletonLock], [SingletonCookie] or
    [SingletonSocket]: with those taken out, the session directory is
    the same before and after, in its directories, its other files and
    their order. *)
Theorem cleanup_removes_nothing_but_lock_files
    (userData : string) (entries : list Entry) :
  exists entries',
    cleanupStaleLockFiles readdir_fails userData (Some entries) = Some entries'
    /\ flat_map (without ["SingletonLock"; "SingletonCookie"; "SingletonSocket"])
         entries'
       = flat_map (without ["SingletonLock"; "SingletonCookie"; "SingletonSocket"])
           entries.
Proof.
  change ["SingletonLock"; "SingletonCookie"; "SingletonSocket"] with lockNames.
  eexists. split; [reflexivity|]. unfold walk.
  destruct (readdir_fails (path_join userData ".wwebjs_auth")); [done|].
  rewrite flat_map_compose. apply flat_map_ext_Forall.
  apply Forall_forall. intros entry _. apply visit_keeps_the_rest.
Qed.

Lemma visit_all_removed entry :
  (forall p, readdir_fails p = false) ->
  (forall p, unlink_error p = None) ->
  forall dir, visit readdir_fails dir entry = without lockNames entry.
Proof.
  intros Hread Hunlink.
  induction entry as [name|name entries IH] using Entry_induction; intros dir; simpl.
  - unfold is_lock. by rewrite Hunlink.
  - rewrite Hread. do 2 f_equal. apply flat_map_ext_Forall.
    eapply Forall_impl; [exact IH|]. intros entry Hentry. apply Hentry.
Qed.

Lemma without_leaves_none names entry :
  forall dir, flat_map (files_named names dir) (without names entry) = [].
Proof.
  induction entry as [name|name entries IH] using Entry_induction; intros dir; simpl.
  - destruct (bool_decide (name ∈ names)) eqn:Hlock; simpl; [done|]. by rewrite Hlock.
  - rewrite app_nil_r, flat_map_compose. apply flat_map_nil_Forall.
    eapply Forall_impl; [exact IH|]. intros entry Hentry. apply Hentry.
Qed.

(** X13: when every directory of the session directory can be listed
    and no [unlinkSync] throws, [cleanupStaleLockFiles] leaves no file
    named [SingletonLock], [SingletonCookie] or [SingletonSocket] at any
    depth. *)
Theorem cleanup_leaves_no_lock_file
    (userData : string) (entries : list Entry) :
  (forall p, readdir_fails p = false) ->
  (forall p, unlink_error p = None) ->
  exists entries',
    cleanupStaleLockFiles readdir_fails userData (Some entries) = Some entries'
    /\ entries'
       = flat_map (without ["SingletonLock"; "SingletonCookie"; "SingletonSocket"])
           entries
    /\ flat_map
         (files_named ["SingletonLock"; "SingletonCookie"; "SingletonSocket"]
            (path_join userData ".wwebjs_auth"))
         entries'
       = [].
Proof.
  change ["SingletonLock"; "SingletonCookie"; "SingletonSocket"] with lockNames.
  intros Hread Hunlink. eexists. split; [reflexivity|].
  assert (Hwalk : walk readdir_fails (path_join userData ".wwebjs_auth") entries
                  = flat_map (without lockNames) entries).
  { unfold walk. rewrite Hread. apply flat_map_ext_Forall.
    apply Forall_forall. intros entry _. by apply visit_all_removed. }
  split; [exact Hwalk|]. rewrite Hwalk, flat_map_compose.
  apply flat_map_nil_Forall. apply Forall_forall. intros entry _.
  apply without_leaves_none.
Qed.

Lemma visit_twice entry :
  forall dir,
    flat_map (visit readdir_fails dir) (visit readdir_fails dir entry)
    = visit readdir_fails dir entry.
Proof.
  induction entry as [name|name entries IH] using Entry_induction; intros dir; simpl.
  - destruct (is_lock name) eqn:Hlock; simpl.
    + destruct (unlink_error (path_join dir name)) eqn:Hunlink; simpl; [|done].
      by rewrite Hlock, Hunlink.
    + by rewrite Hlock.
  - destruct (readdir_fails (path_join dir name)) eqn:Hread; simpl; [done|].
    do 2 f_equal. rewrite flat_map_compose. apply flat_map_ext_Forall.
    eapply Forall_impl; [exact IH|]. intros entry Hentry. apply Hentry.
Qed.

(** X14: running [cleanupStaleLockFiles] again changes nothing: a lock
    file that is still there after the first run is one the second run
    cannot remove either. *)
Theorem cleanup_is_idempotent (userData : string) (auth : option (list Entry)) :
  cleanupStaleLockFiles readdir_fails userData
    (cleanupStaleLockFiles readdir_fails userData auth)
  = cleanupStaleLockFiles readdir_fails userData auth.
Proof.
  destruct auth as [entries|]; [|done]. simpl. f_equal. unfold walk.
  destruct (readdir_fails (path_join userData ".wwebjs_auth")) eqn:Hread; [done|].
  rewrite flat_map_compose. apply flat_map_ext_Forall.
  apply Forall_forall. intros entry _. apply visit_twice.
Qed.

End LockFiles.

(** ** The thumbnail worker *)

Section ThumbnailQueue.
Import Thumbnails.
Context `{Externals} `{Files}.

Lemma thumbs_run_snoc s inputs i :
  Thumbnails.run s (inputs ++ [i]) = Thumbnails.step (Thumbnails.run s inputs) i.
Proof. unfold run. by rewrite foldl_app. Qed.

Lemma orderly_init files : orderly (init files).
Proof.
  split; [split; [done|by intros [? ?]]|]. split; [done|]. split; [done|].
  split; constructor.
Qed.

Lemma pending_lt s n :
  answered s ++ pending s ≡ₚ seq 0 (requests s) -> n ∈ pending s -> (n < requests s)%nat.
Proof.
  intros Hperm Hn.
  assert (Hin : n ∈ seq 0 (requests s)).
  { rewrite <- Hperm. apply elem_of_app. by right. }
  apply elem_of_seq in Hin. lia.
Qed.

Lemma orderly_reply s r :
  orderly s ->
  orderly (reply (requests s) r
             {| thumbBusy := thumbBusy s; thumbQueue := thumbQueue s;
                rendering := rendering s; replies := replies s;
                requests := S (requests s); disk := disk s |}).
Proof.
  intros (Hbusy & Hidle & Hperm & Hsorted & Hjobs).
  split; [exact Hbusy|]. split; [exact Hidle|]. split; [|split; [exact Hsorted|exact Hjobs]].
  unfold answered, pending, waiting in *. cbn -[seq].
  rewrite fmap_app. cbn -[seq]. rewrite seq_S. cbn -[seq].
  rewrite <- Hperm. rewrite <- !app_assoc. f_equiv. apply Permutation_app_comm.
Qed.

Lemma orderly_step s i : orderly s -> orderly (Thumbnails.step s i).
Proof.
  intros Hs. pose proof Hs as (Hbusy & Hidle & Hperm & Hsorted & Hjobs).
  destruct i as [filePath|png]; simpl.
  - unfold generate_thumbnail. simpl.
    destruct (negb (JS.truthyS filePath)
              || negb (bool_decide (is_Some (disk s !! JS.orS filePath "")))) eqn:Hfound;
      [by apply orderly_reply|].
    destruct (negb (String.eqb (extname_lower (JS.orS filePath "")) ".pdf")) eqn:Hext;
      [by apply orderly_reply|].
    destruct (bool_decide (is_Some (disk s !! thumbPath_of (JS.orS filePath "")))) eqn:Hthumb;
      [by apply orderly_reply|].
    apply orb_false_iff in Hfound as [Htruthy Hpresent].
    apply negb_false_iff in Htruthy, Hpresent, Hext.
    apply bool_decide_eq_true in Hpresent. apply String.eqb_eq in Hext.
    set (job := {| job_filePath := JS.orS filePath "";
                   job_thumbPath := thumbPath_of (JS.orS filePath "");
                   job_request := requests s |}).
    assert (Hjob : job_ok (disk s) job).
    { split; [|by repeat split]. simpl. clear -Htruthy.
      destruct filePath as [p|]; simpl in *; [|done].
      destruct (String.eqb p "") eqn:E; simpl in *; [done|by rewrite E]. }
    assert (Hfresh : Forall (fun n => n < requests s)%nat (pending s)).
    { apply Forall_forall. intros n Hn. by apply (pending_lt s). }
    unfold processThumbQueue, push. cbn -[seq].
    destruct (thumbBusy s) eqn:Hb.
    + split; [exact Hbusy|]. split; [done|].
      unfold answered, pending, waiting in *. cbn -[seq].
      rewrite app_assoc, fmap_app. cbn -[seq].
      split; [|split].
      * rewrite seq_S. cbn -[seq]. by rewrite app_assoc, Hperm.
      * apply StronglySorted_app_2; [|done|repeat constructor].
        intros n m Hn Hm. apply list_elem_of_singleton in Hm as ->.
        rewrite Forall_forall in Hfresh. by apply Hfresh.
      * apply Forall_app. split; [done|by constructor].
    + assert (Hnone : rendering s = None).
      { destruct (rendering s) eqn:Hr; [|done].
        assert (false = true) by (apply Hbusy; by eexists). done. }
      assert (Hq : thumbQueue s = []) by auto.
      unfold orderly, answered, pending, waiting in *. cbn -[seq] in *.
      rewrite Hnone, Hq in *. cbn -[seq] in *.
      split; [split; [by eexists|done]|]. split; [done|].
      split; [|split].
      * rewrite seq_S. cbn -[seq]. rewrite app_nil_r in Hperm. by rewrite Hperm.
      * repeat constructor.
      * by constructor.
  - unfold resume. destruct (rendering s) as [job|] eqn:Hr; [|done].
    assert (Hq : pending s = job_request job :: (job_request <$> thumbQueue s)).
    { unfold pending, waiting. by rewrite Hr. }
    assert (Hw : waiting s = job :: thumbQueue s).
    { unfold waiting. by rewrite Hr. }
    rewrite Hq in Hperm, Hsorted. rewrite Hw in Hjobs.
    apply StronglySorted_inv in Hsorted as [Hsorted Hhead].
    apply Forall_cons in Hjobs as [Hjob Hjobs].
    assert (Hdisk : forall files,
      (forall p, is_Some (disk s !! p) -> is_Some (files !! p)) ->
      Forall (job_ok files) (thumbQueue s)).
    { intros files Hmono. eapply Forall_impl; [exact Hjobs|].
      intros j (? & ? & ? & ?). repeat split; try done. by apply Hmono. }
    assert (Hgoal : forall r files,
      (forall p, is_Some (disk s !! p) -> is_Some (files !! p)) ->
      orderly (processThumbQueue
        {| thumbBusy := false; thumbQueue := thumbQueue s; rendering := None;
           replies := replies s ++ [(job_request job, r)];
           requests := requests s; disk := files |})).
    { intros r files Hmono. unfold processThumbQueue. simpl.
      specialize (Hdisk files Hmono).
      destruct (thumbQueue s) as [|next rest] eqn:Hqueue.
      - split; [split; [done|by intros [? ?]]|]. split; [done|].
        split; [|split; constructor].
        unfold answered, pending, waiting in *. cbn -[seq] in *.
        rewrite fmap_app. cbn -[seq]. by rewrite app_nil_r.
      - split; [split; [by eexists|done]|]. split; [done|].
        unfold answered, pending, waiting in *. cbn -[seq] in *.
        split; [|split; [exact Hsorted|exact Hdisk]].
        rewrite fmap_app. cbn -[seq]. by rewrite <- app_assoc. }
    destruct png as [data|e].
    + destruct (write_error (job_thumbPath job)) as [e|].
      * apply Hgoal. done.
      * apply Hgoal. intros p [x Hp]. simpl.
        destruct (decide (job_thumbPath job = p)) as [->|Hne].
        -- rewrite lookup_insert_eq. by eexists.
        -- rewrite lookup_insert_ne by done. by eexists.
    + apply Hgoal. done.
Qed.

Lemma orderly_run files inputs : orderly (Thumbnails.run (init files) inputs).
Proof.
  induction inputs as [|i inputs IH] using rev_ind; [apply orderly_init|].
  rewrite thumbs_run_snoc. by apply orderly_step.
Qed.

(** X15: whatever the window asks and whenever the renderings end, the
    worker holds at most one job and is busy exactly while it holds one;
    jobs wait in the queue only while it is busy; every request received
    so far is answered, being rendered or queued, exactly one of these
    and exactly once; and the jobs waiting are in the order in which
    they were requested. *)
Theorem thumbnail_requests_are_neither_lost_nor_served_twice
    (files : gmap string string) (inputs : list Thumbnails.Input) :
  let s := Thumbnails.run (init files) inputs in
  (thumbBusy s = true <-> is_Some (rendering s))
  /\ (thumbBusy s = false -> thumbQueue s = [])
  /\ answered s ++ pending s ≡ₚ seq 0 (requests s)
  /\ StronglySorted lt (pending s).
Proof.
  intros s. destruct (orderly_run files inputs) as (? & ? & ? & ? & _). done.
Qed.

Lemma resume_serves_the_oldest s job png :
  rendering s = Some job ->
  let s' := Thumbnails.step s (Rendered png) in
  answered s' = answered s ++ [job_request job]
  /\ pending s' = job_request <$> thumbQueue s
  /\ requests s' = requests s.
Proof.
  intros Hr. simpl. unfold resume. rewrite Hr.
  assert (Hgoal : forall r files,
    let s' := processThumbQueue
      {| thumbBusy := false; thumbQueue := thumbQueue s; rendering := None;
         replies := replies s ++ [(job_request job, r)];
         requests := requests s; disk := files |} in
    answered s' = answered s ++ [job_request job]
    /\ pending s' = job_request <$> thumbQueue s
    /\ requests s' = requests s).
  { intros r files. unfold processThumbQueue. simpl.
    destruct (thumbQueue s) as [|next rest];
      unfold answered, pending, waiting; simpl; by rewrite fmap_app. }
  destruct png as [data|e]; [destruct (write_error (job_thumbPath job))|];
    apply Hgoal.
Qed.

Lemma orderly_pending_head s n rest :
  orderly s -> pending s = n :: rest ->
  exists job, rendering s = Some job /\ job_request job = n
              /\ job_request <$> thumbQueue s = rest.
Proof.
  intros (Hbusy & Hidle & _) Hp. unfold pending, waiting in Hp.
  destruct (rendering s) as [job|] eqn:Hr.
  - simpl in Hp. inversion Hp; subst. by exists job.
  - destruct (thumbBusy s) eqn:Hb.
    + destruct (proj1 Hbusy eq_refl) as [? ?]. done.
    + rewrite (Hidle eq_refl) in Hp. done.
Qed.

Lemma thumbs_drain s outcomes :
  orderly s ->
  length outcomes = length (pending s) ->
  let s' := Thumbnails.run s (Rendered <$> outcomes) in
  pending s' = []
  /\ answered s' = answered s ++ pending s
  /\ requests s' = requests s.
Proof.
  revert s. induction outcomes as [|png outcomes IH]; intros s Hs Hlen.
  - simpl. destruct (pending s); [|done]. by rewrite app_nil_r.
  - destruct (pending s) as [|n rest] eqn:Hp; [done|].
    destruct (orderly_pending_head s n rest Hs Hp) as (job & Hr & Hn & Hrest).
    destruct (resume_serves_the_oldest s job png Hr) as (Ha & Hp' & Hreq).
    cbv zeta in *. rewrite fmap_cons. unfold run. cbn [foldl].
    destruct (IH (Thumbnails.step s (Rendered png))) as (Hp'' & Ha' & Hreq').
    + by apply orderly_step.
    + rewrite Hp', Hrest. simpl in Hlen. lia.
    + unfold run in *. split; [exact Hp''|]. split; [|congruence].
      rewrite Ha', Ha, Hp', Hrest, Hn. by rewrite <- app_assoc.
Qed.

(** X16: the queue drains in the order of the requests. From any state
    the worker reaches with [k] requests waiting, once [k] renderings
    have ended, by a capture or by an error, the requests that were
    waiting have been answered in the order in which they came in, after
    those answered before; nothing waits, the worker is idle and every
    request received has its answer. *)
Theorem thumbnail_queue_drains_in_request_order
    (files : gmap string string) (inputs : list Thumbnails.Input)
    (outcomes : list (Res string)) :
  let s := Thumbnails.run (init files) inputs in
  length outcomes = length (pending s) ->
  let s' := Thumbnails.run s (Rendered <$> outcomes) in
  answered s' = answered s ++ pending s
  /\ answered s' ≡ₚ seq 0 (requests s')
  /\ thumbBusy s' = false
  /\ rendering s' = None
  /\ thumbQueue s' = [].
Proof.
  intros s Hlen s'.
  pose proof (orderly_run files inputs) as Hs. fold s in Hs.
  destruct (thumbs_drain s outcomes Hs Hlen) as (Hp & Ha & Hreq). fold s' in Hp, Ha, Hreq.
  assert (Hs' : orderly s').
  { subst s' s. unfold run. rewrite <- foldl_app. apply orderly_run. }
  destruct Hs' as (Hbusy & Hidle & Hperm & _).
  rewrite Hp, app_nil_r in Hperm.
  unfold pending, waiting in Hp.
  destruct (rendering s') as [job|] eqn:Hr; [done|]. simpl in Hp.
  apply fmap_nil_inv in Hp.
  split; [exact Ha|]. split; [exact Hperm|]. split; [|done].
  destruct (thumbBusy s') eqn:Hb; [|done].
  destruct (proj1 Hbusy eq_refl) as [? ?]. done.
Qed.

(** X17: a thumbnail is generated once per file. When a rendering ends
    with a capture and the thumbnail can be written, the request gets
    the thumbnail's path, the thumbnail is on disk, and a request for
    the same file made right after gets that path at once: no job is
    queued for it and the worker is left as it is. *)
Theorem thumbnail_is_reused_once_written
    (files : gmap string string) (inputs : list Thumbnails.Input)
    (job : Job) (data : string) :
  let s := Thumbnails.run (init files) inputs in
  rendering s = Some job ->
  write_error (job_thumbPath job) = None ->
  let s1 := Thumbnails.step s (Rendered (Ok data)) in
  let s2 := Thumbnails.step s1 (Invoke (Some (job_filePath job))) in
  (job_request job, ThumbnailPath (job_thumbPath job)) ∈ replies s1
  /\ disk s1 !! job_thumbPath job = Some data
  /\ replies s2 = replies s1 ++ [(requests s1, ThumbnailPath (job_thumbPath job))]
  /\ thumbQueue s2 = thumbQueue s1
  /\ rendering s2 = rendering s1
  /\ thumbBusy s2 = thumbBusy s1
  /\ disk s2 = disk s1.
Proof.
  intros s Hr Hw s1 s2.
  destruct (orderly_run files inputs) as (_ & _ & _ & _ & Hjobs). fold s in Hjobs.
  unfold waiting in Hjobs. rewrite Hr in Hjobs. simpl in Hjobs.
  apply Forall_cons in Hjobs as [(Htruthy & Hpresent & Hext & Hpath) _].
  assert (Hs1 : exists q b r,
    s1 = {| thumbBusy := b; thumbQueue := q; rendering := r;
            replies := replies s ++ [(job_request job, ThumbnailPath (job_thumbPath job))];
            requests := requests s;
            disk := <[job_thumbPath job := data]> (disk s) |}).
  { subst s1. simpl. unfold resume. rewrite Hr, Hw. unfold processThumbQueue. simpl.
    destruct (thumbQueue s); by eexists _, _, _. }
  destruct Hs1 as (q & b & r & Hs1).
  assert (Hs2 : s2 = reply (requests s1) (ThumbnailPath (job_thumbPath job))
                       {| thumbBusy := thumbBusy s1; thumbQueue := thumbQueue s1;
                          rendering := rendering s1; replies := replies s1;
                          requests := S (requests s1); disk := disk s1 |}).
  { subst s2. simpl. unfold generate_thumbnail. cbn [disk].
    assert (Hfile : bool_decide (is_Some (disk s1 !! JS.orS (Some (job_filePath job)) ""))
                    = true).
    { apply bool_decide_eq_true. rewrite Hs1. simpl.
      simpl in Htruthy. apply negb_true_iff in Htruthy. rewrite Htruthy.
      destruct Hpresent as [x Hx].
      destruct (decide (job_thumbPath job = job_filePath job)) as [->|Hne].
      - rewrite lookup_insert_eq. by eexists.
      - rewrite lookup_insert_ne by done. by eexists. }
    rewrite Htruthy, Hfile. cbn [negb orb].
    assert (Hname : JS.orS (Some (job_filePath job)) "" = job_filePath job).
    { simpl in *. apply negb_true_iff in Htruthy. by rewrite Htruthy. }
    rewrite Hname, Hext.
    change (negb (String.eqb ".pdf" ".pdf")) with false. cbv iota.
    rewrite <- Hpath.
    assert (Hthumb : bool_decide (is_Some (disk s1 !! job_thumbPath job)) = true).
    { apply bool_decide_eq_true. rewrite Hs1. simpl. rewrite lookup_insert_eq.
      by eexists. }
    by rewrite Hthumb. }
  rewrite Hs2. simpl. rewrite Hs1. simpl.
  split; [apply elem_of_app; right; by left|].
  split; [by rewrite lookup_insert_eq|]. done.
Qed.

End ThumbnailQueue.

(** ** Printing *)

Section PrintWithSetup.
Import Printing.
Context `{Shell}.

Lemma print_each_spec files targetPrinter filePaths :
  exists results done,
    print_each files targetPrinter filePaths = (results, done)
    /\ result_filePath <$> results = filePaths
    /\ Forall (truthful files) results
    /\ Forall2 (hands_over targetPrinter) done
         (filter (fun p => is_Some (files !! p)) filePaths).
Proof.
  induction filePaths as [|filePath rest IH].
  { exists [], []. repeat split; constructor. }
  destruct IH as (rs & done' & Hrest & Hpaths & Htruth & Hdone).
  cbn [print_each]. rewrite Hrest. unfold print_one. rewrite filter_cons.
  destruct (files !! filePath) as [x|] eqn:Hfile.
  - rewrite bool_decide_eq_true_2 by (by eexists). cbn [negb].
    rewrite decide_True by (by eexists).
    assert (Hsome : is_Some (files !! filePath)) by (by eexists).
    destruct (String.eqb (extname_lower filePath) ".pdf");
      [destruct (ptp_print filePath targetPrinter)
      |destruct (bool_decide (extname_lower filePath ∈ imageExts));
         [destruct (exec (mspaint_cmd filePath targetPrinter))|]];
      eexists _, _; (split; [reflexivity|]);
      (split; [by rewrite fmap_cons, Hpaths|]);
      (split; [constructor; [simpl; try done; by rewrite Hfile|exact Htruth]|]);
      (constructor; [|exact Hdone]); unfold hands_over; auto.
  - rewrite bool_decide_eq_false_2 by (by intros [? ?]). cbn [negb].
    rewrite decide_False by (by intros [? ?]).
    eexists _, _. split; [reflexivity|].
    split; [by rewrite fmap_cons, Hpaths|].
    split; [by constructor|exact Hdone].
Qed.

(** X18: when [print-with-setup] answers with an error, no file has
    been printed or opened and no dialog has been shown: all it did was
    ask for the default printer. That happens only when no printer name
    is given and the default printer cannot be found or is blank. *)
Theorem print_with_setup_error_prints_nothing
    (files : gmap string string) (filePaths : list string) (printerName : option string)
    (e : string) :
  fst (print_with_setup files filePaths printerName) = RError e ->
  snd (print_with_setup files filePaths printerName) = [Exec detect_default_printer]
  /\ JS.truthyS printerName = false
  /\ ((exists e', exec detect_default_printer = Err e')
      \/ exists stdout, exec detect_default_printer = Ok stdout
                        /\ Text.trim stdout = "").
Proof.
  unfold print_with_setup.
  destruct (print_each_spec files (JS.orS printerName "") filePaths)
    as (rs & done & Hrun & _).
  destruct (JS.truthyS printerName) eqn:Htruthy.
  - assert (Hname : String.eqb (JS.orS printerName "") "" = false).
    { destruct printerName as [p|]; [|done]. simpl in *.
      destruct (String.eqb p "") eqn:E; [done|]. simpl. by rewrite E. }
    rewrite Hname, Hrun. done.
  - destruct (exec detect_default_printer) as [stdout|e'] eqn:Hexec.
    + destruct (print_each_spec files (Text.trim stdout) filePaths)
        as (rs' & done' & Hrun' & _).
      rewrite Hrun'.
      destruct (String.eqb_spec (Text.trim stdout) "") as [Hblank|Hname]; [|done].
      intros _. split; [done|]. split; [done|]. right. by exists stdout.
    + intros _. split; [done|]. split; [done|]. left. by exists e'.
Qed.

(** X19: when [print-with-setup] answers with results, there is one
    result per path asked for, in order. A path that is not on disk is
    answered with [File not found] and nothing is done for it; a result
    says [success] only of a file that is on disk. The printing
    preferences of the target printer are shown once, after the default
    printer was asked for if no name was given and before any file is
    handled, also when the dialog fails; then each file on disk is
    handed over once, in order, by pdf-to-printer, by Paint or by the
    default application. *)
Theorem print_with_setup_answers_per_file
    (files : gmap string string) (filePaths : list string) (printerName : option string)
    (results : list PrintResult) :
  fst (print_with_setup files filePaths printerName) = RValue results ->
  result_filePath <$> results = filePaths
  /\ Forall (truthful files) results
  /\ exists targetPrinter before done,
       snd (print_with_setup files filePaths printerName)
       = before ++ Exec (preferences_cmd targetPrinter) :: done
       /\ targetPrinter <> ""
       /\ (before = [] \/ before = [Exec detect_default_printer])
       /\ Forall2 (hands_over targetPrinter) done
            (filter (fun p => is_Some (files !! p)) filePaths).
Proof.
  unfold print_with_setup.
  destruct (JS.truthyS printerName) eqn:Htruthy.
  - destruct (print_each_spec files (JS.orS printerName "") filePaths)
      as (rs & done & Hrun & Hpaths & Htruth & Hdone).
    assert (Hname : String.eqb (JS.orS printerName "") "" = false).
    { destruct printerName as [p|]; [|done]. simpl in *.
      destruct (String.eqb p "") eqn:E; [done|]. simpl. by rewrite E. }
    rewrite Hname, Hrun. simpl. intros [= <-].
    split; [exact Hpaths|]. split; [exact Htruth|].
    exists (JS.orS printerName ""), [], done.
    split; [done|]. split; [by apply String.eqb_neq|]. split; [by left|exact Hdone].
  - destruct (exec detect_default_printer) as [stdout|e'] eqn:Hexec; [|done].
    destruct (print_each_spec files (Text.trim stdout) filePaths)
      as (rs & done & Hrun & Hpaths & Htruth & Hdone).
    rewrite Hrun.
    destruct (String.eqb_spec (Text.trim stdout) "") as [Hblank|Hname]; [done|].
    simpl. intros [= <-].
    split; [exact Hpaths|]. split; [exact Htruth|].
    exists (Text.trim stdout), [Exec detect_default_printer], done.
    split; [done|]. split; [done|]. split; [by right|exact Hdone].
Qed.

End PrintWithSetup.

(** ** The list of printers *)

Section PrinterNames.
Import Printing.
Context `{Shell}.

Lemma trim_start_shorter s :
  Text.trim_start s = s \/ (String.length (Text.trim_start s) < String.length s)%nat.
Proof.
  induction s as [|c s IH]; [by left|]. simpl.
  destruct (Text.is_space c); [|by left]. right. destruct IH as [->|Hlt]; lia.
Qed.

Lemma trim_end_length s : (String.length (Text.trim_end s) <= String.length s)%nat.
Proof.
  induction s as [|c s IH]; [done|]. simpl.
  destruct (Text.is_space c && String.eqb (Text.trim_end s) ""); simpl; lia.
Qed.

Lemma trim_end_twice s : Text.trim_end (Text.trim_end s) = Text.trim_end s.
Proof.
  induction s as [|c s IH]; [done|]. simpl.
  destruct (Text.is_space c && String.eqb (Text.trim_end s) "") eqn:E; [done|].
  simpl. by rewrite IH, E.
Qed.

Lemma trim_start_head c s :
  Text.is_space c = false -> Text.trim_start (String c s) = String c s.
Proof. intros Hc. simpl. by rewrite Hc. Qed.

Lemma trim_start_cases s :
  Text.trim_start s = EmptyString
  \/ exists c s', Text.trim_start s = String c s' /\ Text.is_space c = false.
Proof.
  induction s as [|c s IH]; [by left|]. simpl.
  destruct (Text.is_space c) eqn:Hc; [exact IH|]. right. by exists c, s.
Qed.

Lemma trim_twice s : Text.trim (Text.trim s) = Text.trim s.
Proof.
  unfold Text.trim.
  destruct (trim_start_cases s) as [->|(c & s' & -> & Hc)]; [done|].
  simpl. rewrite Hc. simpl. rewrite Hc. simpl. rewrite Hc. simpl.
  by rewrite trim_end_twice.
Qed.

Lemma trim_fixed s :
  Text.trim s = s -> Text.trim_start s = s /\ Text.trim_end s = s.
Proof.
  unfold Text.trim. intros Hs.
  destruct (trim_start_shorter s) as [Hstart|Hlt].
  - rewrite Hstart in Hs. done.
  - pose proof (trim_end_length (Text.trim_start s)) as Hle.
    rewrite Hs in Hle. lia.
Qed.

Lemma one_line_trim_start s : Text.one_line s = true -> Text.one_line (Text.trim_start s) = true.
Proof.
  induction s as [|c s IH]; [done|]. intros Hs. simpl.
  destruct (Text.is_space c); [|done].
  simpl in Hs. apply andb_true_iff in Hs as [_ Hs]. by apply IH.
Qed.

Lemma one_line_trim_end s : Text.one_line s = true -> Text.one_line (Text.trim_end s) = true.
Proof.
  induction s as [|c s IH]; [done|]. intros Hs. simpl.
  simpl in Hs. apply andb_true_iff in Hs as [Hc Hs].
  destruct (Text.is_space c && String.eqb (Text.trim_end s) ""); [done|].
  simpl. by rewrite Hc, IH.
Qed.

Lemma split_lines_one_line s : Forall (fun l => Text.one_line l = true) (Text.split_lines s).
Proof.
  induction s as [|c s IH]; [by repeat constructor|]. simpl.
  destruct (Ascii.eqb c "010") eqn:Hc; [by constructor|].
  destruct (Text.split_lines s) as [|line lines]; [by repeat constructor; simpl; rewrite Hc|].
  apply Forall_cons in IH as [Hline Hlines].
  constructor; [|done]. simpl. by rewrite Hc, Hline.
Qed.

(** X20: every name [get-printers] returns is non-empty, has no white
    space at either end and holds no line feed, whatever the listing
    command printed. *)
Theorem printer_names_are_clean (stdout name : string) :
  name ∈ printer_names stdout -> Text.clean name.
Proof.
  unfold printer_names. intros Hin.
  apply list_elem_of_filter in Hin as [Hne Hin].
  apply list_elem_of_fmap in Hin as (line & -> & Hline).
  split; [exact Hne|]. split; [apply trim_twice|].
  pose proof (split_lines_one_line stdout) as Hall.
  rewrite Forall_forall in Hall. specialize (Hall line Hline).
  unfold Text.trim. by apply one_line_trim_end, one_line_trim_start.
Qed.

Lemma append_cons (x : Ascii.ascii) (a b : string) :
  (String x a ++ b = String x (a ++ b))%string.
Proof. done. Qed.

Lemma split_lines_line line rest :
  Text.one_line line = true ->
  Text.split_lines (line ++ String "010" rest) = line :: Text.split_lines rest.
Proof.
  induction line as [|c line IH]; [done|]. rewrite append_cons. simpl. intros Hl.
  apply andb_true_iff in Hl as [Hc Hl]. apply negb_true_iff in Hc.
  by rewrite Hc, (IH Hl).
Qed.

Lemma one_line_app a b :
  Text.one_line a = true -> Text.one_line b = true -> Text.one_line (a ++ b) = true.
Proof.
  induction a as [|c a IH]; [done|]. rewrite append_cons. simpl. intros Ha Hb.
  apply andb_true_iff in Ha as [Hc Ha]. by rewrite Hc, IH.
Qed.

Lemma trim_start_fixed_head c s :
  Text.trim_start (String c s) = String c s -> Text.is_space c = false.
Proof.
  simpl. destruct (Text.is_space c); [|done]. intros Hs.
  destruct (trim_start_shorter s) as [Heq|Hlt].
  - rewrite Heq in Hs. apply (f_equal String.length) in Hs. simpl in Hs. lia.
  - rewrite Hs in Hlt. simpl in Hlt. lia.
Qed.

Lemma trim_end_app_space s c :
  Text.is_space c = true ->
  Text.trim_end (s ++ String c EmptyString) = Text.trim_end s.
Proof.
  intros Hc. induction s as [|x s IH]; [simpl; by rewrite Hc|].
  rewrite append_cons. simpl. by rewrite IH.
Qed.

Lemma trim_line name :
  Text.clean name -> Text.trim (name ++ String "013" EmptyString) = name.
Proof.
  intros (Hne & Htrim & _). destruct (trim_fixed name Htrim) as [Hstart Hend].
  destruct name as [|c name]; [done|].
  pose proof (trim_start_fixed_head c name Hstart) as Hc.
  unfold Text.trim.
  rewrite append_cons, trim_start_head by done.
  rewrite <- append_cons, trim_end_app_space by done. exact Hend.
Qed.

Lemma append_assoc (a b c : string) : ((a ++ b) ++ c = a ++ (b ++ c))%string.
Proof. induction a as [|x a IH]; [done|]. by rewrite !append_cons, IH. Qed.

(** X21: a listing of printer names, one per line with Windows line
    endings, is read back as those names, in order, when each name is
    non-empty, has no white space at either end and holds no line
    feed: spaces inside a name are kept, the carriage returns and the
    empty last line are dropped. *)
Theorem printer_names_round_trip (names : list string) :
  Forall Text.clean names ->
  printer_names (Text.listing names) = names.
Proof.
  unfold printer_names. induction 1 as [|name names Hname _ IH]; [done|].
  cbn [Text.listing]. unfold Text.crlf.
  change (name ++ String "013" (String "010" EmptyString) ++ Text.listing names)%string
    with (name ++ (String "013" EmptyString ++ String "010" (Text.listing names)))%string.
  rewrite <- append_assoc.
  rewrite split_lines_line.
  - rewrite fmap_cons, trim_line by done.
    rewrite filter_cons, decide_True by apply Hname. by rewrite IH.
  - apply one_line_app; [apply Hname|done].
Qed.

End PrinterNames.

(** ** The window *)

Section Window.
Import Renderer.

Lemma replace_all_app c by_ a b :
  Text.replace_all c by_ (a ++ b) = (Text.replace_all c by_ a ++ Text.replace_all c by_ b)%string.
Proof.
  induction a as [|x a IH]; [done|]. rewrite append_cons. simpl.
  destruct (Ascii.eqb x c); rewrite IH; [by rewrite append_assoc|done].
Qed.

Lemma includes_app c a b : includes c (a ++ b) = includes c a || includes c b.
Proof.
  induction a as [|x a IH]; [done|]. rewrite append_cons. simpl.
  by rewrite IH, orb_assoc.
Qed.

Lemma replace_all_eq c by_ s :
  Text.replace_all c by_ (String c s) = (by_ ++ Text.replace_all c by_ s)%string.
Proof. simpl. by rewrite Ascii.eqb_refl. Qed.

Lemma replace_all_ne c by_ x s :
  Ascii.eqb x c = false ->
  Text.replace_all c by_ (String x s) = String x (Text.replace_all c by_ s).
Proof. intros Hx. simpl. by rewrite Hx. Qed.

Lemma four_passes_cons c s :
  four_passes (String c s) = (entity c ++ four_passes s)%string.
Proof.
  assert (H1 : Text.replace_all "<" "&lt;" "&amp;" = "&amp;") by reflexivity.
  assert (H2 : Text.replace_all ">" "&gt;" "&amp;" = "&amp;") by reflexivity.
  assert (H3 : Text.replace_all "034" "&quot;" "&amp;" = "&amp;") by reflexivity.
  assert (H4 : Text.replace_all ">" "&gt;" "&lt;" = "&lt;") by reflexivity.
  assert (H5 : Text.replace_all "034" "&quot;" "&lt;" = "&lt;") by reflexivity.
  assert (H6 : Text.replace_all "034" "&quot;" "&gt;" = "&gt;") by reflexivity.
  unfold four_passes, entity.
  destruct (Ascii.eqb c "&") eqn:Hamp.
  { apply Ascii.eqb_eq in Hamp as ->.
    by rewrite replace_all_eq, !replace_all_app, H1, H2, H3. }
  destruct (Ascii.eqb c "<") eqn:Hlt.
  { apply Ascii.eqb_eq in Hlt as ->.
    rewrite (replace_all_ne "&") by done.
    by rewrite replace_all_eq, !replace_all_app, H4, H5. }
  destruct (Ascii.eqb c ">") eqn:Hgt.
  { apply Ascii.eqb_eq in Hgt as ->.
    rewrite (replace_all_ne "&"), (replace_all_ne "<") by done.
    by rewrite replace_all_eq, !replace_all_app, H6. }
  destruct (Ascii.eqb c "034") eqn:Hquot.
  { apply Ascii.eqb_eq in Hquot as ->.
    rewrite (replace_all_ne "&"), (replace_all_ne "<"), (replace_all_ne ">") by done.
    by rewrite replace_all_eq. }
  by rewrite (replace_all_ne "&"), (replace_all_ne "<"), (replace_all_ne ">"),
    (replace_all_ne "034").
Qed.

Lemma four_passes_one_pass s : four_passes s = in_one_pass s.
Proof.
  induction s as [|c s IH]; [done|]. by rewrite four_passes_cons, IH.
Qed.

Lemma entity_plain c x :
  x = "<"%char \/ x = ">"%char \/ x = "034"%char -> includes x (entity c) = false.
Proof.
  intros Hx. unfold entity.
  destruct (Ascii.eqb c "&") eqn:Hamp; [by destruct Hx as [->|[->| ->]]|].
  destruct (Ascii.eqb c "<") eqn:Hlt; [by destruct Hx as [->|[->| ->]]|].
  destruct (Ascii.eqb c ">") eqn:Hgt; [by destruct Hx as [->|[->| ->]]|].
  destruct (Ascii.eqb c "034") eqn:Hquot; [by destruct Hx as [->|[->| ->]]|].
  simpl. destruct Hx as [->|[->| ->]]; by rewrite ?Hlt, ?Hgt, ?Hquot.
Qed.

Lemma one_pass_plain s x :
  x = "<"%char \/ x = ">"%char \/ x = "034"%char -> includes x (in_one_pass s) = false.
Proof.
  intros Hx. induction s as [|c s IH]; [done|]. simpl.
  by rewrite includes_app, entity_plain, IH.
Qed.

(** X22: [escapeHtml] leaves no [<], no [>] and no double quote in its
    result, so that the result cannot open a tag where it is put as text
    nor close the double-quoted attribute it is put in. Its four passes
    amount to one pass that writes [&amp;], [&lt;], [&gt;] and [&quot;]
    for the four characters and keeps the others: no entity is escaped
    a second time. *)
Theorem escapeHtml_leaves_no_markup (str : option string) :
  escapeHtml str = in_one_pass (JS.orS str "")
  /\ includes "<" (escapeHtml str) = false
  /\ includes ">" (escapeHtml str) = false
  /\ includes "034" (escapeHtml str) = false.
Proof.
  assert (Hone : escapeHtml str = in_one_pass (JS.orS str "")).
  { unfold escapeHtml. destruct (JS.truthyS str) eqn:Htruthy; simpl.
    - apply four_passes_one_pass.
    - destruct str as [s|]; [|done]. simpl in *.
      apply negb_false_iff in Htruthy. by rewrite Htruthy. }
  rewrite Hone. split; [done|].
  repeat split; apply one_pass_plain; auto.
Qed.

Lemma digits_of_twice s : digits_of (digits_of s) = digits_of s.
Proof.
  induction s as [|c s IH]; [done|]. simpl.
  destruct (is_digit c) eqn:Hc; [|done]. simpl. by rewrite Hc, IH.
Qed.

Lemma digits_exclude c s : is_digit c = false -> includes c (digits_of s) = false.
Proof.
  intros Hc. induction s as [|x s IH]; [done|]. simpl.
  destruct (is_digit x) eqn:Hx; [|done]. simpl. rewrite IH, orb_false_r.
  destruct (Ascii.eqb_spec x c) as [->|Hne]; [congruence|done].
Qed.

(** X23: [formatPhoneNumber] applied to its own result gives that
    result: a number already shown with its [+], a group id and an
    address with [@] are all left as they are. For a number that holds
    a digit and neither [@] nor [-], the result is [+] followed by its
    digits alone. *)
Theorem formatPhoneNumber_is_idempotent (number : option string) :
  formatPhoneNumber (Some (formatPhoneNumber number)) = formatPhoneNumber number
  /\ (JS.truthyS number = true ->
      includes "@" (JS.orS number "") = false ->
      includes "-" (JS.orS number "") = false ->
      digits_of (JS.orS number "") <> "" ->
      formatPhoneNumber number = String "+" (digits_of (JS.orS number ""))).
Proof.
  assert (Hpos : forall d, d <> "" -> (0 <? String.length d)%nat = true).
  { intros [|c d] Hd; [done|]. done. }
  split.
  - destruct (JS.truthyS number) eqn:Htruthy;
      [|unfold formatPhoneNumber; by rewrite Htruthy].
    assert (Hfirst : formatPhoneNumber number =
      if includes "@"%char (JS.orS number "") || includes "-"%char (JS.orS number "")
      then JS.orS number ""
      else if (0 <? String.length (digits_of (JS.orS number "")))%nat
           then String "+"%char (digits_of (JS.orS number ""))
           else JS.orS number "").
    { unfold formatPhoneNumber. by rewrite Htruthy. }
    rewrite Hfirst. clear Hfirst.
    assert (Hn : JS.orS number "" <> "").
    { destruct number as [n|]; simpl in *; [|done].
      destruct (String.eqb n "") eqn:E; simpl in *; [done|].
      by apply String.eqb_neq. }
    set (n := JS.orS number "") in *.
    assert (Hsame : formatPhoneNumber (Some n) =
      if includes "@"%char n || includes "-"%char n then n
      else if (0 <? String.length (digits_of n))%nat then String "+"%char (digits_of n)
           else n).
    { apply String.eqb_neq in Hn. unfold formatPhoneNumber, JS.truthyS, JS.orS.
      by rewrite Hn. }
    destruct (includes "@"%char n || includes "-"%char n) eqn:Hat.
    + exact Hsame.
    + destruct (0 <? String.length (digits_of n))%nat eqn:Hd.
      * unfold formatPhoneNumber. simpl.
        rewrite !digits_exclude by done. simpl.
        rewrite digits_of_twice. by rewrite Hd.
      * exact Hsame.
  - intros Htruthy Hat Hdash Hd. unfold formatPhoneNumber.
    by rewrite Htruthy, Hat, Hdash, (Hpos _ Hd).
Qed.

End Window.

(** ** [deleteSelected] and [delete-files] together *)

Section DeleteSelected.
Import Renderer.
Context `{Externals}.

Lemma delete_local_run p s :
  delete_local p s
  = (Ok (local_outcome s p),
     if removable s p then set_fs (delete p (fs s)) s else s).
Proof.
  unfold local_outcome, removable.
  destruct (fs s !! p) as [x|] eqn:Hp.
  - rewrite bool_decide_eq_true_2 by (by eexists).
    destruct (unlink_error p) as [e|] eqn:He.
    + rewrite bool_decide_eq_false_2 by done. simpl.
      apply delete_local_locked; [by rewrite Hp|done].
    + rewrite bool_decide_eq_true_2 by done. simpl.
      apply delete_local_present; [by rewrite Hp|done].
  - rewrite bool_decide_eq_false_2 by (by intros [? ?]). simpl.
    by apply delete_local_missing.
Qed.

Lemma local_pass_spec ps s :
  NoDup ps ->
  exists disk,
    map_all delete_local ps s = (Ok (local_outcome s <$> ps), set_fs disk s)
    /\ forall q, disk !! q
                 = if bool_decide (q ∈ ps) && removable s q then None else fs s !! q.
Proof.
  revert s. induction ps as [|p ps IH]; intros s Hnd.
  { exists (fs s). split; [simpl; unfold ret; by rewrite set_fs_same|].
    intros q. by rewrite bool_decide_eq_false_2 by apply not_elem_of_nil. }
  apply NoDup_cons in Hnd as [Hp Hnd].
  set (s1 := if removable s p then set_fs (delete p (fs s)) s else s).
  assert (Hother : forall q, q <> p -> fs s1 !! q = fs s !! q).
  { intros q Hq. subst s1. destruct (removable s p); [|done]. simpl.
    by rewrite lookup_delete_ne. }
  assert (Hself : fs s1 !! p = if removable s p then None else fs s !! p).
  { subst s1. destruct (removable s p); [|done]. simpl. by rewrite lookup_delete_eq. }
  assert (Hrem : forall q, q <> p -> removable s1 q = removable s q).
  { intros q Hq. unfold removable. by rewrite Hother. }
  destruct (IH s1 Hnd) as (disk & Hrun & Hdisk).
  exists disk. split.
  - cbn [map_all]. unfold bind at 1. rewrite delete_local_run. fold s1.
    unfold bind, ret. rewrite Hrun. f_equal.
    + rewrite fmap_cons. do 2 f_equal. apply list_fmap_ext.
      intros i q Hq. apply list_elem_of_lookup_2 in Hq.
      unfold local_outcome. rewrite Hother; [done|]. by intros ->.
    + subst s1. by destruct (removable s p).
  - intros q. rewrite Hdisk. destruct (decide (q = p)) as [->|Hne].
    + rewrite (bool_decide_eq_false_2 (p ∈ ps)) by done.
      rewrite (bool_decide_eq_true_2 (p ∈ p :: ps)) by (by left). simpl.
      exact Hself.
    + rewrite Hrem, Hother by done.
      destruct (decide (q ∈ ps)) as [Hin|Hnin].
      * rewrite !bool_decide_eq_true_2; [done|by right|done].
      * rewrite !bool_decide_eq_false_2; [done| |done].
        intros Hin. apply elem_of_cons in Hin as [?|?]; done.
Qed.

Lemma delete_files_run B ps messageIds chatId s :
  NoDup ps ->
  exists wa es disk,
    delete_files B ps messageIds chatId s
    = (Ok (local_outcome s <$> ps, wa), logged es (set_fs disk s))
    /\ forall q, disk !! q
                 = if bool_decide (q ∈ ps) && removable s q then None else fs s !! q.
Proof.
  intros Hnd. destruct (local_pass_spec ps s Hnd) as (disk & Hrun & Hdisk).
  destruct (remote_pass_run B chatId messageIds) as (f & Hremote & _).
  eexists _, _, disk. split; [|exact Hdisk].
  unfold delete_files, bind at 1. rewrite Hrun.
  unfold bind, ret. by rewrite Hremote.
Qed.

(** *** The loop over [results] *)

Lemma settle_local_outcome msgIds v i t s :
  msgIds !! i = Some t.2 ->
  settle msgIds v i (local_outcome s t.1) = forget s v t.
Proof.
  intros Hi. unfold local_outcome, forget, removable, settle.
  destruct (bool_decide (is_Some (fs s !! t.1))); [|done].
  destruct (unlink_error t.1) eqn:He; simpl; [done|by rewrite Hi].
Qed.

Lemma settle_all_targets s T pre v :
  settle_all (pre ++ (snd <$> T)) (length pre) (local_outcome s <$> (fst <$> T)) v
  = foldl (forget s) v T.
Proof.
  revert pre v. induction T as [|t T IH]; intros pre v; [done|].
  rewrite !fmap_cons. cbn [settle_all foldl].
  rewrite settle_local_outcome by (by rewrite list_lookup_middle).
  replace (pre ++ t.2 :: (snd <$> T)) with ((pre ++ [t.2]) ++ (snd <$> T))
    by (by rewrite <- app_assoc).
  replace (S (length pre)) with (length (pre ++ [t.2]))
    by (rewrite length_app; simpl; lia).
  apply IH.
Qed.

Lemma filter_all {A} (P : A -> Prop) `{forall x, Decision (P x)} (l : list A) :
  (forall x, x ∈ l -> P x) -> filter P l = l.
Proof.
  induction l as [|x l IH]; intros Hall; [done|].
  rewrite filter_cons, decide_True by (apply Hall; by left).
  rewrite IH; [done|]. intros y Hy. apply Hall. by right.
Qed.

Lemma filter_ext_in {A} (P Q : A -> Prop) `{forall x, Decision (P x)}
    `{forall x, Decision (Q x)} (l : list A) :
  (forall x, x ∈ l -> P x <-> Q x) -> filter P l = filter Q l.
Proof.
  induction l as [|x l IH]; intros Hall; [done|].
  rewrite !filter_cons.
  rewrite IH by (intros y Hy; apply Hall; by right).
  destruct (decide (P x)) as [HP|HP], (decide (Q x)) as [HQ|HQ]; try done.
  - destruct HQ. apply Hall; [by left|done].
  - destruct HP. apply Hall; [by left|done].
Qed.

Lemma remove_first_filter (files : list MediaInfo) (p : string) :
  NoDup (omap mi_localPath files) ->
  remove_first (at_path p) files = filter (fun f => mi_localPath f <> Some p) files.
Proof.
  induction files as [|f files IH]; intros Hnd; [done|].
  cbn [remove_first]. rewrite filter_cons. unfold at_path at 1.
  destruct (decide (mi_localPath f = Some p)) as [Hf|Hf].
  - rewrite bool_decide_eq_true_2 by done. rewrite decide_False by (by intros ?).
    symmetry. apply filter_all. intros g Hg Hgp.
    cbn [omap list_omap] in Hnd. rewrite Hf in Hnd.
    apply NoDup_cons in Hnd as [Hnotin _]. apply Hnotin.
    apply list_elem_of_omap. by exists g.
  - rewrite bool_decide_eq_false_2 by done. rewrite decide_True by done.
    f_equal. apply IH. cbn [omap list_omap] in Hnd.
    destruct (mi_localPath f); [by apply NoDup_cons in Hnd as [_ ?]|done].
Qed.

Lemma NoDup_omap_filter {A B} (g : A -> option B) (P : A -> Prop)
    `{forall x, Decision (P x)} (l : list A) :
  NoDup (omap g l) -> NoDup (omap g (filter P l)).
Proof.
  induction l as [|x l IH]; intros Hnd; [done|].
  rewrite filter_cons. cbn [omap list_omap] in Hnd.
  assert (Hl : NoDup (omap g l)).
  { destruct (g x); [by apply NoDup_cons in Hnd as [_ ?]|done]. }
  destruct (decide (P x)); [|by apply IH].
  cbn [omap list_omap]. destruct (g x) as [y|] eqn:Hy; [|by apply IH].
  apply NoDup_cons in Hnd as [Hnotin _]. apply NoDup_cons. split; [|by apply IH].
  intros Hin. apply Hnotin. apply list_elem_of_omap in Hin as (z & Hz & Hgz).
  apply list_elem_of_filter in Hz as [_ Hz]. apply list_elem_of_omap. by exists z.
Qed.

(** What is left of the list and of the selection once every pair has
    been settled. *)
Lemma forget_all_files s T v :
  NoDup (omap mi_localPath (currentFiles v)) ->
  currentFiles (foldl (forget s) v T)
  = filter (fun f => existsb (fun t => removable s t.1
                                       && bool_decide (mi_localPath f = Some t.1)) T
                     = false)
      (currentFiles v).
Proof.
  revert v. induction T as [|t T IH]; intros v Hnd.
  { simpl. symmetry. by apply filter_all. }
  cbn [foldl]. unfold forget at 2.
  destruct (removable s t.1) eqn:Hrem.
  - rewrite IH; cbn [currentFiles].
    + rewrite remove_first_filter by done. rewrite list_filter_filter.
      apply list_filter_iff. intros f. cbn [existsb]. rewrite Hrem. simpl.
      destruct (decide (mi_localPath f = Some t.1)) as [Hf|Hf].
      * rewrite bool_decide_eq_true_2 by done. simpl. split; [by intros [_ ?]|done].
      * rewrite bool_decide_eq_false_2 by done. simpl. split; [by intros [? _]|done].
    + rewrite remove_first_filter by done. by apply NoDup_omap_filter.
  - rewrite IH by done. apply list_filter_iff. intros f. cbn [existsb].
    by rewrite Hrem.
Qed.

Lemma forget_all_selected s T v :
  selectedFiles (foldl (forget s) v T)
  = filter (fun m => existsb (fun t => removable s t.1 && bool_decide (m = t.2)) T
                     = false)
      (selectedFiles v).
Proof.
  revert v. induction T as [|t T IH]; intros v.
  { simpl. symmetry. by apply filter_all. }
  cbn [foldl]. unfold forget at 2.
  destruct (removable s t.1) eqn:Hrem.
  - rewrite IH; cbn [selectedFiles]. rewrite list_filter_filter.
    apply list_filter_iff. intros m. cbn [existsb]. rewrite Hrem. simpl.
    destruct (decide (m = t.2)) as [Hm|Hm].
    + rewrite bool_decide_eq_true_2 by done. simpl. split; [by intros [_ ?]|done].
    + rewrite bool_decide_eq_false_2 by done. simpl. split; [by intros [? _]|done].
  - rewrite IH. apply list_filter_iff. intros m. cbn [existsb]. by rewrite Hrem.
Qed.

(** *** The pairs pushed for the selection *)

Lemma find_Some_inv {A} (p : A -> bool) (l : list A) (x : A) :
  JS.find p l = Some x -> x ∈ l /\ p x = true.
Proof.
  induction l as [|y l IH]; [done|]. simpl.
  destruct (p y) eqn:Hy.
  - intros [= <-]. split; [by left|done].
  - intros Hx. destruct (IH Hx). split; [by right|done].
Qed.

Lemma find_by_id (files : list MediaInfo) (f : MediaInfo) :
  NoDup (mi_messageId <$> files) ->
  f ∈ files ->
  JS.find (fun g => String.eqb (mi_messageId g) (mi_messageId f)) files = Some f.
Proof.
  induction files as [|g files IH]; intros Hnd Hf; [by apply elem_of_nil in Hf|].
  rewrite fmap_cons in Hnd. apply NoDup_cons in Hnd as [Hg Hnd]. simpl.
  destruct (String.eqb_spec (mi_messageId g) (mi_messageId f)) as [Heq|Hne].
  - apply elem_of_cons in Hf as [->|Hf]; [done|].
    destruct Hg. rewrite Heq. apply list_elem_of_fmap. by exists f.
  - apply elem_of_cons in Hf as [->|Hf]; [done|]. by apply IH.
Qed.

Lemma same_path_same_file (files : list MediaInfo) (f g : MediaInfo) (p : string) :
  NoDup (omap mi_localPath files) ->
  f ∈ files -> g ∈ files ->
  mi_localPath f = Some p -> mi_localPath g = Some p -> f = g.
Proof.
  induction files as [|x files IH]; intros Hnd Hf Hg Hfp Hgp;
    [by apply elem_of_nil in Hf|].
  cbn [omap list_omap] in Hnd.
  assert (Hin : forall y, y ∈ files -> mi_localPath y = Some p -> p ∈ omap mi_localPath files).
  { intros y Hy Hyp. apply list_elem_of_omap. by exists y. }
  apply elem_of_cons in Hf as [->|Hf], Hg as [->|Hg].
  - done.
  - rewrite Hfp in Hnd. apply NoDup_cons in Hnd as [Hnotin _].
    destruct Hnotin. by apply (Hin g).
  - rewrite Hgp in Hnd. apply NoDup_cons in Hnd as [Hnotin _].
    destruct Hnotin. by apply (Hin f).
  - apply IH; try done.
    destruct (mi_localPath x); [by apply NoDup_cons in Hnd as [_ ?]|done].
Qed.

Lemma target_Some files m t :
  target files m = Some t ->
  exists f, f ∈ files /\ mi_messageId f = m /\ mi_localPath f = Some t.1
            /\ JS.truthyS (mi_localPath f) = true /\ t.2 = m.
Proof.
  unfold target.
  destruct (JS.find _ files) as [f|] eqn:Hfind; [|done].
  apply find_Some_inv in Hfind as [Hf Hid]. apply String.eqb_eq in Hid.
  destruct (JS.truthyS (mi_localPath f)) eqn:Htruthy; [|done].
  intros [= <-]. exists f. simpl. repeat split; try done.
  destruct (mi_localPath f) as [p|]; [|done]. simpl in *.
  by destruct (String.eqb p "").
Qed.

Lemma targets_NoDup (files : list MediaInfo) (selected : list string) :
  NoDup selected ->
  NoDup (omap mi_localPath files) ->
  NoDup (fst <$> omap (target files) selected).
Proof.
  intros Hsel Hpaths. induction Hsel as [|m selected Hm Hsel IH]; [constructor|].
  cbn [omap list_omap].
  destruct (target files m) as [t|] eqn:Ht; [|exact IH].
  rewrite fmap_cons. apply NoDup_cons. split; [|exact IH].
  intros Hin. apply list_elem_of_fmap in Hin as (t' & Heq & Hin).
  apply list_elem_of_omap in Hin as (m' & Hm' & Ht').
  destruct (target_Some _ _ _ Ht) as (f & Hf & Hid & Hp & _).
  destruct (target_Some _ _ _ Ht') as (f' & Hf' & Hid' & Hp' & _).
  rewrite <- Heq in Hp'.
  assert (f = f') by (by apply (same_path_same_file files f f' t.1)).
  subst f'. congruence.
Qed.

(** A pair was pushed for a removable file exactly for the listed files
    that are selected, have a local path and can be removed. *)
Lemma pushed_for_deleted s v f :
  NoDup (mi_messageId <$> currentFiles v) ->
  NoDup (omap mi_localPath (currentFiles v)) ->
  f ∈ currentFiles v ->
  existsb (fun t => removable s t.1 && bool_decide (mi_localPath f = Some t.1))
    (omap (target (currentFiles v)) (selectedFiles v))
  = deleted_for s v f.
Proof.
  intros Hids Hpaths Hf. apply eq_true_iff_eq. rewrite existsb_exists. split.
  - intros (t & Hin & Hhit). apply list_elem_of_In in Hin.
    apply andb_true_iff in Hhit as [Hrem Hpath]. apply bool_decide_eq_true in Hpath.
    apply list_elem_of_omap in Hin as (m & Hm & Ht).
    destruct (target_Some _ _ _ Ht) as (f' & Hf' & Hid & Hp & Htruthy & _).
    assert (f = f') by (by apply (same_path_same_file (currentFiles v) f f' t.1)).
    subst f'. unfold deleted_for. rewrite Htruthy, Hpath, Hid.
    rewrite bool_decide_eq_true_2 by done. simpl.
    destruct (String.eqb t.1 "") eqn:E; [|done].
    rewrite Hpath in Htruthy. simpl in Htruthy. by rewrite E in Htruthy.
  - unfold deleted_for. intros Hdel.
    apply andb_true_iff in Hdel as [Hdel Hrem].
    apply andb_true_iff in Hdel as [Hsel Htruthy].
    apply bool_decide_eq_true in Hsel.
    destruct (mi_localPath f) as [p|] eqn:Hp; [|done].
    assert (Hname : JS.orS (Some p) "" = p).
    { simpl in *. by destruct (String.eqb p ""). }
    rewrite Hname in Hrem.
    exists (p, mi_messageId f). split.
    + apply list_elem_of_In. apply list_elem_of_omap. exists (mi_messageId f).
      split; [done|]. unfold target. rewrite find_by_id by done.
      by rewrite Hp, Htruthy, Hname.
    + simpl. rewrite Hrem. by rewrite bool_decide_eq_true_2.
Qed.

Lemma deleted_target s v f :
  NoDup (mi_messageId <$> currentFiles v) ->
  f ∈ currentFiles v ->
  deleted_for s v f = true ->
  exists p, mi_localPath f = Some p /\ removable s p = true
            /\ (p, mi_messageId f) ∈ omap (target (currentFiles v)) (selectedFiles v).
Proof.
  intros Hids Hf Hdel. unfold deleted_for in Hdel.
  apply andb_true_iff in Hdel as [Hdel Hrem].
  apply andb_true_iff in Hdel as [Hsel Htruthy].
  apply bool_decide_eq_true in Hsel.
  destruct (mi_localPath f) as [p|] eqn:Hp; [|done].
  assert (Hname : JS.orS (Some p) "" = p).
  { simpl in *. by destruct (String.eqb p ""). }
  rewrite Hname in Hrem. exists p. repeat split; try done.
  apply list_elem_of_omap. exists (mi_messageId f).
  split; [done|]. unfold target. rewrite find_by_id by done.
  by rewrite Hp, Htruthy, Hname.
Qed.

Lemma target_deleted s v m t :
  m ∈ selectedFiles v ->
  target (currentFiles v) m = Some t ->
  removable s t.1 = true ->
  exists f, f ∈ currentFiles v /\ mi_messageId f = m /\ t.2 = m
            /\ deleted_for s v f = true.
Proof.
  intros Hm Ht Hrem.
  destruct (target_Some _ _ _ Ht) as (f & Hf & Hid & Hp & Htruthy & Ht2).
  exists f. repeat split; try done.
  unfold deleted_for. rewrite Htruthy, Hid, bool_decide_eq_true_2 by done.
  rewrite Hp in *. simpl in *. by destruct (String.eqb t.1 "").
Qed.

(** What [deleteSelected] leaves behind, in terms of the pairs it pushed. *)
Lemma deleteSelected_run B v s :
  NoDup (selectedFiles v) ->
  NoDup (omap mi_localPath (currentFiles v)) ->
  let T := omap (target (currentFiles v)) (selectedFiles v) in
  exists s',
    deleteSelected B v s = (Ok (foldl (forget s) v T), s')
    /\ forall q, fs s' !! q
                 = if bool_decide (q ∈ fst <$> T) && removable s q
                   then None else fs s !! q.
Proof.
  intros Hsel Hpaths T.
  pose proof (targets_NoDup (currentFiles v) (selectedFiles v) Hsel Hpaths) as HT.
  fold T in HT. unfold deleteSelected. fold T.
  destruct (selectedFiles v) as [|m sel] eqn:Hs.
  { exists s. split; [done|]. intros q. subst T. cbn [omap list_omap fmap list_fmap].
    by rewrite bool_decide_eq_false_2 by apply not_elem_of_nil. }
  destruct (fst <$> T) as [|p ps] eqn:Hps.
  { exists s. split.
    - destruct T; [done|discriminate].
    - intros q. by rewrite bool_decide_eq_false_2 by apply not_elem_of_nil. }
  rewrite <- Hps in *.
  destruct (delete_files_run B (fst <$> T) (Some (snd <$> T)) (currentChatId v) s HT)
    as (wa & es & disk & Hrun & Hdisk).
  exists (logged es (set_fs disk s)). split.
  - unfold bind. rewrite Hrun. unfold ret. cbn [fst].
    pose proof (settle_all_targets s T [] v) as Hsettle.
    cbn [app length] in Hsettle. by rewrite Hsettle.
  - intros q. rewrite fs_logged. apply Hdisk.
Qed.

(** X24: deleting the selection in the window keeps the view in step with
    the disk.  With distinct message ids and distinct local paths in the
    file list, [deleteSelected] always completes; the files it drops from
    the list are exactly the selected ones whose local file [delete-files]
    removed, those are gone from the disk and no longer selected, every
    file still listed has its local file untouched, and a selected message
    whose file could not be removed stays selected. *)
Theorem deleteSelected_view_follows_the_disk B v s :
  NoDup (selectedFiles v) ->
  NoDup (mi_messageId <$> currentFiles v) ->
  NoDup (omap mi_localPath (currentFiles v)) ->
  exists v' s',
    deleteSelected B v s = (Ok v', s')
    /\ currentFiles v'
       = filter (fun f => deleted_for s v f = false) (currentFiles v)
    /\ (forall f p, f ∈ currentFiles v -> deleted_for s v f = true ->
                    mi_localPath f = Some p ->
                    fs s' !! p = None /\ mi_messageId f ∉ selectedFiles v')
    /\ (forall f p, f ∈ currentFiles v' -> mi_localPath f = Some p ->
                    fs s' !! p = fs s !! p)
    /\ (forall m, m ∈ selectedFiles v ->
                  (forall f, f ∈ currentFiles v -> mi_messageId f = m ->
                             deleted_for s v f = false) ->
                  m ∈ selectedFiles v').
Proof.
  intros Hsel Hids Hpaths.
  destruct (deleteSelected_run B v s Hsel Hpaths) as (s' & Hrun & Hdisk).
  cbv zeta in Hrun, Hdisk.
  set (T := omap (target (currentFiles v)) (selectedFiles v)) in *.
  assert (Hpush : forall f, f ∈ currentFiles v ->
            existsb (fun t => removable s t.1
                              && bool_decide (mi_localPath f = Some t.1)) T
            = deleted_for s v f)
    by (intros f Hf; by apply pushed_for_deleted).
  assert (Hfiles : currentFiles (foldl (forget s) v T)
                   = filter (fun f => deleted_for s v f = false) (currentFiles v)).
  { rewrite forget_all_files by done. apply filter_ext_in.
    intros f Hf. by rewrite Hpush. }
  exists (foldl (forget s) v T), s'.
  split; [exact Hrun|]. split; [exact Hfiles|]. split; [|split].
  - intros f p Hf Hdel Hp.
    destruct (deleted_target s v f Hids Hf Hdel) as (p' & Hp' & Hrem & Hin).
    assert (p' = p) by congruence. subst p'. split.
    + rewrite Hdisk, Hrem, bool_decide_eq_true_2; [done|].
      apply list_elem_of_fmap. by exists (p, mi_messageId f).
    + rewrite forget_all_selected. intros Hm.
      apply list_elem_of_filter in Hm as [Hm _].
      assert (Hex : existsb (fun t => removable s t.1
                                      && bool_decide (mi_messageId f = t.2)) T
                    = true).
      { apply existsb_exists. exists (p, mi_messageId f).
        split; [by apply list_elem_of_In|]. simpl.
        by rewrite Hrem, bool_decide_eq_true_2. }
      congruence.
  - intros f p Hf Hp. rewrite Hfiles in Hf.
    apply list_elem_of_filter in Hf as [Hkept Hf].
    rewrite Hdisk.
    destruct (bool_decide (p ∈ fst <$> T) && removable s p) eqn:Hgone; [|done].
    apply andb_true_iff in Hgone as [Hin Hrem]. apply bool_decide_eq_true in Hin.
    apply list_elem_of_fmap in Hin as (t & -> & Hin).
    assert (Hex : existsb (fun t' => removable s t'.1
                                     && bool_decide (mi_localPath f = Some t'.1)) T
                  = true).
    { apply existsb_exists. exists t. split; [by apply list_elem_of_In|].
      by rewrite Hrem, bool_decide_eq_true_2. }
    rewrite Hpush in Hex by done. congruence.
  - intros m Hm Hnone. rewrite forget_all_selected.
    apply list_elem_of_filter. split; [|done].
    destruct (existsb _ T) eqn:Hex; [|done].
    apply existsb_exists in Hex as (t & Hin & Hhit).
    apply list_elem_of_In in Hin. apply andb_true_iff in Hhit as [Hrem Heq].
    apply bool_decide_eq_true in Heq.
    apply list_elem_of_omap in Hin as (m' & Hm' & Ht).
    destruct (target_deleted s v m' t Hm' Ht Hrem) as (f & Hf & Hid & Ht2 & Hdel).
    rewrite (Hnone f) in Hdel; [done|done|congruence].
Qed.

End DeleteSelected.

(** ** The properties at work on a concrete installation *)

Section Installation.
Import Demo Cases.
#[local] Existing Instance ext.
#[local] Existing Instance thumbs.
#[local] Existing Instance shell.

(** Three chats, one of them [status@broadcast], and room for one. *)
Lemma get_all_chats_lists_most_recent_witness :
  isClientReady ready = true
  /\ outcome (getChats (backend_of [stale_chat; broadcast_chat; c1])) 
     = Ok [stale_chat; broadcast_chat; c1]
  /\ 0 <= default 30 (Some 1)
  /\ exists result s',
       get_all_chats (backend_of [stale_chat; broadcast_chat; c1]) (Some 1) ready
       = (Ok (RValue result), s')
       /\ length result = 1%nat.
Proof.
  assert (Hlimit : 0 <= default 30 (Some 1)) by (simpl; lia).
  split; [reflexivity|]. split; [reflexivity|]. split; [exact Hlimit|].
  destruct (get_all_chats_lists_most_recent
              (backend_of [stale_chat; broadcast_chat; c1]) (Some 1) ready
              [stale_chat; broadcast_chat; c1] eq_refl eq_refl Hlimit)
    as (result & listed & omitted & es & Hrun & _ & _ & Hlen & _).
  exists result, (logged es ready). split; [exact Hrun|exact Hlen].
Defined.


(** A chat list that takes 31 s. *)
Lemma get_unread_chats_without_chat_list_witness :
  isClientReady ready = true
  /\ 30000 < settles_after (getChats backend_slow)
  /\ get_unread_chats backend_slow ready
     = (Ok (RValue []), logged [Backend_call CGetChats] ready).
Proof.
  assert (Hslow : 30000 < settles_after (getChats backend_slow)) by (simpl; lia).
  split; [reflexivity|]. split; [exact Hslow|].
  exact (proj1 (get_unread_chats_without_chat_list backend_slow ready eq_refl) Hslow).
Defined.

Lemma download_all_files_answers_per_message_witness :
  isClientReady ready = true
  /\ outcome (getChatById backend "15550001@c.us") = Ok c1
  /\ outcome (chat_fetchMessages c1 100) = Ok [m1; m2; m3]
  /\ exists results s',
       download_all_files backend "15550001@c.us" ready = (Ok (RValue results), s')
       /\ Forall2 bulk_entry results
            (filter (fun m => msg_hasMedia m = true) [m1; m2; m3]).
Proof.
  split; [reflexivity|]. split; [reflexivity|]. split; [reflexivity|].
  exact (download_all_files_answers_per_message backend "15550001@c.us" ready c1
           [m1; m2; m3] eq_refl eq_refl eq_refl).
Defined.

Lemma download_all_files_reports_progress_witness :
  isClientReady ready = true
  /\ outcome (getChatById backend "15550001@c.us") = Ok c1
  /\ outcome (chat_fetchMessages c1 100) = Ok [m1; m2; m3]
  /\ exists reply es,
       fst (download_all_files backend "15550001@c.us" ready) = Ok reply
       /\ log (snd (download_all_files backend "15550001@c.us" ready)) = log ready ++ es
       /\ sent es = [IpcBulkProgress 1 2 "false_15550001@c.us_A2";
                     IpcBulkProgress 2 2 "false_15550001@c.us_A3"].
Proof.
  split; [reflexivity|]. split; [reflexivity|]. split; [reflexivity|].
  exact (download_all_files_reports_progress backend "15550001@c.us" ready c1
           [m1; m2; m3] eq_refl eq_refl eq_refl).
Defined.

Lemma download_all_files_keeps_what_it_saved_witness :
  isClientReady (ready_with four_files) = true
  /\ outcome (getChatById backend "15550001@c.us") = Ok c1
  /\ outcome (chat_fetchMessages c1 100) = Ok [m1; m2; m3]
  /\ exists results s',
       download_all_files backend "15550001@c.us" (ready_with four_files)
       = (Ok (RValue results), s')
       /\ forall p, is_Some (fs (ready_with four_files) !! p) -> is_Some (fs s' !! p).
Proof.
  split; [reflexivity|]. split; [reflexivity|]. split; [reflexivity|].
  destruct (download_all_files_keeps_what_it_saved backend "15550001@c.us"
              (ready_with four_files) c1 [m1; m2; m3] eq_refl eq_refl eq_refl)
    as (results & s' & Hrun & _ & Hkept).
  exists results, s'. split; [exact Hrun|exact Hkept].
Defined.

(** Start-up, then [ready]. *)
Lemma ready_flag_needs_a_ready_event_witness :
  isClientReady started = false
  /\ isClientReady (run started [ClientEmits 0 EvReady; InitResolved 0]) = true
  /\ exists pre c post,
       [ClientEmits 0 EvReady; InitResolved 0] = pre ++ ClientEmits c EvReady :: post
       /\ c ∈ alive (run started pre).
Proof.
  split; [reflexivity|]. split; [reflexivity|].
  destruct (ready_flag_needs_a_ready_event started
              [ClientEmits 0 EvReady; InitResolved 0] eq_refl eq_refl)
    as (pre & c & post & Hsplit & Halive & _).
  exists pre, c, post. split; [exact Hsplit|exact Halive].
Defined.

(** The retry of a first attempt that failed without an event. *)
Lemma session_removed_only_by_logout_or_eventless_retry_witness :
  RmAuth ∈ step_effects (run started [InitRejected 0 "Target closed"]) (RetryResumed 0)
  /\ exists c a,
       RetryResumed 0 = RetryResumed c
       /\ attempts (run started [InitRejected 0 "Target closed"]) !! c = Some a
       /\ eventReceived a = false.
Proof.
  assert (Hin : RmAuth ∈ step_effects (run started [InitRejected 0 "Target closed"])
                         (RetryResumed 0))
    by (vm_compute; repeat constructor).
  split; [exact Hin|].
  destruct (session_removed_only_by_logout_or_eventless_retry _ _ Hin)
    as [[[=] _]|[(j & r & [=])|(c & a & Hi & Ha & _ & Hev & _)]].
  exists c, a. split; [exact Hi|]. split; [exact Ha|exact Hev].
Defined.

(** A logout whose [logout()] rejects and whose [destroy()] resolves. *)
Lemma logout_always_ends_in_a_fresh_attempt_witness :
  whatsappClient ready = Some 0%nat
  /\ whatsappClient
       (run ready [LogoutInvoked; LogoutResumed 0 (Err "Protocol error");
                   LogoutResumed 0 (Ok tt); LogoutResumed 0 (Ok tt);
                   LogoutResumed 0 (Ok tt)])
     = Some 1%nat.
Proof.
  split; [reflexivity|].
  exact (proj1 (proj2 (proj2 (logout_always_ends_in_a_fresh_attempt ready 0
                                (Err "Protocol error") (Ok tt) (Ok tt) (Ok tt)
                                eq_refl)))).
Defined.

(** A session directory with a lock file at each depth: what is left is
    the directories and the two other files. *)
Lemma cleanup_leaves_no_lock_file_witness :
  (forall p, all_listable p = false)
  /\ (forall p, unlink_error p = None)
  /\ Cleanup.cleanupStaleLockFiles all_listable "/userData" (Some session)
     = Some [Cleanup.Dir "session"
               [Cleanup.File "DevToolsActivePort";
                Cleanup.Dir "Default" [Cleanup.File "Preferences"]]].
Proof.
  split; [reflexivity|]. split; [reflexivity|].
  destruct (@cleanup_leaves_no_lock_file ext all_listable "/userData" session
              (fun _ => eq_refl) (fun _ => eq_refl))
    as (entries' & Hrun & -> & _).
  exact Hrun.
Defined.

(** Four requests, one of them without a path; then three renderings, of
    which the second fails. *)
Lemma thumbnail_queue_drains_in_request_order_witness :
  let inputs := [Thumbnails.Invoke (Some "/userData/downloads/a.pdf");
                 Thumbnails.Invoke (Some "/userData/downloads/b.pdf");
                 Thumbnails.Invoke None;
                 Thumbnails.Invoke (Some "/userData/downloads/d.pdf")] in
  let outcomes := [Ok "PNG-a"; Err "ERR_FAILED"; Ok "PNG-d"] in
  let s := Thumbnails.run (Thumbnails.init four_files) inputs in
  length outcomes = length (Thumbnails.pending s)
  /\ Thumbnails.answered (Thumbnails.run s (Thumbnails.Rendered <$> outcomes))
     = Thumbnails.answered s ++ Thumbnails.pending s.
Proof.
  intros inputs outcomes s.
  assert (Hlen : length outcomes = length (Thumbnails.pending s))
    by (vm_compute; reflexivity).
  split; [exact Hlen|].
  exact (proj1 (thumbnail_queue_drains_in_request_order four_files inputs outcomes Hlen)).
Defined.

Lemma thumbnail_is_reused_once_written_witness :
  let s := Thumbnails.run (Thumbnails.init four_files)
             [Thumbnails.Invoke (Some "/userData/downloads/a.pdf")] in
  Thumbnails.rendering s = Some first_job
  /\ write_error (Thumbnails.job_thumbPath first_job) = None
  /\ Thumbnails.disk (Thumbnails.step s (Thumbnails.Rendered (Ok "PNG-a")))
       !! Thumbnails.job_thumbPath first_job
     = Some "PNG-a".
Proof.
  intros s.
  assert (Hjob : Thumbnails.rendering s = Some first_job) by (vm_compute; reflexivity).
  split; [exact Hjob|]. split; [reflexivity|].
  exact (proj1 (proj2 (thumbnail_is_reused_once_written four_files
                         [Thumbnails.Invoke (Some "/userData/downloads/a.pdf")]
                         first_job "PNG-a" Hjob eq_refl))).
Defined.

Lemma print_with_setup_error_prints_nothing_witness :
  fst (@Printing.print_with_setup shell_without_powershell four_files
         ["/userData/downloads/a.pdf"] None)
  = RError "No printer selected and could not detect default printer"
  /\ snd (@Printing.print_with_setup shell_without_powershell four_files
            ["/userData/downloads/a.pdf"] None)
     = [Printing.Exec Printing.detect_default_printer].
Proof.
  split; [reflexivity|].
  exact (proj1 (@print_with_setup_error_prints_nothing shell_without_powershell
                  four_files ["/userData/downloads/a.pdf"] None
                  "No printer selected and could not detect default printer" eq_refl)).
Defined.

(** A PDF, a file that is gone and a photograph, for the default
    printer. *)
Lemma print_with_setup_answers_per_file_witness :
  let filePaths := ["/userData/downloads/a.pdf"; "/userData/downloads/c.pdf";
                    "/userData/downloads/photo.jpg"] in
  let results := [Printing.Printed "/userData/downloads/a.pdf" "pdf-to-printer";
                  Printing.NotPrinted "/userData/downloads/c.pdf" "File not found";
                  Printing.Printed "/userData/downloads/photo.jpg" "mspaint-print"] in
  fst (Printing.print_with_setup with_photo filePaths None) = RValue results
  /\ Printing.result_filePath <$> results = filePaths
  /\ Forall (Printing.truthful with_photo) results.
Proof.
  intros filePaths results.
  assert (Hrun : fst (Printing.print_with_setup with_photo filePaths None)
                 = RValue results) by (vm_compute; reflexivity).
  split; [exact Hrun|].
  destruct (print_with_setup_answers_per_file with_photo filePaths None results Hrun)
    as (Hpaths & Htruthful & _).
  split; [exact Hpaths|exact Htruthful].
Defined.

(** A listing with a padded name and a blank line. *)
Lemma printer_names_are_clean_witness :
  "HP LaserJet" ∈ Printing.printer_names
                    ("  HP LaserJet " ++ Text.crlf ++ Text.crlf ++ "Canon")%string
  /\ Text.clean "HP LaserJet".
Proof.
  assert (Hin : "HP LaserJet"
                ∈ Printing.printer_names
                    ("  HP LaserJet " ++ Text.crlf ++ Text.crlf ++ "Canon")%string)
    by (vm_compute; repeat constructor).
  split; [exact Hin|].
  exact (printer_names_are_clean _ _ Hin).
Defined.

Lemma printer_names_round_trip_witness :
  Forall Text.clean ["HP LaserJet"; "Canon"]
  /\ Printing.printer_names (Text.listing ["HP LaserJet"; "Canon"])
     = ["HP LaserJet"; "Canon"].
Proof.
  assert (Hclean : Forall Text.clean ["HP LaserJet"; "Canon"])
    by (repeat constructor; solve [discriminate | reflexivity]).
  split; [exact Hclean|].
  exact (printer_names_round_trip ["HP LaserJet"; "Canon"] Hclean).
Defined.

(** Three files selected with one of them held open by a viewer and one
    of them gone from the disk. *)
Lemma deleteSelected_view_follows_the_disk_witness :
  NoDup (Renderer.selectedFiles view)
  /\ NoDup (mi_messageId <$> Renderer.currentFiles view)
  /\ NoDup (omap mi_localPath (Renderer.currentFiles view))
  /\ exists v' s',
       @Renderer.deleteSelected ext_locked backend view (ready_with four_files)
       = (Ok v', s')
       /\ Renderer.currentFiles v'
          = filter (fun f => @Renderer.deleted_for ext_locked (ready_with four_files)
                               view f = false)
              (Renderer.currentFiles view).
Proof.
  assert (Hsel : NoDup (Renderer.selectedFiles view))
    by (apply (bool_decide_unpack _); vm_compute; exact I).
  assert (Hids : NoDup (mi_messageId <$> Renderer.currentFiles view))
    by (apply (bool_decide_unpack _); vm_compute; exact I).
  assert (Hpaths : NoDup (omap mi_localPath (Renderer.currentFiles view)))
    by (apply (bool_decide_unpack _); vm_compute; exact I).
  split; [exact Hsel|]. split; [exact Hids|]. split; [exact Hpaths|].
  destruct (@deleteSelected_view_follows_the_disk ext_locked backend view
              (ready_with four_files) Hsel Hids Hpaths)
    as (v' & s' & Hrun & Hfiles & _).
  exists v', s'. split; [exact Hrun|exact Hfiles].
Defined.

End Installation.
